(** * Verification of the Merkle-tree helper and the JIT program core

    Shallow embedding of

    - [swarm/storage/binarymerkle.go]: the left-leaning binary Merkle tree
      ([Build], [Validate], [InclusionProof], [CheckProof], [BuildBMT]);
    - [core/vm/program.go]: the program cache and its status field, the
      one-pass decoder [CompileProgram], [validDest], and the gas and memory
      meter [calculateGasAndSize].

    Go's fixed-width integers are modelled as [Z] with the wrap-around written
    out ([u64], [i64]); pointers that may be nil are [option]; maps are
    [gmap]/[gset]; run-time panics and non-termination are explicit outcomes. *)

From Stdlib Require Import ZArith Lia List Bool.
From Stdlib.Strings Require Import Byte.
From stdpp Require Import base option list gmap.
Import ListNotations.
Local Open Scope Z_scope.

#[global] Instance byte_eq_decision : EqDecision byte := byte_eq_dec.

(** ** Machine integers *)

(** A value reduced to 64 unsigned bits (Go [uint64]). *)
Definition u64 (z : Z) : Z := z mod 2 ^ 64.

(** A value reduced to 64 signed bits (Go [int] on 64-bit platforms). *)
Definition i64 (z : Z) : Z := (z + 2 ^ 63) mod 2 ^ 64 - 2 ^ 63.

(** [uint64(1) << uint(s)] for an [int] shift count [s]: the conversion
    [uint(s)] of a negative [s] is at least [2^63], and Go shifts by 64 or
    more give 0. *)
Definition shl1_u64 (s : Z) : Z :=
  if (0 <=? s) && (s <? 64) then 2 ^ s else 0.

(** [int(1) << uint(s)]. *)
Definition shl1_int (s : Z) : Z :=
  if (0 <=? s) && (s <? 64) then i64 (2 ^ s) else 0.

(** [x >> uint(s)] on [uint64]. *)
Definition shr_u64 (x s : Z) : Z :=
  if (0 <=? s) && (s <? 64) then Z.shiftr x s else 0.

(** [x >> uint(s)] on [int] (arithmetic shift). *)
Definition shr_int (x s : Z) : Z :=
  if (0 <=? s) && (s <? 64) then Z.shiftr x s
  else if x <? 0 then -1 else 0.

(** [^x] on [uint64]. *)
Definition not_u64 (x : Z) : Z := u64 (Z.lnot x).

Definition byte_of_Z (z : Z) : byte :=
  match Byte.of_N (Z.to_N (z mod 256)) with
  | Some b => b
  | None => x00
  end.

Definition Z_of_byte (b : byte) : Z := Z.of_N (Byte.to_N b).

(** [binary.Write(h, binary.LittleEndian, count)] for a [uint64]. *)
Definition le64 (count : Z) : list byte :=
  map (fun i => byte_of_Z (Z.shiftr count (8 * Z.of_nat i))) (seq 0 8).

(** [len(s)] as a Go [int]. *)
Definition len {A} (l : list A) : Z := Z.of_nat (length l).

(** [bytes.Equal]. *)
Definition bytes_Equal (a b : list byte) : bool := bool_decide (a = b).

(** ** Outcomes of possibly panicking or diverging code *)

Inductive outcome (A : Type) : Type :=
| Ret (a : A)      (* the call returns [a] *)
| Panic            (* a Go run-time panic *)
| OutOfFuel.       (* the bounded unrolling was too short *)
Arguments Ret {A} a.
Arguments Panic {A}.
Arguments OutOfFuel {A}.

#[global] Instance outcome_ret : MRet outcome := fun _ a => Ret a.
#[global] Instance outcome_bind : MBind outcome := fun _ _ f m =>
  match m with
  | Ret a => f a
  | Panic => Panic
  | OutOfFuel => OutOfFuel
  end.

(** * The binary Merkle tree of [swarm/storage/binarymerkle.go] *)

Module Merkle.

Unset Elimination Schemes.
Inductive node : Type :=
  Node { label : list byte; child0 : option node; child1 : option node }.
Set Elimination Schemes.

Record BTree : Type :=
  mkBTree { count : Z; root : option node; rootHash_ : list byte }.

Record Root : Type := mkRoot { Count : Z; Base : list byte }.

Inductive ValidateError : Type :=
| MissingFirstChild      (* "Node missing first child, but has second" *)
| HeightMismatch         (* "height mismatch between children" *)
| NodeHashMismatch       (* "Node hash mismatch" *)
| IncorrectCount
| IncorrectHeight
| IncorrectRootHash.

(** [t.Count()] and [t.Root()]. *)
Definition BTree_Count (t : BTree) : Z := count t.
Definition BTree_Root (t : BTree) : list byte := rootHash_ t.

Section WithHash.

(** The package-level [hashFunc]: a hasher is reset, written to and summed,
    so only the digest of the concatenated writes matters. *)
Variable hashFunc : list byte -> list byte.

Definition rootHash (count : Z) (data : list byte) : list byte :=
  hashFunc (data ++ le64 count).

Definition makeHash (left right : option node) : list byte :=
  match left with
  | Some l =>
      match right with
      | Some r => hashFunc (label l ++ label r)
      | None => hashFunc (label l)
      end
  | None => hashFunc []
  end.

(** The loop of [GetHeight]: [for count > (1 << uint(height)) { height++ }]. *)
Fixpoint GetHeight_loop (fuel : nat) (count height : Z) : outcome Z :=
  if shl1_u64 height <? count then
    match fuel with
    | O => OutOfFuel
    | S fuel' => GetHeight_loop fuel' count (i64 (height + 1))
    end
  else Ret height.

Definition GetHeight (fuel : nat) (count : Z) : outcome Z :=
  if count =? 0 then Ret 0
  else height ← GetHeight_loop fuel count 0; Ret (i64 (height + 1)).

(** [node.validate] on a non-nil receiver. *)
Fixpoint validate_node (t : node) : Z * Z * option ValidateError :=
  match child0 t with
  | None =>
      match child1 t with
      | Some _ => (0, 0, Some MissingFirstChild)
      | None => (1, 1, None)
      end
  | Some c0 =>
      let '(count, height, err) := validate_node c0 in
      match err with
      | Some e => (count, height, Some e)
      | None =>
          let check_label (count : Z) :=
            if negb (bytes_Equal (makeHash (Some c0) (child1 t)) (label t))
            then (0, 0, Some NodeHashMismatch)
            else (count, i64 (height + 1), None) in
          match child1 t with
          | Some c1 =>
              let '(count2, height2, err2) := validate_node c1 in
              let count := u64 (count + count2) in
              match err2 with
              | Some e2 => (count, height, Some e2)
              | None =>
                  if negb (height2 =? height)
                  then (count, height, Some HeightMismatch)
                  else check_label count
              end
          | None => check_label count
          end
      end
  end.

Definition validate (t : option node) : Z * Z * option ValidateError :=
  match t with
  | None => (0, 0, None)
  | Some n => validate_node n
  end.

(** [BTree.Validate]; [Ret None] is Go's [nil] error. *)
Definition Validate (fuel : nat) (t : BTree) : outcome (option ValidateError) :=
  let '(cnt, height, err) := validate (root t) in
  match err with
  | Some e => Ret (Some e)
  | None =>
      if negb (cnt =? count t) then Ret (Some IncorrectCount)
      else
        h ← GetHeight fuel cnt;
        if negb (height =? h) then Ret (Some IncorrectHeight)
        else
          rootLabel ← (if 0 <? height
                       then match root t with
                            | Some n => Ret (label n)
                            | None => Panic
                            end
                       else Ret []);
          if negb (bytes_Equal (rootHash_ t) (rootHash cnt rootLabel))
          then Ret (Some IncorrectRootHash)
          else Ret None
  end.

(** [buildNode]; the recursion on [height] is unrolled [fuel] times. *)
Fixpoint buildNode (fuel : nat) (data : list (list byte)) (height : Z)
  : outcome (option node * list (list byte)) :=
  match fuel with
  | O => OutOfFuel
  | S fuel' =>
      if (height =? 0) || (len data =? 0) then Ret (None, data)
      else if height =? 1 then
        match data with
        | d :: rest => Ret (Some (Node d None None), rest)
        | [] => Panic
        end
      else
        '(n0, data1) ← buildNode fuel' data (height - 1);
        '(n1, data2) ← buildNode fuel' data1 (height - 1);
        Ret (Some (Node (makeHash n0 n1) n0 n1), data2)
  end.

Definition Build (fuel : nat) (data : list (list byte)) : outcome BTree :=
  let count := u64 (len data) in
  height ← GetHeight fuel count;
  '(node, leftOverData) ← buildNode fuel data height;
  if negb (len leftOverData =? 0) then Panic
  else
    rootLabel ← (if 0 <? height
                 then match node with
                      | Some n => Ret (label n)
                      | None => Panic
                      end
                 else Ret []);
    Ret (mkBTree count node (rootHash count rootLabel)).

(** [data[lo:hi]] for in-range bounds. *)
Definition slice {A} (data : list A) (lo hi : Z) : list A :=
  take (Z.to_nat (hi - lo)) (drop (Z.to_nat lo) data).

(** The blocks the loop of [splitData] appends: [count] slices
    [data[i*size : (i+1)*size]]. *)
Definition full_blocks (data : list byte) (size : Z) (count : nat)
  : list (list byte) :=
  map (fun i => slice data (Z.of_nat i * size) ((Z.of_nat i + 1) * size))
      (seq 0 count).

(** [splitData]: integer division by zero and a negative capacity panic. *)
Definition splitData (data : list byte) (size : Z) : outcome (list (list byte)) :=
  if size =? 0 then Panic
  else
    let count := Z.quot (len data) size in
    if count <? 0 then Panic
    else
      let blocks := full_blocks data size (Z.to_nat count) in
      if negb (Z.rem (len data) size =? 0)
      then Ret (blocks ++ [drop (Z.to_nat (len blocks * size)) data])
      else Ret blocks.

(** [proveNode] on a non-nil node; a nil child reached by the walk and a
    child index outside [0..1] panic. *)
Fixpoint proveNode_node (height : Z) (n : node) (index : Z)
  : outcome (list (list byte)) :=
  if height =? 1 then
    if negb (index =? 0) then Panic else Ret [label n]
  else
    let childIndex := shr_int index (height - 2) in
    let nextIndex := Z.land index (Z.lnot (shl1_int (height - 2))) in
    let otherChildIndex := Z.rem (childIndex + 1) 2 in
    if (childIndex <? 0) || (2 <=? childIndex) then Panic
    else
      match (if childIndex =? 0 then child0 n else child1 n) with
      | None => Panic
      | Some c =>
          b ← proveNode_node (height - 1) c nextIndex;
          match (if otherChildIndex =? 0 then child0 n else child1 n) with
          | Some o => Ret (b ++ [label o])
          | None => Ret b
          end
      end.

Definition proveNode (height : Z) (n : option node) (index : Z)
  : outcome (list (list byte)) :=
  match n with
  | None => Panic
  | Some n => proveNode_node height n index
  end.

(** [BTree.InclusionProof]; the tree height printed to stdout is not
    part of the result. *)
Definition InclusionProof (fuel : nat) (t : BTree) (index : Z)
  : outcome (list (list byte)) :=
  if count t <=? u64 index then Panic
  else if index <? 0 then Panic
  else
    h ← GetHeight fuel (count t);
    proveNode h (root t) index.

(** [proof[i]] for an index known to be in range. *)
Definition at_ (proof : list (list byte)) (i : Z) : list byte :=
  default [] (proof !! Z.to_nat i).

(** [checkNode]; the recursion is unrolled [fuel] times. *)
Fixpoint checkNode (fuel : nat) (height : Z) (proof : list (list byte))
    (index count : Z) : outcome (list byte * bool) :=
  match fuel with
  | O => OutOfFuel
  | S fuel' =>
      if len proof =? 0 then Ret ([], false)
      else if count <=? index then Ret ([], false)
      else if height =? 1 then
        if negb (index =? 0) || negb (len proof =? 1) then Ret ([], false)
        else Ret (at_ proof 0, true)
      else
        let childIndex := shr_u64 index (height - 2) in
        let mask := not_u64 (shl1_u64 (height - 2)) in
        let nextIndex := Z.land index mask in
        let last := len proof - 1 in
        if childIndex =? 1 then
          let nextCount := Z.land count mask in
          '(data, ok) ← checkNode fuel' (height - 1) (slice proof 0 last)
                                   nextIndex nextCount;
          Ret (hashFunc (at_ proof last ++ data), ok)
        else
          let nextCount := if not_u64 mask <? count then not_u64 mask else count in
          if count =? nextCount then
            '(data, ok) ← checkNode fuel' (height - 1) proof nextIndex nextCount;
            Ret (hashFunc data, ok)
          else
            '(data, ok) ← checkNode fuel' (height - 1) (slice proof 0 last)
                                     nextIndex nextCount;
            Ret (hashFunc (data ++ at_ proof last), ok)
  end.

(** [Root.CheckProof]. *)
Definition CheckProof (fuel : nat) (r : Root) (proof : list (list byte))
    (index : Z) : outcome bool :=
  t_height ← GetHeight fuel (Count r);
  '(root, ok) ← checkNode fuel t_height proof (u64 index) (Count r);
  let base := rootHash (Count r) root in
  Ret (ok && bytes_Equal (Base r) base).

(** [BuildBMT]: the tree, its root, the leaf count and the error code. *)
Definition BuildBMT (fuel : nat) (data : list byte) (segmentsize : Z)
  : outcome (option BTree * option Root * Z * Z) :=
  blocks ← splitData data segmentsize;
  let leafcount := len blocks in
  tree ← Build fuel blocks;
  err ← Validate fuel tree;
  match err with
  | Some _ => Ret (None, None, 0, -1)
  | None =>
      if negb (BTree_Count tree =? u64 leafcount) then Ret (None, None, 0, -2)
      else Ret (Some tree, Some (mkRoot (u64 leafcount) (BTree_Root tree)),
                leafcount, 0)
  end.

(** ** The [hash.Hash] wrapper [state] *)

Record state : Type := mkState { btree : BTree; root_ : Root }.

(** [NewBMTSHA3]; a nil slice is the empty list. *)
Definition NewBMTSHA3 : state :=
  mkState (mkBTree 0 None []) (mkRoot 0 []).

(** [state.Reset]. *)
Definition state_Reset (d : state) : state :=
  mkState (mkBTree 0 None []) (mkRoot 0 []).

(** [state.Write]: the new state, the count returned as [written] and
    whether [err] is non-nil. The tree and the root that [BuildBMT] returns
    are dereferenced before the error code is looked at, so a nil one
    panics. *)
Definition state_Write (fuel : nat) (d : state) (p : list byte)
  : outcome (state * Z * bool) :=
  '(tree, r, count, err1) ← BuildBMT fuel p 32;
  match tree with
  | None => Panic
  | Some t =>
      match r with
      | None => Panic
      | Some r' => Ret (mkState t r', count, negb (err1 =? 0))
      end
  end.

(** [state.Get], [state.Sum], [state.BlockSize] and [state.Size]. *)
Definition state_Get (d : state) (p : list byte) : Z := 3.
Definition state_Sum (d : state) (in_ : list byte) : list byte := Base (root_ d).
Definition state_BlockSize (d : state) : Z := 0.
Definition state_Size (d : state) : Z := 32.

End WithHash.

(** ** The representation invariants of [node] *)

(** The leaf labels of a subtree, left to right; a node is a leaf when its
    first child is nil. *)
Fixpoint leaves_of (n : node) : list (list byte) :=
  match child0 n with
  | None => [label n]
  | Some c0 =>
      leaves_of c0 ++
      match child1 n with
      | Some c1 => leaves_of c1
      | None => []
      end
  end.

Definition tree_leaves (t : BTree) : list (list byte) :=
  match root t with
  | Some n => leaves_of n
  | None => []
  end.

(** The invariants listed in the declaration of [node], at every node of a
    subtree: a node without first child has no second child, and the label
    of every other node is the hash of the labels of its children. *)
Fixpoint rep_ok (hashFunc : list byte -> list byte) (n : node) : Prop :=
  match child0 n with
  | None => child1 n = None
  | Some c0 =>
      rep_ok hashFunc c0 /\
      label n = makeHash hashFunc (Some c0) (child1 n) /\
      match child1 n with
      | Some c1 => rep_ok hashFunc c1
      | None => True
      end
  end.

End Merkle.

(** * The JIT program core of [core/vm/program.go] *)

Module VM.

(** ** [math/big] and [common] conversions

    Stack items are [*big.Int]; addresses and hashes are fixed-width byte
    arrays, read here as the unsigned integers they spell big-endian. *)

Abbreviation Address := Z (only parsing).
Abbreviation Hash := Z (only parsing).

(** [x.BitLen()]: the bit length of the absolute value. *)
Definition BitLen (x : Z) : Z :=
  if x =? 0 then 0 else Z.log2 (Z.abs x) + 1.

(** [x.Uint64()]: the low 64 bits of the absolute value. *)
Definition Uint64 (x : Z) : Z := u64 (Z.abs x).

(** [len(x.Bytes())]. *)
Definition BytesLen (x : Z) : Z := (BitLen x + 7) / 8.

(** Modelled from the spec: [common.BigToAddress], [common.BigToHash] and
    [common.EmptyHash], not among the sources.  The specification reads the
    key and the callee off 256-bit stack items and [EmptyHash] as "== 0"
    ("if v == 0 and w != 0 ..."); the conversions keep the low 20 and 32
    bytes of the item. *)
Definition BigToAddress (x : Z) : Address := Z.abs x mod 2 ^ 160.

Definition BigToHash (x : Z) : Hash := Z.abs x mod 2 ^ 256.

Definition EmptyHash (h : Hash) : bool := h =? 0.

(** Modelled from the spec: [common.Bytes2Big], not among the sources: the
    immediate is the bytes read "big-endian". *)
Definition Bytes2Big (bs : list byte) : Z :=
  fold_left (fun acc b => acc * 256 + Z_of_byte b) bs 0.

(** ** Opcodes *)

Abbreviation OpCode := byte (only parsing).

(** Modelled from the spec: the opcode bytes of [core/vm/opcodes.go], which is
    not among the sources at hand.  The specification's scenarios fix
    [STOP = 00], [ADD = 01], [PUSH1 = 60] and [JUMPDEST = 5B]; the others are
    the machine's standard assignment, with the [PUSH], [DUP], [SWAP] and
    [LOG] families contiguous as the decoder's arithmetic on them requires. *)
Abbreviation STOP := x00.
Abbreviation ADD := x01.
Abbreviation MUL := x02.
Abbreviation SUB := x03.
Abbreviation DIV := x04.
Abbreviation SDIV := x05.
Abbreviation MOD := x06.
Abbreviation SMOD := x07.
Abbreviation ADDMOD := x08.
Abbreviation MULMOD := x09.
Abbreviation EXP := x0a.
Abbreviation SIGNEXTEND := x0b.
Abbreviation LT := x10.
Abbreviation GT := x11.
Abbreviation SLT := x12.
Abbreviation SGT := x13.
Abbreviation EQ := x14.
Abbreviation ISZERO := x15.
Abbreviation AND := x16.
Abbreviation OR := x17.
Abbreviation XOR := x18.
Abbreviation NOT := x19.
Abbreviation BYTE := x1a.
Abbreviation SHA3 := x20.
Abbreviation ADDRESS := x30.
Abbreviation BALANCE := x31.
Abbreviation ORIGIN := x32.
Abbreviation CALLER := x33.
Abbreviation CALLVALUE := x34.
Abbreviation CALLDATALOAD := x35.
Abbreviation CALLDATASIZE := x36.
Abbreviation CALLDATACOPY := x37.
Abbreviation CODESIZE := x38.
Abbreviation CODECOPY := x39.
Abbreviation GASPRICE := x3a.
Abbreviation EXTCODESIZE := x3b.
Abbreviation EXTCODECOPY := x3c.
Abbreviation BLOCKHASH := x40.
Abbreviation COINBASE := x41.
Abbreviation TIMESTAMP := x42.
Abbreviation NUMBER := x43.
Abbreviation DIFFICULTY := x44.
Abbreviation GASLIMIT := x45.
Abbreviation POP := x50.
Abbreviation MLOAD := x51.
Abbreviation MSTORE := x52.
Abbreviation MSTORE8 := x53.
Abbreviation SLOAD := x54.
Abbreviation SSTORE := x55.
Abbreviation JUMP := x56.
Abbreviation JUMPI := x57.
Abbreviation PC := x58.
Abbreviation MSIZE := x59.
Abbreviation GAS := x5a.
Abbreviation JUMPDEST := x5b.
Abbreviation PUSH1 := x60.
Abbreviation PUSH2 := x61.
Abbreviation PUSH3 := x62.
Abbreviation PUSH4 := x63.
Abbreviation PUSH5 := x64.
Abbreviation PUSH6 := x65.
Abbreviation PUSH7 := x66.
Abbreviation PUSH8 := x67.
Abbreviation PUSH9 := x68.
Abbreviation PUSH10 := x69.
Abbreviation PUSH11 := x6a.
Abbreviation PUSH12 := x6b.
Abbreviation PUSH13 := x6c.
Abbreviation PUSH14 := x6d.
Abbreviation PUSH15 := x6e.
Abbreviation PUSH16 := x6f.
Abbreviation PUSH17 := x70.
Abbreviation PUSH18 := x71.
Abbreviation PUSH19 := x72.
Abbreviation PUSH20 := x73.
Abbreviation PUSH21 := x74.
Abbreviation PUSH22 := x75.
Abbreviation PUSH23 := x76.
Abbreviation PUSH24 := x77.
Abbreviation PUSH25 := x78.
Abbreviation PUSH26 := x79.
Abbreviation PUSH27 := x7a.
Abbreviation PUSH28 := x7b.
Abbreviation PUSH29 := x7c.
Abbreviation PUSH30 := x7d.
Abbreviation PUSH31 := x7e.
Abbreviation PUSH32 := x7f.
Abbreviation DUP1 := x80.
Abbreviation DUP2 := x81.
Abbreviation DUP3 := x82.
Abbreviation DUP4 := x83.
Abbreviation DUP5 := x84.
Abbreviation DUP6 := x85.
Abbreviation DUP7 := x86.
Abbreviation DUP8 := x87.
Abbreviation DUP9 := x88.
Abbreviation DUP10 := x89.
Abbreviation DUP11 := x8a.
Abbreviation DUP12 := x8b.
Abbreviation DUP13 := x8c.
Abbreviation DUP14 := x8d.
Abbreviation DUP15 := x8e.
Abbreviation DUP16 := x8f.
Abbreviation SWAP1 := x90.
Abbreviation SWAP2 := x91.
Abbreviation SWAP3 := x92.
Abbreviation SWAP4 := x93.
Abbreviation SWAP5 := x94.
Abbreviation SWAP6 := x95.
Abbreviation SWAP7 := x96.
Abbreviation SWAP8 := x97.
Abbreviation SWAP9 := x98.
Abbreviation SWAP10 := x99.
Abbreviation SWAP11 := x9a.
Abbreviation SWAP12 := x9b.
Abbreviation SWAP13 := x9c.
Abbreviation SWAP14 := x9d.
Abbreviation SWAP15 := x9e.
Abbreviation SWAP16 := x9f.
Abbreviation LOG0 := xa0.
Abbreviation LOG1 := xa1.
Abbreviation LOG2 := xa2.
Abbreviation LOG3 := xa3.
Abbreviation LOG4 := xa4.
Abbreviation CREATE := xf0.
Abbreviation CALL := xf1.
Abbreviation CALLCODE := xf2.
Abbreviation RETURN := xf3.
Abbreviation DELEGATECALL := xf4.
Abbreviation SUICIDE := xff.

(** The numeric value of an opcode, and [op1 <= op2] on opcodes. *)
Definition opnum (op : OpCode) : Z := Z_of_byte op.
Definition op_le (a b : OpCode) : bool := opnum a <=? opnum b.

(** The execution functions the decoder attaches to instructions. *)
Inductive instrFn : Type :=
| opAdd | opSub | opMul | opDiv | opSdiv | opMod | opSmod | opExp
| opSignExtend | opNot | opLt | opGt | opSlt | opSgt | opEq | opIszero
| opAnd | opOr | opXor | opByte | opAddmod | opMulmod | opSha3
| opAddress | opBalance | opOrigin | opCaller | opCallValue
| opCalldataLoad | opCalldataSize | opCalldataCopy | opCodeSize
| opExtCodeSize | opCodeCopy | opExtCodeCopy | opGasprice | opBlockhash
| opCoinbase | opTimestamp | opNumber | opDifficulty | opGasLimit
| opPush | opPop | opDup | opSwap | opLog | opMload | opMstore | opMstore8
| opSload | opSstore | opJump | opJumpi | opJumpdest | opPc | opMsize
| opGas | opCreate | opDelegateCall | opCall | opCallCode | opReturn
| opSuicide | opStop.

(** ** Programs and instructions *)

(** [progStatus]. *)
Inductive progStatus : Type :=
| progUnknown   (* unknown status *)
| progCompile   (* compile status *)
| progReady     (* ready for use status *)
| progError.    (* error status *)

#[global] Instance progStatus_eq_dec : EqDecision progStatus.
Proof. solve_decision. Defined.

(** A row of the [_baseCheck] table. *)
Record req : Type := mkReq { stackPop : Z; gas : Z; stackPush : Z }.

(** [instruction{op, pc, fn, data, gas, spop, spush, returns}]; a nil [fn]
    or [data] is [None]. *)
Record instruction : Type := mkInstruction {
  i_op : OpCode;
  i_pc : Z;
  i_fn : option instrFn;
  i_data : option Z;
  i_gas : Z;
  i_spop : Z;
  i_spush : Z;
  i_returns : bool
}.

(** [Program]; its [contract] field is never written by this file. *)
Record Program : Type := mkProgram {
  Id : Hash;
  status : progStatus;
  instructions : list instruction;
  mapping : gmap Z Z;
  destinations : gset Z;
  code : list byte
}.

Definition set_status (v : progStatus) (p : Program) : Program :=
  mkProgram (Id p) v (instructions p) (mapping p) (destinations p) (code p).

(** A change of a status field: the value before and the value stored. *)
Definition transition : Type := (progStatus * progStatus)%type.

(** [atomic.StoreInt32(&program.status, v)], with the change it makes. *)
Definition StoreStatus (p : Program) (v : progStatus) : Program * transition :=
  (set_status v p, (status p, v)).

(** The bytes of [data] that lie in the window of [size] bytes from
    [start]. *)
Definition window (data : list byte) (start size : Z) : list byte :=
  take (Z.to_nat size) (drop (Z.to_nat start) data).

(** Modelled from the spec: [getData] of the package, not among the sources,
    as the specification words it where it describes the decoder: "the
    immediate is the next n bytes of code, big-endian, zero-padded on right
    truncation"; "trailing bytes are treated as zero": the bytes in the
    window, then zero bytes up to [size]. *)
Definition getData_right_padded (data : list byte) (start size : Z)
  : list byte :=
  let avail := window data start size in
  avail ++ repeat x00 (Z.to_nat size - length avail).


Section Decoder.

(** The [_baseCheck] table of the package (not among the sources); a Go map
    read at a missing key gives the zero row. *)
Variable _baseCheck : OpCode -> req.

(** [getData] of the package is not among the sources and the specification
    words it in the two ways above, so the decoder takes it as it calls it:
    [getData(code, start, size)]. *)
Variable getData : list byte -> Z -> Z -> list byte.

(** [crypto.Keccak256Hash]. *)
Variable Keccak256Hash : list byte -> Hash.

(** [Program.addInstr]. *)
Definition addInstr (p : Program) (op : OpCode) (pc : Z)
    (fn : option instrFn) (data : option Z) : Program :=
  let baseOp := op in
  let baseOp := if op_le PUSH1 op && op_le op PUSH32 then PUSH1 else baseOp in
  let baseOp := if op_le DUP1 op && op_le op DUP16 then DUP1 else baseOp in
  let base := _baseCheck baseOp in
  let returns :=
    bool_decide (op = RETURN) || bool_decide (op = SUICIDE)
    || bool_decide (op = STOP) in
  let instr :=
    mkInstruction op pc fn data (gas base) (stackPop base) (stackPush base)
                  returns in
  let instructions' := instructions p ++ [instr] in
  mkProgram (Id p) (status p) instructions'
            (<[pc := u64 (len instructions' - 1)]> (mapping p))
            (destinations p) (code p).

(** [program.destinations[pc] = struct{}{}]. *)
Definition add_destination (p : Program) (pc : Z) : Program :=
  mkProgram (Id p) (status p) (instructions p) (mapping p)
            ({[ pc ]} ∪ destinations p) (code p).

(** One turn of the decoding switch: the program after it and the value of
    [pc] before the loop's [pc++]. *)
Definition compile_op (program : Program) (pc : Z) (op : OpCode)
  : Program * Z :=
  let plain fn := (addInstr program op pc (Some fn) None, pc) in
  match op with
  | ADD => plain opAdd
  | SUB => plain opSub
  | MUL => plain opMul
  | DIV => plain opDiv
  | SDIV => plain opSdiv
  | MOD => plain opMod
  | SMOD => plain opSmod
  | EXP => plain opExp
  | SIGNEXTEND => plain opSignExtend
  | NOT => plain opNot
  | LT => plain opLt
  | GT => plain opGt
  | SLT => plain opSlt
  | SGT => plain opSgt
  | EQ => plain opEq
  | ISZERO => plain opIszero
  | AND => plain opAnd
  | OR => plain opOr
  | XOR => plain opXor
  | BYTE => plain opByte
  | ADDMOD => plain opAddmod
  | MULMOD => plain opMulmod
  | SHA3 => plain opSha3
  | ADDRESS => plain opAddress
  | BALANCE => plain opBalance
  | ORIGIN => plain opOrigin
  | CALLER => plain opCaller
  | CALLVALUE => plain opCallValue
  | CALLDATALOAD => plain opCalldataLoad
  | CALLDATASIZE => plain opCalldataSize
  | CALLDATACOPY => plain opCalldataCopy
  | CODESIZE => plain opCodeSize
  | EXTCODESIZE => plain opExtCodeSize
  | CODECOPY => plain opCodeCopy
  | EXTCODECOPY => plain opExtCodeCopy
  | GASPRICE => plain opGasprice
  | BLOCKHASH => plain opBlockhash
  | COINBASE => plain opCoinbase
  | TIMESTAMP => plain opTimestamp
  | NUMBER => plain opNumber
  | DIFFICULTY => plain opDifficulty
  | GASLIMIT => plain opGasLimit
  | PUSH1 | PUSH2 | PUSH3 | PUSH4 | PUSH5 | PUSH6 | PUSH7 | PUSH8
  | PUSH9 | PUSH10 | PUSH11 | PUSH12 | PUSH13 | PUSH14 | PUSH15 | PUSH16
  | PUSH17 | PUSH18 | PUSH19 | PUSH20 | PUSH21 | PUSH22 | PUSH23 | PUSH24
  | PUSH25 | PUSH26 | PUSH27 | PUSH28 | PUSH29 | PUSH30 | PUSH31 | PUSH32 =>
      let size := u64 ((opnum op - opnum PUSH1 + 1) mod 256) in
      let bytes := getData (code program) (u64 (pc + 1)) size in
      (addInstr program op pc (Some opPush) (Some (Bytes2Big bytes)),
       u64 (pc + size))
  | POP => plain opPop
  | DUP1 | DUP2 | DUP3 | DUP4 | DUP5 | DUP6 | DUP7 | DUP8
  | DUP9 | DUP10 | DUP11 | DUP12 | DUP13 | DUP14 | DUP15 | DUP16 =>
      (addInstr program op pc (Some opDup)
                (Some ((opnum op - opnum DUP1 + 1) mod 256)), pc)
  | SWAP1 | SWAP2 | SWAP3 | SWAP4 | SWAP5 | SWAP6 | SWAP7 | SWAP8
  | SWAP9 | SWAP10 | SWAP11 | SWAP12 | SWAP13 | SWAP14 | SWAP15 | SWAP16 =>
      (addInstr program op pc (Some opSwap)
                (Some ((opnum op - opnum SWAP1 + 2) mod 256)), pc)
  | LOG0 | LOG1 | LOG2 | LOG3 | LOG4 =>
      (addInstr program op pc (Some opLog)
                (Some ((opnum op - opnum LOG0) mod 256)), pc)
  | MLOAD => plain opMload
  | MSTORE => plain opMstore
  | MSTORE8 => plain opMstore8
  | SLOAD => plain opSload
  | SSTORE => plain opSstore
  | JUMP => plain opJump
  | JUMPI => plain opJumpi
  | JUMPDEST =>
      (add_destination (addInstr program op pc (Some opJumpdest) None) pc, pc)
  | PC => (addInstr program op pc (Some opPc) (Some (i64 pc)), pc)
  | MSIZE => plain opMsize
  | GAS => plain opGas
  | CREATE => plain opCreate
  | DELEGATECALL => plain opDelegateCall
  | CALL => plain opCall
  | CALLCODE => plain opCallCode
  | RETURN => plain opReturn
  | SUICIDE => plain opSuicide
  | STOP => plain opStop
  | _ => (addInstr program op pc None None, pc)
  end.

(** [for pc := uint64(0); pc < uint64(len(program.code)); pc++ { ... }],
    unrolled [fuel] times. *)
Fixpoint compile_loop (fuel : nat) (program : Program) (pc : Z)
  : outcome Program :=
  if pc <? u64 (len (code program)) then
    match fuel with
    | O => OutOfFuel
    | S fuel' =>
        match code program !! Z.to_nat pc with
        | None => Panic
        | Some op =>
            let '(program', pc') := compile_op program pc op in
            compile_loop fuel' program' (u64 (pc' + 1))
        end
    end
  else Ret program.

(** [CompileProgram], with the changes of the status field it makes.  Every
    turn of the loop advances [pc], so [len(code)] unrollings are enough. *)
Definition CompileProgram (program : Program)
  : outcome (Program * list transition) :=
  if bool_decide (status program = progCompile) then Ret (program, [])
  else
    let '(program1, t1) := StoreStatus program progCompile in
    program2 ← compile_loop (length (code program1)) program1 0;
    let '(program3, t2) := StoreStatus program2 progReady in
    Ret (program3, [t1; t2]).

(** [validDest]; [bigMaxUint64], declared outside this file, is
    [2^64 - 1]: "true iff dest fits in 64 bits and belongs to the jump
    destinations". *)
Definition validDest (dests : gset Z) (dest : Z) : bool :=
  if 2 ^ 64 - 1 <? dest then false
  else bool_decide (Uint64 dest ∈ dests).

(** ** The program cache

    Programs live on the heap and are named by their address, here the
    index in [heap].  [programs] is the LRU cache of the [golang-lru]
    library: most recently used entry first, the oldest entry dropped when an
    insertion exceeds the capacity. *)
Record Store : Type := mkStore {
  heap : list Program;
  MaxSize : nat;
  programs : list (Hash * nat)
}.

Definition lru_remove (k : Hash) (c : list (Hash * nat)) : list (Hash * nat) :=
  filter (fun e => e.1 ≠ k) c.

Definition lru_find (k : Hash) (c : list (Hash * nat)) : option nat :=
  (fun ie => ie.2.2) <$> list_find (fun e => e.1 = k) c.

(** [programs.Add(id, p)]. *)
Definition lru_Add (size : nat) (k : Hash) (v : nat) (c : list (Hash * nat))
  : list (Hash * nat) :=
  take size ((k, v) :: lru_remove k c).

(** [programs.Get(id)]: the entry, now most recent. *)
Definition lru_Get (k : Hash) (c : list (Hash * nat))
  : option nat * list (Hash * nat) :=
  match lru_find k c with
  | Some v => (Some v, (k, v) :: lru_remove k c)
  | None => (None, c)
  end.

(** [init] and [SetJITCacheSize], for a size of at least 1, as [init] gives
    it.  ([lru.New] refuses a size that is not positive and its error is
    dropped, which leaves [programs] nil; that case is not modelled, and what
    is proved of the cache asks for a capacity of at least 1.) *)
Definition SetJITCacheSize (size : nat) (s : Store) : Store :=
  mkStore (heap s) size [].

Definition defaultJitMaxCache : nat := 1024.

Definition init : Store := SetJITCacheSize defaultJitMaxCache (mkStore [] 0 []).

(** The program [NewProgram] makes: the zero status is [progUnknown]. *)
Definition fresh (code : list byte) : Program :=
  mkProgram (Keccak256Hash code) progUnknown [] ∅ ∅ code.

(** [NewProgram]: the address of the new program. *)
Definition NewProgram (code : list byte) (s : Store) : nat * Store :=
  let program := fresh code in
  let ptr := length (heap s) in
  (ptr, mkStore (heap s ++ [program]) (MaxSize s)
                (lru_Add (MaxSize s) (Id program) ptr (programs s))).

(** [GetProgram]. *)
Definition GetProgram (id : Hash) (s : Store) : option nat * Store :=
  let '(p, c) := lru_Get id (programs s) in
  (p, mkStore (heap s) (MaxSize s) c).

(** [GetProgramStatus]. *)
Definition GetProgramStatus (id : Hash) (s : Store) : progStatus * Store :=
  let '(program, s') := GetProgram id s in
  match program ≫= (fun ptr => heap s' !! ptr) with
  | Some p => (status p, s')
  | None => (progUnknown, s')
  end.

(** The calls a client makes, and their effect on the store together with
    the status changes they make, each tagged with the program's address.
    [CompileProgram] is given a program obtained from [NewProgram]. *)
Inductive call : Type :=
| CallNewProgram (code : list byte)
| CallCompileProgram (ptr : nat)
| CallGetProgramStatus (id : Hash).

Definition do_call (c : call) (s : Store)
  : outcome (Store * list (nat * transition)) :=
  match c with
  | CallNewProgram code => Ret ((NewProgram code s).2, [])
  | CallCompileProgram ptr =>
      match heap s !! ptr with
      | None => Panic
      | Some p =>
          '(p', ts) ← CompileProgram p;
          Ret (mkStore (<[ptr := p']> (heap s)) (MaxSize s) (programs s),
               map (fun t => (ptr, t)) ts)
      end
  | CallGetProgramStatus id => Ret ((GetProgramStatus id s).2, [])
  end.

Fixpoint do_calls (cs : list call) (s : Store)
  : outcome (Store * list (nat * transition)) :=
  match cs with
  | [] => Ret (s, [])
  | c :: cs' =>
      '(s1, ts1) ← do_call c s;
      '(s2, ts2) ← do_calls cs' s1;
      Ret (s2, ts1 ++ ts2)
  end.

End Decoder.

(** ** The gas and memory meter *)

(** The fields of [params.GasTable] the meter reads. *)
Record GasTable : Type := mkGasTable {
  ExtcodeSize : Z;
  Balance : Z;
  SLoad : Z;
  Calls : Z;
  Suicide : Z;
  CreateBySuicide : Z
}.

(** The protocol constants of the [vm] and [params] packages that the meter
    names; their values are not among the sources and stay parameters. *)
Record ProtocolParams : Type := mkProtocolParams {
  GasFastestStep64 : Z;
  LogGas64 : Z;
  LogTopicGas64 : Z;
  LogDataGas64 : Z;
  ExpByteGas64 : Z;
  SstoreSetGas64 : Z;
  SstoreClearGas64 : Z;
  SstoreResetGas64 : Z;
  KeccakWordGas64 : Z;
  CopyGas64 : Z;
  CallNewAccountGas64 : Z;
  CallValueTransferGas64 : Z;
  SuicideRefundGas : Z;
  SstoreRefundGas : Z;
  MemoryGas : Z;
  QuadCoeffDiv : Z
}.

(** The world-state reader [Database], with the refund accumulator that
    [AddRefund] grows. *)
Record Database : Type := mkDatabase {
  Exist : Address -> bool;
  Empty : Address -> bool;
  GetBalance : Address -> Z;
  GetState : Address -> Hash -> Hash;
  HasSuicided : Address -> bool;
  refund : Z
}.

(** [env.ChainConfig().IsEIP158(env.BlockNumber)] and [env.Db()]. *)
Record Environment : Type := mkEnvironment {
  IsEIP158 : bool;
  Db : Database
}.

(** [contract.Address()] and [contract.gas64]. *)
Record Contract : Type := mkContract {
  contract_Address : Address;
  gas64 : Z
}.

(** [Memory]; [mem.Len()] is the length of its store. *)
Record Memory : Type := mkMemory { store : list byte }.

Definition Memory_Len (mem : Memory) : Z := len (store mem).

Inductive error : Type :=
| OutOfGasError
| StackUnderflowError.

(** What a metering call does: it returns, returns an error, or panics on
    an out-of-range stack index. *)
Inductive result (A : Type) : Type :=
| Ok (a : A)
| Err (e : error)
| Panicked.
Arguments Ok {A} a.
Arguments Err {A} e.
Arguments Panicked {A}.

(** The objects the meter writes through its pointers: [stack.data]
    (bottom first) and the state database's refund accumulator.  Writes made
    before an error return stay. *)
Record MeterState : Type := mkMeterState {
  stack_data : list Z;
  statedb : Database
}.

Definition M (A : Type) : Type := MeterState -> result A * MeterState.

Definition ret {A} (a : A) : M A := fun s => (Ok a, s).

Definition fail {A} (e : error) : M A := fun s => (Err e, s).

Definition bindM {A B} (m : M A) (f : A -> M B) : M B := fun s =>
  match m s with
  | (Ok a, s') => f a s'
  | (Err e, s') => (Err e, s')
  | (Panicked, s') => (Panicked, s')
  end.

Notation "'let*' x ':=' m 'in' k" := (bindM m (fun x => k))
  (at level 10, x pattern, m at level 100, k at level 200).

(** [if !ok { return 0, 0, e }]. *)
Definition check (ok : bool) (e : error) : M unit :=
  if ok then ret tt else fail e.

(** [stack.len()]. *)
Definition stack_len : M Z := fun s => (Ok (len (stack_data s)), s).

(** [stack.data[stack.len()-k]]; an index outside the slice panics. *)
Definition back (k : Z) : M Z := fun s =>
  let i := len (stack_data s) - k in
  if (i <? 0) || (len (stack_data s) <=? i) then (Panicked, s)
  else match stack_data s !! Z.to_nat i with
       | Some x => (Ok x, s)
       | None => (Panicked, s)
       end.

(** [stack.peek()]. *)
Definition peek : M Z := back 1.

(** [stack.data[stack.len()-k] = v]. *)
Definition set_back (k : Z) (v : Z) : M unit := fun s =>
  let i := len (stack_data s) - k in
  if (i <? 0) || (len (stack_data s) <=? i) then (Panicked, s)
  else (Ok tt, mkMeterState (<[Z.to_nat i := v]> (stack_data s)) (statedb s)).

(** Reads of [statedb]. *)
Definition read_statedb {A} (f : Database -> A) : M A := fun s =>
  (Ok (f (statedb s)), s).

(** [statedb.AddRefund(g)]. *)
Definition AddRefund (g : Z) : M unit := fun s =>
  let db := statedb s in
  (Ok tt,
   mkMeterState (stack_data s)
     (mkDatabase (Exist db) (Empty db) (GetBalance db) (GetState db)
                 (HasSuicided db) (refund db + g))).

(** Modelled from the spec: [stack.require] of [stack.go], not among the
    sources: "verifying the stack has at least [n] items; otherwise
    StackUnderflow". *)
Definition require (n : Z) : M unit := fun s =>
  if len (stack_data s) <? n then (Err StackUnderflowError, s) else (Ok tt, s).

(** Modelled from the spec: [math.IsAddSafe] and [math.IsMulSafe] of
    [common/math], not among the sources: the checked add and multiply "over
    unsigned 64-bit integers", each reporting overflow. *)
Definition IsAddSafe (a b : Z) : bool := a + b <? 2 ^ 64.
Definition IsMulSafe (a b : Z) : bool := a * b <? 2 ^ 64.

(** Modelled from the spec: [toWordSize], not among the sources:
    "word_ceil(n) = ceil(n / 32)". *)
Definition toWordSize (size : Z) : Z := (size + 31) / 32.

(** Modelled from the spec: [calcMemSize], not among the sources: "computes
    offset + length rounded up to a 32-byte word, reporting overflow when
    either exceeds 64-bit range". *)
Definition calcMemSize (off l : Z) : Z * bool :=
  let size := toWordSize (off + l) * 32 in
  if (2 ^ 64 <=? off) || (2 ^ 64 <=? l) || (2 ^ 64 <=? size)
  then (0, true)
  else (size, false).

Section Meter.

Variable P : ProtocolParams.

(** [uint64(gmath.Max(float64(x), float64(y)))] of the [DELEGATECALL]
    branch; floating point is not modelled. *)
Variable float64Max : Z -> Z -> Z.

(** Modelled from the spec: [baseCalc], not among the sources: "start with
    gas = instr.base_gas, verifying the stack has at least instr.pop items;
    otherwise StackUnderflow". *)
Definition baseCalc (instr : instruction) : M Z :=
  let* _ := require (i_spop instr) in
  ret (i_gas instr).

(** Modelled from the spec: [calcQuadMemGas], not among the sources: "let
    new_hw = max(current_hw, word_ceil(offset + length) * 32); let
    w_new = new_hw / 32, w_cur = current_hw / 32.  Charge
    (MemoryGas * (w_new - w_cur)) + (w_new^2 - w_cur^2) / QuadCoeff", with
    the overflow flag that the meter drops. *)
Definition calcQuadMemGas (mem : Memory) (newMemSize : Z) : Z * bool :=
  let current_hw := Memory_Len mem in
  let new_hw := Z.max current_hw (toWordSize newMemSize * 32) in
  let w_new := new_hw / 32 in
  let w_cur := current_hw / 32 in
  let charge :=
    MemoryGas P * (w_new - w_cur)
    + (w_new * w_new - w_cur * w_cur) / QuadCoeffDiv P in
  (u64 charge,
   negb (IsMulSafe w_new w_new && IsMulSafe (MemoryGas P) w_new
         && (charge <? 2 ^ 64))).

(** Modelled from the spec: [callGas], not among the sources: "forwarded =
    min(requested, available - gas - floor((available - gas) / 64))", on
    unsigned 64-bit integers. *)
Definition callGas (gasTable : GasTable) (availableGas base callCost : Z) : Z :=
  let availableGas := u64 (availableGas - base) in
  Z.min callCost (availableGas - availableGas / 64).

(** [gas += memGas] after the overflow check, as the memory branches do. *)
Definition addMemGas (mem : Memory) (gas newMemSize : Z) : M Z :=
  let '(memGas, _) := calcQuadMemGas mem newMemSize in
  let* _ := check (IsAddSafe gas memGas) OutOfGasError in
  ret (u64 (gas + memGas)).

(** The copy branches up to [gas += wordsGas]: the region, the early
    size-fault return, and the per-word charge at [wordGas]. *)
Definition copyWords (gas off l wordGas : Z) : M (Z * Z) :=
  let '(newMemSize, sizeFault) := calcMemSize off l in
  let* _ := check (negb sizeFault) OutOfGasError in
  let words := toWordSize (Uint64 l) in
  let* _ := check (IsMulSafe words wordGas) OutOfGasError in
  let wordsGas := u64 (words * wordGas) in
  let* _ := check (IsAddSafe gas wordsGas) OutOfGasError in
  ret (newMemSize, u64 (gas + wordsGas)).

(** The [CALL]/[CALLCODE] branch up to [gas += memGas]: the gas consumed
    before the sub-call gas is settled, and the memory size. *)
Definition callCost (gasTable : GasTable) (env : Environment) (mem : Memory)
    (op : OpCode) : M (Z * Z) :=
  let gas := Calls gasTable in
  let* value := back 3 in
  let transfersValue := 0 <? BitLen value in
  let* gas :=
    if bool_decide (op = CALL) then
      let* to := back 2 in
      let address := BigToAddress to in
      let eip158 := IsEIP158 env in
      if eip158 then
        let empty := Empty (Db env) address in
        if empty && transfersValue then
          let* _ := check (IsAddSafe gas (CallNewAccountGas64 P)) OutOfGasError in
          ret (u64 (gas + CallNewAccountGas64 P))
        else ret gas
      else
        let exist := Exist (Db env) address in
        if negb exist then
          let* _ := check (IsAddSafe gas (CallNewAccountGas64 P)) OutOfGasError in
          ret (u64 (gas + CallNewAccountGas64 P))
        else ret gas
    else ret gas in
  let* gas :=
    if transfersValue then
      let* _ := check (IsAddSafe gas (CallValueTransferGas64 P)) OutOfGasError in
      ret (u64 (gas + CallValueTransferGas64 P))
    else ret gas in
  let* xo := back 6 in
  let* xl := back 7 in
  let '(x, xSizeFault) := calcMemSize xo xl in
  let* _ := check (negb xSizeFault) OutOfGasError in
  let* yo := back 4 in
  let* yl := back 5 in
  let '(y, ySizeFault) := calcMemSize yo yl in
  let* _ := check (negb ySizeFault) OutOfGasError in
  let newMemSize := x in
  let newMemSize := if newMemSize <? y then y else newMemSize in
  let* gas := addMemGas mem gas newMemSize in
  ret (newMemSize, gas).

(** The end of the call branches: the sub-call gas replaces the top stack
    item and is added to the gas. *)
Definition callForward (gasTable : GasTable) (contract : Contract) (gas : Z)
  : M Z :=
  let* requested := back 1 in
  let cg := callGas gasTable (gas64 contract) gas (Uint64 requested) in
  let* _ := set_back 1 cg in
  let* _ := check (IsAddSafe gas cg) OutOfGasError in
  ret (u64 (gas + cg)).

(** The switch of [calculateGasAndSize]: [newMemSize], [sizeFault] and
    [gas] after it. *)
Definition meterOp (gasTable : GasTable) (env : Environment)
    (contract : Contract) (instr : instruction) (mem : Memory) (gas : Z)
  : M (Z * bool * Z) :=
  let op := i_op instr in
  let memory (off l : Z) : M (Z * bool * Z) :=
    let '(newMemSize, sizeFault) := calcMemSize off l in
    let* gas := addMemGas mem gas newMemSize in
    ret (newMemSize, sizeFault, gas) in
  let copy (off l wordGas : Z) : M (Z * bool * Z) :=
    let* (newMemSize, gas) := copyWords gas off l wordGas in
    let* gas := addMemGas mem gas newMemSize in
    ret (newMemSize, false, gas) in
  match op with
  | SUICIDE =>
      let* gas :=
        if 0 <? CreateBySuicide gasTable then
          let gas := u64 (gas + Suicide gasTable) in
          let* top := back 1 in
          let address := BigToAddress top in
          let eip158 := IsEIP158 env in
          if eip158 then
            let empty := Empty (Db env) address in
            let* balance :=
              read_statedb (fun db => GetBalance db (contract_Address contract)) in
            let transfersValue := 0 <? BitLen balance in
            if empty && transfersValue
            then ret (u64 (gas + CreateBySuicide gasTable))
            else ret gas
          else
            let exist := Exist (Db env) address in
            if negb exist
            then ret (u64 (gas + CreateBySuicide gasTable))
            else ret gas
        else ret gas in
      let* suicided :=
        read_statedb (fun db => HasSuicided db (contract_Address contract)) in
      let* _ := if negb suicided then AddRefund (SuicideRefundGas P) else ret tt in
      ret (0, false, gas)
  | EXTCODESIZE => ret (0, false, ExtcodeSize gasTable)
  | BALANCE => ret (0, false, Balance gasTable)
  | SLOAD => ret (0, false, SLoad gasTable)
  | SWAP1 | SWAP2 | SWAP3 | SWAP4 | SWAP5 | SWAP6 | SWAP7 | SWAP8
  | SWAP9 | SWAP10 | SWAP11 | SWAP12 | SWAP13 | SWAP14 | SWAP15 | SWAP16 =>
      let n := i64 ((opnum op - opnum SWAP1 + 2) mod 256) in
      let* _ := require n in
      ret (0, false, GasFastestStep64 P)
  | DUP1 | DUP2 | DUP3 | DUP4 | DUP5 | DUP6 | DUP7 | DUP8
  | DUP9 | DUP10 | DUP11 | DUP12 | DUP13 | DUP14 | DUP15 | DUP16 =>
      let n := i64 ((opnum op - opnum DUP1 + 1) mod 256) in
      let* _ := require n in
      ret (0, false, GasFastestStep64 P)
  | LOG0 | LOG1 | LOG2 | LOG3 | LOG4 =>
      let n := i64 ((opnum op - opnum LOG0) mod 256) in
      let* _ := require (n + 2) in
      let* mSize := back 2 in
      let* mStart := back 1 in
      let* _ := check (negb (64 <? BitLen mSize)) OutOfGasError in
      let msize64 := Uint64 mSize in
      let gas := u64 (u64 (gas + LogGas64 P) + u64 (u64 n * LogTopicGas64 P)) in
      let* _ := check (IsMulSafe msize64 (LogDataGas64 P)) OutOfGasError in
      let gasLogData := u64 (msize64 * LogDataGas64 P) in
      let* _ := check (IsAddSafe gas gasLogData) OutOfGasError in
      let gas := u64 (gas + gasLogData) in
      let '(newMemSize, sizeFault) := calcMemSize mStart mSize in
      let* gas := addMemGas mem gas newMemSize in
      ret (newMemSize, sizeFault, gas)
  | EXP =>
      let* e := back 2 in
      let x := BytesLen e in
      let* _ := check (IsMulSafe x (ExpByteGas64 P)) OutOfGasError in
      let x := u64 (x * ExpByteGas64 P) in
      let* _ := check (IsAddSafe gas x) OutOfGasError in
      ret (0, false, u64 (gas + x))
  | SSTORE =>
      let* _ := require 2 in
      let* y := back 2 in
      let* x := back 1 in
      let* val :=
        read_statedb (fun db =>
          GetState db (contract_Address contract) (BigToHash x)) in
      if EmptyHash val && negb (EmptyHash (BigToHash y)) then
        ret (0, false, SstoreSetGas64 P)
      else if negb (EmptyHash val) && EmptyHash (BigToHash y) then
        let* _ := AddRefund (SstoreRefundGas P) in
        ret (0, false, SstoreClearGas64 P)
      else
        ret (0, false, SstoreResetGas64 P)
  | MLOAD =>
      let* off := peek in
      memory off 32
  | MSTORE8 =>
      let* off := peek in
      memory off 1
  | MSTORE =>
      let* off := peek in
      memory off 32
  | RETURN =>
      let* off := peek in
      let* l := back 2 in
      memory off l
  | SHA3 =>
      let* off := peek in
      let* l := back 2 in
      let '(newMemSize, sizeFault) := calcMemSize off l in
      let* _ := check (negb sizeFault) OutOfGasError in
      let* _ := check (negb (64 <? BitLen l)) OutOfGasError in
      let words := toWordSize (Uint64 l) in
      let* _ := check (IsMulSafe words (KeccakWordGas64 P)) OutOfGasError in
      let wordsGas := u64 (words * KeccakWordGas64 P) in
      let* _ := check (IsAddSafe gas wordsGas) OutOfGasError in
      let gas := u64 (gas + wordsGas) in
      let* gas := addMemGas mem gas newMemSize in
      ret (newMemSize, false, gas)
  | CALLDATACOPY =>
      let* off := peek in
      let* l := back 3 in
      copy off l (CopyGas64 P)
  | CODECOPY =>
      let* off := peek in
      let* l := back 3 in
      copy off l (CopyGas64 P)
  | EXTCODECOPY =>
      let* off := back 2 in
      let* l := back 4 in
      let* (newMemSize, gas) := copyWords gas off l (CopyGas64 P) in
      let '(memGas, _) := calcQuadMemGas mem newMemSize in
      let* _ := check (IsAddSafe gas memGas) OutOfGasError in
      ret (newMemSize, false, gas)
  | CREATE =>
      let* off := back 2 in
      let* l := back 3 in
      memory off l
  | CALL | CALLCODE =>
      let* (newMemSize, gas) := callCost gasTable env mem op in
      let* gas := callForward gasTable contract gas in
      ret (newMemSize, false, gas)
  | DELEGATECALL =>
      let gas := Calls gasTable in
      let* xo := back 5 in
      let* xl := back 6 in
      let '(x, xSizeFault) := calcMemSize xo xl in
      let* _ := check (negb xSizeFault) OutOfGasError in
      let* yo := back 3 in
      let* yl := back 4 in
      let '(y, ySizeFault) := calcMemSize yo yl in
      let* _ := check (negb ySizeFault) OutOfGasError in
      let newMemSize := float64Max x y in
      let* gas := addMemGas mem gas newMemSize in
      let* gas := callForward gasTable contract gas in
      ret (newMemSize, false, gas)
  | _ => ret (0, false, gas)
  end.

(** [calculateGasAndSize]: the new memory size and the gas. *)
Definition calculateGasAndSize (gasTable : GasTable) (env : Environment)
    (contract : Contract) (instr : instruction) (mem : Memory) : M (Z * Z) :=
  let* gas := baseCalc instr in
  let* (newMemSize, sizeFault, gas) :=
    meterOp gasTable env contract instr mem gas in
  let* _ := check (negb sizeFault) OutOfGasError in
  ret (u64 (toWordSize newMemSize * 32), gas).

End Meter.

(** ** The decoder's stride

    [pushsize op] is the number of immediate bytes the decoding loop skips
    after [op]; [boundary code pc] holds of the values [pc] takes at the head
    of the loop, the program counters at which a byte is decoded as an
    opcode. *)
Definition is_push (op : OpCode) : bool := op_le PUSH1 op && op_le op PUSH32.

Definition pushsize (op : OpCode) : Z :=
  if is_push op then opnum op - opnum PUSH1 + 1 else 0.

Inductive boundary (code : list byte) : Z -> Prop :=
| boundary_start : boundary code 0
| boundary_next pc op :
    boundary code pc -> code !! Z.to_nat pc = Some op ->
    boundary code (pc + pushsize op + 1).

(** The instruction that one turn of the decoding switch appends. *)
Definition emitted (_baseCheck : OpCode -> req)
    (getData : list byte -> Z -> Z -> list byte) (code : list byte) (pc : Z)
    (op : OpCode) : list instruction :=
  instructions
    (compile_op _baseCheck getData (mkProgram 0 progUnknown [] ∅ ∅ code) pc op).1.

(** [decodes code pc l]: [l] lists the instructions the loop appends from
    [pc] to the end of [code]. *)
Inductive decodes (_baseCheck : OpCode -> req)
    (getData : list byte -> Z -> Z -> list byte) (code : list byte)
  : Z -> list instruction -> Prop :=
| decodes_end pc : len code <= pc -> decodes _baseCheck getData code pc []
| decodes_step pc op instr l :
    0 <= pc < len code ->
    code !! Z.to_nat pc = Some op ->
    emitted _baseCheck getData code pc op = [instr] ->
    decodes _baseCheck getData code (pc + pushsize op + 1) l ->
    decodes _baseCheck getData code pc (instr :: l).

(** The status changes the specification allows, and the one more that
    [CompileProgram] makes on a program that is ready. *)
Definition spec_transition (t : transition) : Prop :=
  t = (progUnknown, progCompile) \/ t = (progCompile, progReady)
  \/ t = (progCompile, progError).

Definition code_transition (t : transition) : Prop :=
  t = (progUnknown, progCompile) \/ t = (progCompile, progReady)
  \/ t = (progReady, progCompile).

(** The memory region [(offset, length)] that the branches of the meter
    read off the stack (bottom first, so the top is the last element). *)
Inductive touches : OpCode -> list Z -> Z -> Z -> Prop :=
| touches_MLOAD st off : touches MLOAD (st ++ [off]) off 32
| touches_MSTORE st off : touches MSTORE (st ++ [off]) off 32
| touches_MSTORE8 st off : touches MSTORE8 (st ++ [off]) off 1
| touches_RETURN st l off : touches RETURN (st ++ [l; off]) off l
| touches_SHA3 st l off : touches SHA3 (st ++ [l; off]) off l
| touches_CALLDATACOPY st l x off :
    touches CALLDATACOPY (st ++ [l; x; off]) off l
| touches_CODECOPY st l x off : touches CODECOPY (st ++ [l; x; off]) off l
| touches_EXTCODECOPY st l x off a :
    touches EXTCODECOPY (st ++ [l; x; off; a]) off l
| touches_LOG op st l off :
    op_le LOG0 op && op_le op LOG4 = true ->
    touches op (st ++ [l; off]) off l
| touches_CREATE st l off v : touches CREATE (st ++ [l; off; v]) off l.

(** ** Values for evaluating the definitions on concrete inputs

    The theorems below hold for every table and every constant; these
    values only instantiate them. *)

Definition sample_params : ProtocolParams :=
  {| GasFastestStep64 := 2; LogGas64 := 375; LogTopicGas64 := 375;
     LogDataGas64 := 8; ExpByteGas64 := 10; SstoreSetGas64 := 20000;
     SstoreClearGas64 := 5000; SstoreResetGas64 := 5000;
     KeccakWordGas64 := 6; CopyGas64 := 3; CallNewAccountGas64 := 25000;
     CallValueTransferGas64 := 9000; SuicideRefundGas := 24000;
     SstoreRefundGas := 15000; MemoryGas := 3; QuadCoeffDiv := 512 |}.

Definition sample_gasTable : GasTable :=
  {| ExtcodeSize := 700; Balance := 400; SLoad := 200; Calls := 700;
     Suicide := 5000; CreateBySuicide := 25000 |}.

(** A world in which every account exists and is non-empty, every balance
    is 0 and storage holds [slot] at every key. *)
Definition sample_db (slot : Hash) (refund : Z) : Database :=
  {| Exist := fun _ => true; Empty := fun _ => false;
     GetBalance := fun _ => 0; GetState := fun _ _ => slot;
     HasSuicided := fun _ => false; refund := refund |}.

Definition sample_env : Environment :=
  {| IsEIP158 := true; Db := sample_db 0 0 |}.

(** Exact where [float64] is, below [2^53]; used on such values only. *)
Definition sample_float64Max (x y : Z) : Z := Z.max x y.

(** An instruction as [addInstr] makes it, for a table row [base]. *)
Definition sample_instr (op : OpCode) (base : req) : instruction :=
  mkInstruction op 0 None None (gas base) (stackPop base) (stackPush base)
                false.

Definition sample_baseCheck (op : OpCode) : req := mkReq 0 0 0.

Definition sample_Keccak256Hash (code : list byte) : Hash := Bytes2Big code.

(** Either wording of [getData] serves where the immediate of a [PUSH] is
    not looked at. *)
Definition sample_getData : list byte -> Z -> Z -> list byte :=
  getData_right_padded.

End VM.

(** A hash for evaluating the Merkle tree on concrete inputs. *)
Definition sample_hashFunc (bs : list byte) : list byte :=
  [byte_of_Z (len bs)] ++ bs.

(** * Facts about machine integers *)

Section MachineIntegers.

Lemma u64_small z : 0 <= z < 2 ^ 64 -> u64 z = z.
Proof. intros Hz. unfold u64. apply Z.mod_small. exact Hz. Qed.

Lemma i64_small z : - 2 ^ 63 <= z < 2 ^ 63 -> i64 z = z.
Proof. intros Hz. unfold i64. rewrite Z.mod_small; lia. Qed.

Lemma shl1_u64_pow s : 0 <= s < 64 -> shl1_u64 s = 2 ^ s.
Proof.
  intros Hs. unfold shl1_u64.
  destruct (Z.leb_spec 0 s), (Z.ltb_spec s 64); simpl; lia.
Qed.

Lemma shl1_u64_out s : s < 0 \/ 64 <= s -> shl1_u64 s = 0.
Proof.
  intros Hs. unfold shl1_u64.
  destruct (Z.leb_spec 0 s), (Z.ltb_spec s 64); simpl; lia.
Qed.

Lemma pow2_lt_mono a b : 0 <= a < b -> 2 ^ a < 2 ^ b.
Proof. intros. apply Z.pow_lt_mono_r; lia. Qed.

Lemma pow2_le_mono a b : 0 <= a <= b -> 2 ^ a <= 2 ^ b.
Proof. intros. apply Z.pow_le_mono_r; lia. Qed.

Lemma pow2_succ a : 0 <= a -> 2 ^ (a + 1) = 2 * 2 ^ a.
Proof. intros. rewrite Z.pow_add_r by lia. lia. Qed.

Lemma shl1_int_pow s : 0 <= s < 63 -> shl1_int s = 2 ^ s.
Proof.
  intros Hs. unfold shl1_int.
  destruct (Z.leb_spec 0 s), (Z.ltb_spec s 64); simpl; try lia.
  apply i64_small. pose proof (pow2_lt_mono s 63). lia.
Qed.

(** Clearing bit [s] of a value below [2^(s+1)] leaves its low [s] bits. *)
Lemma clearbit_low x s :
  0 <= s -> 0 <= x < 2 ^ (s + 1) -> Z.land x (Z.lnot (2 ^ s)) = x mod 2 ^ s.
Proof.
  intros Hs Hx. apply Z.bits_inj'. intros n Hn.
  rewrite Z.land_spec, Z.lnot_spec, Z.pow2_bits_eqb, Z.testbit_mod_pow2 by lia.
  destruct (Z.eqb_spec s n) as [->|Hne]; simpl.
  - rewrite Z.ltb_irrefl. now rewrite andb_false_r.
  - rewrite andb_true_r. destruct (Z.ltb_spec n s); simpl; [reflexivity|].
    destruct (Z.eq_dec x 0) as [->|Hx0]; [apply Z.testbit_0_l|].
    apply Z.bits_above_log2; [lia|].
    assert (Z.log2 x < s + 1) by (apply Z.log2_lt_pow2; lia). lia.
Qed.

Lemma clearbit_other j s :
  0 <= s -> 0 <= j -> j <> s -> Z.land (2 ^ j) (Z.lnot (2 ^ s)) = 2 ^ j.
Proof.
  intros Hs Hj Hne. apply Z.bits_inj'. intros n Hn.
  rewrite Z.land_spec, Z.lnot_spec, !Z.pow2_bits_eqb by lia.
  destruct (Z.eqb_spec j n), (Z.eqb_spec s n); simpl; try reflexivity; lia.
Qed.

(** On 64-bit operands the [uint64] complement masks like the unbounded one. *)
Lemma land_not_u64 x y :
  0 <= x < 2 ^ 64 -> Z.land x (not_u64 y) = Z.land x (Z.lnot y).
Proof.
  intros Hx. unfold not_u64, u64.
  rewrite <- Z.land_ones by lia.
  rewrite (Z.land_comm (Z.lnot y)), Z.land_assoc.
  rewrite (Z.land_ones x) by lia. rewrite Z.mod_small by lia. reflexivity.
Qed.

Lemma not_not_u64_pow s : 0 <= s < 64 -> not_u64 (not_u64 (2 ^ s)) = 2 ^ s.
Proof.
  intros Hs. unfold not_u64, u64.
  assert (H1 : 0 < 2 ^ s <= 2 ^ 63).
  { split; [lia|]. apply pow2_le_mono. lia. }
  assert (E : Z.lnot (2 ^ s) mod 2 ^ 64 = 2 ^ 64 - 1 - 2 ^ s).
  { symmetry. apply (Z.mod_unique _ _ (-1)); unfold Z.lnot; lia. }
  rewrite E. symmetry. apply (Z.mod_unique _ _ (-1)); unfold Z.lnot; lia.
Qed.

Lemma shiftr_low x s : 0 <= s -> 0 <= x < 2 ^ s -> Z.shiftr x s = 0.
Proof. intros. rewrite Z.shiftr_div_pow2 by lia. apply Z.div_small. lia. Qed.

Lemma shiftr_high x s :
  0 <= s -> 2 ^ s <= x < 2 ^ (s + 1) -> Z.shiftr x s = 1.
Proof.
  intros Hs Hx. rewrite Z.shiftr_div_pow2 by lia.
  rewrite pow2_succ in Hx by lia.
  symmetry. apply (Z.div_unique _ _ _ (x - 2 ^ s)); lia.
Qed.

Lemma mod_pow2_high x s :
  0 <= s -> 2 ^ s <= x < 2 ^ (s + 1) -> x mod 2 ^ s = x - 2 ^ s.
Proof.
  intros Hs Hx. rewrite pow2_succ in Hx by lia.
  symmetry. apply (Z.mod_unique _ _ 1); lia.
Qed.

End MachineIntegers.

(** * Facts about slice lengths *)

Lemma len_nil {A} : len (@nil A) = 0.
Proof. reflexivity. Qed.

Lemma len_cons {A} (x : A) l : len (x :: l) = len l + 1.
Proof. unfold len. simpl length. lia. Qed.

Lemma len_app {A} (l1 l2 : list A) : len (l1 ++ l2) = len l1 + len l2.
Proof. unfold len. rewrite length_app. lia. Qed.

Lemma len_nonneg {A} (l : list A) : 0 <= len l.
Proof. unfold len. lia. Qed.

Lemma len_zero_nil {A} (l : list A) : len l = 0 -> l = [].
Proof. destruct l; [reflexivity|]. rewrite len_cons. pose proof (len_nonneg l). lia. Qed.

(** * Facts about the Merkle tree *)

Module MerkleFacts.
Import Merkle.

Lemma slice_last {A} (p : list A) x : slice (p ++ [x]) 0 (len (p ++ [x]) - 1) = p.
Proof.
  unfold slice. rewrite len_app, len_cons, len_nil.
  change (Z.to_nat 0) with 0%nat. rewrite drop_0.
  replace (Z.to_nat (len p + (0 + 1) - 1 - 0)) with (length p) by (unfold len; lia).
  apply take_app_length.
Qed.

Lemma at_last (p : list (list byte)) x : at_ (p ++ [x]) (len (p ++ [x]) - 1) = x.
Proof.
  unfold at_. rewrite len_app, len_cons, len_nil.
  replace (Z.to_nat (len p + (0 + 1) - 1)) with (length p) by (unfold len; lia).
  rewrite list_lookup_middle by reflexivity. reflexivity.
Qed.

(** ** Height of a tree *)

Lemma GetHeight_loop_ret fuel : forall count height,
  0 <= height <= 63 -> count <= 2 ^ 63 ->
  (height = 0 \/ 2 ^ (height - 1) < count) ->
  (63 <= Z.of_nat fuel + height) ->
  exists h, GetHeight_loop fuel count height = Ret h /\
            height <= h <= 63 /\ count <= 2 ^ h /\
            (h = 0 \/ 2 ^ (h - 1) < count).
Proof.
  induction fuel as [|fuel IH]; intros count height Hh Hc Hlow Hfuel;
    cbn [GetHeight_loop]; rewrite shl1_u64_pow by lia;
    destruct (Z.ltb_spec (2 ^ height) count) as [Hlt|Hge].
  - assert (height = 63) as -> by lia. lia.
  - exists height. repeat split; try assumption; lia.
  - assert (height < 63).
    { destruct (Z.eq_dec height 63) as [->|]; lia. }
    rewrite i64_small by lia.
    destruct (IH count (height + 1)) as (h & E & Hb & Hle & Hl); try lia.
    { right. replace (height + 1 - 1) with height by lia. exact Hlt. }
    exists h. repeat split; try assumption; lia.
  - exists height. repeat split; try assumption; lia.
Qed.

(** [GetHeight] returns on every count a slice length can take. *)
Lemma GetHeight_ret fuel count :
  (64 <= fuel)%nat -> 1 <= count <= 2 ^ 63 ->
  exists h, GetHeight fuel count = Ret h /\ 1 <= h <= 64 /\
            count <= 2 ^ (h - 1) /\ (h = 1 \/ 2 ^ (h - 2) < count).
Proof.
  intros Hfuel Hc. unfold GetHeight.
  destruct (Z.eqb_spec count 0); [lia|].
  destruct (GetHeight_loop_ret fuel count 0) as (h & E & Hb & Hle & Hl); try lia.
  rewrite E. simpl. rewrite i64_small by lia.
  exists (h + 1). replace (h + 1 - 1) with h by lia.
  replace (h + 1 - 2) with (h - 1) by lia.
  repeat split; try assumption; lia.
Qed.

Lemma GetHeight_zero fuel : GetHeight fuel 0 = Ret 0.
Proof. reflexivity. Qed.

(** Above [2^63] the loop of [GetHeight] never exits: the shifted one is at
    most [2^63] for heights below 64 and 0 from there on. *)
Lemma shl1_u64_le s : shl1_u64 s <= 2 ^ 63.
Proof.
  destruct (Z_lt_le_dec s 0); [rewrite shl1_u64_out by lia; lia|].
  destruct (Z_lt_le_dec s 64); [|rewrite shl1_u64_out by lia; lia].
  rewrite shl1_u64_pow by lia. apply pow2_le_mono. lia.
Qed.

Lemma GetHeight_loop_diverges fuel : forall count height,
  2 ^ 63 < count -> GetHeight_loop fuel count height = OutOfFuel.
Proof.
  induction fuel as [|fuel IH]; intros count height Hc; simpl;
    pose proof (shl1_u64_le height);
    destruct (Z.ltb_spec (shl1_u64 height) count); try lia.
  - reflexivity.
  - apply IH. exact Hc.
Qed.

Lemma GetHeight_diverges fuel count :
  2 ^ 63 < count -> GetHeight fuel count = OutOfFuel.
Proof.
  intros Hc. unfold GetHeight.
  destruct (Z.eqb_spec count 0); [lia|].
  rewrite GetHeight_loop_diverges by exact Hc. reflexivity.
Qed.

(** ** Shape of the trees that [buildNode] produces *)

Section Shape.

Variable hashFunc : list byte -> list byte.

(** [shape k n ls]: [n] is a subtree of height [k + 1] over the leaves [ls],
    filled from the left, all leaves at the same depth, every label the hash
    of the labels below it. *)
Fixpoint shape (k : nat) (n : node) (ls : list (list byte)) : Prop :=
  match k with
  | O => exists l, ls = [l] /\ n = Node l None None
  | S k' =>
      exists n0 l0, child0 n = Some n0 /\ shape k' n0 l0 /\
        ((child1 n = None /\ ls = l0 /\ label n = hashFunc (label n0)) \/
         (exists n1 l1, child1 n = Some n1 /\ shape k' n1 l1 /\
            ls = l0 ++ l1 /\ len l0 = 2 ^ Z.of_nat k' /\
            label n = hashFunc (label n0 ++ label n1)))
  end.

Lemma shape_len k : forall n ls,
  shape k n ls -> 1 <= len ls <= 2 ^ Z.of_nat k.
Proof.
  induction k as [|k IH]; intros n ls Hs.
  - destruct Hs as (l & -> & _). rewrite len_cons, len_nil. simpl. lia.
  - destruct Hs as (n0 & l0 & _ & Hs0 & Hcase).
    pose proof (IH _ _ Hs0) as H0.
    assert (E : 2 ^ Z.of_nat (S k) = 2 * 2 ^ Z.of_nat k).
    { rewrite Nat2Z.inj_succ, <- Z.add_1_r. apply pow2_succ. lia. }
    destruct Hcase as [(_ & -> & _)|(n1 & l1 & _ & Hs1 & -> & Hl0 & _)].
    + lia.
    + pose proof (IH _ _ Hs1). rewrite len_app. lia.
Qed.

Lemma buildNode_empty fuel height :
  buildNode hashFunc (S fuel) [] height = Ret (None, []).
Proof.
  cbn [buildNode]. change (len (@nil (list byte)) =? 0) with true.
  rewrite orb_true_r. reflexivity.
Qed.

(** On non-empty data [buildNode] returns a subtree of the asked height over
    a prefix of the data, the whole of it unless the subtree is full. *)
Lemma buildNode_shape k : forall fuel data,
  data <> [] -> (k < fuel)%nat ->
  exists n ls rest,
    buildNode hashFunc fuel data (Z.of_nat k + 1) = Ret (Some n, rest) /\
    data = ls ++ rest /\ shape k n ls /\
    (rest = [] \/ len ls = 2 ^ Z.of_nat k).
Proof.
  induction k as [|k IH]; intros fuel data Hne Hfuel.
  - destruct fuel as [|fuel]; [lia|]. destruct data as [|d rest]; [congruence|].
    exists (Node d None None), [d], rest. cbn [buildNode].
    rewrite len_cons. change (Z.of_nat 0 + 1) with 1.
    destruct (Z.eqb_spec (len rest + 1) 0) as [E|_];
      [pose proof (len_nonneg rest); lia|].
    simpl. repeat split; try reflexivity.
    + exists d. split; reflexivity.
    + right. reflexivity.
  - destruct fuel as [|fuel]; [lia|]. cbn [buildNode].
    destruct (Z.eqb_spec (Z.of_nat (S k) + 1) 0) as [|_]; [lia|].
    destruct (Z.eqb_spec (len data) 0) as [E|_];
      [apply len_zero_nil in E; congruence|].
    destruct (Z.eqb_spec (Z.of_nat (S k) + 1) 1) as [|_]; [lia|].
    cbn [orb].
    replace (Z.of_nat (S k) + 1 - 1) with (Z.of_nat k + 1) by lia.
    destruct (IH fuel data Hne) as (n0 & l0 & rest0 & E0 & -> & Hs0 & Hfull0);
      [lia|].
    rewrite E0. cbn [mbind outcome_bind].
    assert (Epow : 2 ^ Z.of_nat (S k) = 2 * 2 ^ Z.of_nat k).
    { rewrite Nat2Z.inj_succ, <- Z.add_1_r. apply pow2_succ. lia. }
    destruct rest0 as [|r rest0].
    + destruct fuel as [|fuel]; [lia|]. rewrite buildNode_empty.
      cbn [mbind outcome_bind].
      exists (Node (makeHash hashFunc (Some n0) None) (Some n0) None), l0, [].
      repeat split; try reflexivity.
      * exists n0, l0. repeat split; try assumption. left.
        repeat split; reflexivity.
      * left. reflexivity.
    + destruct Hfull0 as [|Hfull0]; [discriminate|].
      destruct (IH fuel (r :: rest0)) as (n1 & l1 & rest1 & E1 & Ed & Hs1 & Hfull1);
        [discriminate|lia|].
      rewrite E1. cbn [mbind outcome_bind].
      exists (Node (makeHash hashFunc (Some n0) (Some n1)) (Some n0) (Some n1)),
        (l0 ++ l1), rest1.
      repeat split.
      * rewrite Ed. rewrite app_assoc. reflexivity.
      * exists n0, l0. repeat split; try assumption. right.
        exists n1, l1. repeat split; try assumption; reflexivity.
      * destruct Hfull1 as [->|Hfull1]; [left; reflexivity|right].
        rewrite len_app. lia.
Qed.

(** [validate] accepts every such subtree and reports its leaf count and
    height. *)
Lemma validate_shape k : forall n ls,
  (k <= 63)%nat -> shape k n ls ->
  validate_node hashFunc n = (len ls, Z.of_nat k + 1, None).
Proof.
  induction k as [|k IH]; intros n ls Hk Hs.
  - destruct Hs as (l & -> & ->). reflexivity.
  - destruct Hs as (n0 & l0 & Hc0 & Hs0 & Hcase).
    pose proof (shape_len _ _ _ Hs0) as Hl0.
    assert (Hp : 2 ^ Z.of_nat k <= 2 ^ 62) by (apply pow2_le_mono; lia).
    destruct n as [lbl c0 c1]. simpl in Hc0. subst c0.
    cbn [validate_node child0 child1 label].
    rewrite (IH n0 l0) by (lia || assumption).
    destruct Hcase as [(Hc1 & -> & Hlbl)|(n1 & l1 & Hc1 & Hs1 & -> & Hfull & Hlbl)];
      simpl in Hc1, Hlbl; subst c1 lbl.
    + cbn [makeHash]. unfold bytes_Equal.
      rewrite bool_decide_eq_true_2 by reflexivity. cbn [negb].
      rewrite i64_small by lia. f_equal. f_equal. lia.
    + pose proof (shape_len _ _ _ Hs1) as Hl1.
      rewrite (IH n1 l1) by (lia || assumption).
      rewrite Z.eqb_refl. cbn [negb makeHash]. unfold bytes_Equal.
      rewrite bool_decide_eq_true_2 by reflexivity. cbn [negb].
      rewrite i64_small by lia. rewrite u64_small by lia.
      rewrite len_app. f_equal. f_equal. lia.
Qed.

(** The counts [checkNode] may carry for a subtree of height [k + 1] with
    [c] leaves: the true count, or, below a full subtree, a larger power of
    two left by [count & mask]. *)
Definition allowed (k : nat) (c cnt : Z) : Prop :=
  cnt = c \/ (c = 2 ^ Z.of_nat k /\ exists j, Z.of_nat k < j < 64 /\ cnt = 2 ^ j).

Lemma allowed_range k c cnt :
  (k <= 63)%nat -> 1 <= c <= 2 ^ Z.of_nat k -> allowed k c cnt ->
  c <= cnt < 2 ^ 64.
Proof.
  intros Hk Hc [->|(-> & j & Hj & ->)].
  - pose proof (pow2_le_mono (Z.of_nat k) 63). lia.
  - pose proof (pow2_le_mono (Z.of_nat k) j).
    pose proof (pow2_lt_mono j 64). lia.
Qed.

(** The proof that [proveNode] extracts for leaf [i] makes [checkNode]
    recompute the label of the subtree. *)
Lemma prove_check k : forall n ls i cnt fuel height,
  height = Z.of_nat k + 1 -> (k <= 63)%nat -> shape k n ls ->
  0 <= i < len ls -> allowed k (len ls) cnt -> (k < fuel)%nat ->
  exists proof,
    proveNode_node height n i = Ret proof /\ proof <> [] /\
    checkNode hashFunc fuel height proof i cnt = Ret (label n, true).
Proof.
  induction k as [|k IH]; intros n ls i cnt fuel height Hh Hk Hs Hi Ha Hfuel;
    (destruct fuel as [|fuel]; [lia|]);
    pose proof (shape_len _ _ _ Hs) as Hlen;
    pose proof (allowed_range _ _ _ Hk Hlen Ha) as Hcnt.
  - destruct Hs as (l & -> & ->). rewrite len_cons, len_nil in *.
    change (2 ^ Z.of_nat 0) with 1 in *.
    assert (i = 0) as -> by lia. subst height. exists [l].
    change (Z.of_nat 0 + 1) with 1. cbn [proveNode_node checkNode].
    simpl. destruct (Z.leb_spec cnt 0); [lia|].
    repeat split; try reflexivity. discriminate.
  - destruct Hs as (n0 & l0 & Hc0 & Hs0 & Hcase).
    pose proof (shape_len _ _ _ Hs0) as Hl0.
    assert (Epow : 2 ^ Z.of_nat (S k) = 2 * 2 ^ Z.of_nat k).
    { rewrite Nat2Z.inj_succ, <- Z.add_1_r. apply pow2_succ. lia. }
    rewrite Epow in *.
    remember (Z.of_nat k) as s eqn:Es.
    assert (Hs_range : 0 <= s <= 62) by lia.
    assert (Hh2 : height - 2 = s) by lia.
    assert (Hh1 : height - 1 = s + 1) by lia.
    assert (Hp62 : 2 ^ s <= 2 ^ 62) by (apply pow2_le_mono; lia).
    assert (Hp0 : 0 < 2 ^ s) by lia.
    assert (Hsucc : 2 ^ (s + 1) = 2 * 2 ^ s) by (apply pow2_succ; lia).
    destruct n as [lbl c0 c1]. simpl in Hc0. subst c0.
    cbn [proveNode_node checkNode child0 child1 label].
    rewrite Hh2, Hh1.
    destruct (Z.eqb_spec height 1) as [|_]; [lia|].
    unfold shr_int, shr_u64. rewrite shl1_int_pow, shl1_u64_pow by lia.
    destruct (Z.leb_spec 0 s); [|lia]. destruct (Z.ltb_spec s 64); [|lia].
    cbn [andb]. rewrite not_not_u64_pow by lia.
    rewrite !land_not_u64 by lia.
    destruct (Z.leb_spec cnt i); [lia|].
    destruct (Z_lt_le_dec i (2 ^ s)) as [Hlt|Hge].
    + (* the leaf is in the left subtree *)
      rewrite (shiftr_low i s) by lia.
      rewrite (clearbit_low i s) by lia. rewrite (Z.mod_small i) by lia.
      change ((0 <? 0) || (2 <=? 0)) with false.
      change (0 =? 0) with true. change (Z.rem (0 + 1) 2 =? 0) with false.
      change (0 =? 1) with false. cbv iota.
      destruct Hcase as [(Hc1 & -> & Hlbl)|(n1 & l1 & Hc1 & Hs1 & -> & Hfull & Hlbl)];
        simpl in Hc1, Hlbl; subst c1 lbl.
      * assert (cnt = len l0) as ->.
        { destruct Ha as [->|(E & _)]; [reflexivity|lia]. }
        destruct (IH n0 l0 i (len l0) fuel (s + 1)) as (pf & Ep & Hne & Ec);
          try assumption; try lia.
        { left. reflexivity. }
        exists pf. rewrite Ep. cbn [mbind outcome_bind].
        repeat split; [assumption|].
        destruct (Z.eqb_spec (len pf) 0) as [E0|_];
          [apply len_zero_nil in E0; congruence|].
        destruct (Z.ltb_spec (2 ^ s) (len l0)); [lia|].
        rewrite Z.eqb_refl. rewrite Ec. reflexivity.
      * pose proof (shape_len _ _ _ Hs1) as Hl1. rewrite len_app in *.
        destruct (IH n0 l0 i (2 ^ s) fuel (s + 1)) as (pf & Ep & Hne & Ec);
          try assumption; try lia.
        { left. symmetry. assumption. }
        exists (pf ++ [label n1]). rewrite Ep. cbn [mbind outcome_bind].
        repeat split; [intros E; apply app_eq_nil in E; destruct E; discriminate|].
        destruct (Z.eqb_spec (len (pf ++ [label n1])) 0) as [E0|_].
        { rewrite len_app, len_cons in E0. pose proof (len_nonneg pf).
          rewrite len_nil in E0. lia. }
        destruct (Z.ltb_spec (2 ^ s) cnt); [|lia].
        destruct (Z.eqb_spec cnt (2 ^ s)); [lia|].
        rewrite slice_last, at_last, Ec. reflexivity.
    + (* the leaf is in the right subtree *)
      destruct Hcase as [(Hc1 & -> & Hlbl)|(n1 & l1 & Hc1 & Hs1 & -> & Hfull & Hlbl)];
        [lia|].
      simpl in Hc1, Hlbl; subst c1 lbl.
      pose proof (shape_len _ _ _ Hs1) as Hl1. rewrite len_app in *.
      rewrite (shiftr_high i s) by lia.
      rewrite (clearbit_low i s) by lia. rewrite (mod_pow2_high i s) by lia.
      change ((1 <? 0) || (2 <=? 1)) with false.
      change (1 =? 0) with false. change (Z.rem (1 + 1) 2 =? 0) with true.
      change (1 =? 1) with true. cbv iota.
      assert (Hnext : allowed k (len l1) (Z.land cnt (Z.lnot (2 ^ s)))).
      { unfold allowed. rewrite <- Es.
        destruct Ha as [->|(E & j & Hj & ->)].
        - destruct (Z_lt_le_dec (len l0 + len l1) (2 ^ (s + 1))).
          + left. rewrite clearbit_low by lia. rewrite mod_pow2_high by lia. lia.
          + right. split; [lia|]. exists (s + 1). split; [lia|].
            replace (len l0 + len l1) with (2 ^ (s + 1)) by lia.
            apply clearbit_other; lia.
        - right. split; [lia|]. exists j. split; [lia|].
          apply clearbit_other; lia. }
      destruct (IH n1 l1 (i - 2 ^ s) (Z.land cnt (Z.lnot (2 ^ s))) fuel (s + 1))
        as (pf & Ep & Hne & Ec); try assumption; try lia.
      exists (pf ++ [label n0]). rewrite Ep. cbn [mbind outcome_bind].
      repeat split; [intros E; apply app_eq_nil in E; destruct E; discriminate|].
      destruct (Z.eqb_spec (len (pf ++ [label n0])) 0) as [E0|_].
      { rewrite len_app, len_cons in E0. pose proof (len_nonneg pf).
        rewrite len_nil in E0. lia. }
      rewrite slice_last, at_last, Ec. reflexivity.
Qed.

(** ** [Build], [Validate], [InclusionProof] and [CheckProof] together *)

Lemma Build_empty fuel :
  (1 <= fuel)%nat ->
  Build hashFunc fuel [] = Ret (mkBTree 0 None (rootHash hashFunc 0 [])).
Proof.
  intros Hfuel. destruct fuel as [|fuel]; [lia|]. reflexivity.
Qed.

Lemma Build_shape fuel data :
  (64 <= fuel)%nat -> data <> [] -> len data < 2 ^ 63 ->
  exists k n,
    (k <= 63)%nat /\ shape k n data /\
    GetHeight fuel (len data) = Ret (Z.of_nat k + 1) /\
    Build hashFunc fuel data =
      Ret (mkBTree (len data) (Some n) (rootHash hashFunc (len data) (label n))).
Proof.
  intros Hfuel Hne Hlen.
  assert (Hpos : 1 <= len data).
  { destruct data; [congruence|]. rewrite len_cons. pose proof (len_nonneg data). lia. }
  destruct (GetHeight_ret fuel (len data)) as (h & Eh & Hh & Hcap & _); [lia|lia|].
  exists (Z.to_nat (h - 1)).
  assert (Ek : Z.of_nat (Z.to_nat (h - 1)) = h - 1) by lia.
  destruct (buildNode_shape (Z.to_nat (h - 1)) fuel data Hne)
    as (n & ls & rest & Eb & Ed & Hs & Hfull); [lia|].
  rewrite Ek in Eb, Hfull. replace (h - 1 + 1) with h in Eb by lia.
  assert (rest = []) as ->.
  { destruct Hfull as [|Hfull]; [assumption|]. apply len_zero_nil.
    rewrite Ed, len_app in Hcap. pose proof (len_nonneg rest). lia. }
  rewrite app_nil_r in Ed. subst ls.
  exists n. split; [lia|]. split; [assumption|].
  rewrite Ek. replace (h - 1 + 1) with h by lia. split; [assumption|].
  unfold Build. rewrite u64_small by lia. rewrite Eh. cbn [mbind outcome_bind].
  rewrite Eb. cbn [mbind outcome_bind]. change (len (@nil (list byte)) =? 0) with true.
  cbn [negb]. destruct (Z.ltb_spec 0 h); [|lia]. reflexivity.
Qed.

(** [Validate] accepts every tree that [Build] returns. *)
Lemma Validate_Build fuel data t :
  (64 <= fuel)%nat -> len data < 2 ^ 63 ->
  Build hashFunc fuel data = Ret t ->
  Validate hashFunc fuel t = Ret None /\ count t = len data.
Proof.
  intros Hfuel Hlen Hb. destruct data as [|d data].
  - rewrite Build_empty in Hb by lia. injection Hb as <-.
    unfold Validate. cbn [root validate count]. rewrite Z.eqb_refl. cbn [negb].
    rewrite GetHeight_zero. cbn [mbind outcome_bind]. cbn [negb Z.eqb Z.ltb Z.compare].
    cbn [mbind outcome_bind rootHash_]. unfold bytes_Equal.
    rewrite bool_decide_eq_true_2 by reflexivity. split; reflexivity.
  - destruct (Build_shape fuel (d :: data)) as (k & n & Hk & Hs & Eh & Eb);
      [lia|discriminate|assumption|].
    rewrite Eb in Hb. injection Hb as <-.
    unfold Validate. cbn [root validate count rootHash_].
    rewrite (validate_shape _ _ _ Hk Hs). rewrite Z.eqb_refl. cbn [negb].
    rewrite Eh. cbn [mbind outcome_bind]. rewrite Z.eqb_refl. cbn [negb].
    destruct (Z.ltb_spec 0 (Z.of_nat k + 1)); [|lia]. cbn [mbind outcome_bind].
    unfold bytes_Equal. rewrite bool_decide_eq_true_2 by reflexivity.
    split; reflexivity.
Qed.

End Shape.

(** C2: for every list of leaves [L] (a Go slice, so shorter than [2^63])
    and every index [0 <= i < len L], [Build L] returns a tree [t] that
    [Validate] accepts, [InclusionProof t i] returns a proof, and
    [CheckProof] on the root [{Count: len L, Base: t.Root()}] accepts that
    proof at index [i]; 64 unrollings of the height loops are enough. *)
Theorem C2_build_validate_checkproof
    (hashFunc : list byte -> list byte) (fuel : nat)
    (L : list (list byte)) (i : Z) :
  (64 <= fuel)%nat -> len L < 2 ^ 63 -> 0 <= i < len L ->
  exists t proof,
    Build hashFunc fuel L = Ret t /\
    Validate hashFunc fuel t = Ret None /\
    InclusionProof fuel t i = Ret proof /\
    CheckProof hashFunc fuel (mkRoot (u64 (len L)) (BTree_Root t)) proof i
      = Ret true.
Proof.
  intros Hfuel Hlen Hi.
  assert (Hne : L <> []) by (intros ->; unfold len in Hi; simpl in Hi; lia).
  destruct (Build_shape hashFunc fuel L Hfuel Hne Hlen)
    as (k & n & Hk & Hs & Eh & Eb).
  destruct (Validate_Build hashFunc fuel L _ Hfuel Hlen Eb) as [Hv _].
  destruct (prove_check hashFunc k n L i (len L) fuel (Z.of_nat k + 1))
    as (pf & Ep & Hpf & Ec); try assumption; try lia.
  { left. reflexivity. }
  eexists. exists pf. split; [exact Eb|]. split; [exact Hv|].
  assert (Hu : u64 i = i) by (apply u64_small; lia).
  split.
  - unfold InclusionProof. cbn [count root]. rewrite Hu.
    destruct (Z.leb_spec (len L) i); [lia|].
    destruct (Z.ltb_spec i 0); [lia|].
    rewrite Eh. cbn [mbind outcome_bind proveNode]. exact Ep.
  - unfold CheckProof. cbn [Count Base BTree_Root rootHash_].
    rewrite (u64_small (len L)) by (pose proof (len_nonneg L); lia).
    rewrite Eh. cbn [mbind outcome_bind]. rewrite Hu, Ec.
    cbn [mbind outcome_bind]. unfold bytes_Equal.
    rewrite bool_decide_eq_true_2 by reflexivity. reflexivity.
Qed.

(** A run of C2 on three one-byte leaves. *)
Lemma C2_witness :
  exists t proof,
    Build sample_hashFunc 64 [[x61]; [x62]; [x63]] = Ret t /\
    Validate sample_hashFunc 64 t = Ret None /\
    InclusionProof 64 t 1 = Ret proof /\
    CheckProof sample_hashFunc 64
      (mkRoot (u64 (len [[x61]; [x62]; [x63]])) (BTree_Root t)) proof 1
      = Ret true.
Proof.
  apply (C2_build_validate_checkproof sample_hashFunc 64
           [[x61]; [x62]; [x63]] 1).
  - lia.
  - reflexivity.
  - split; [discriminate|reflexivity].
Defined.

(** ** The guards of [CheckProof] *)

(** For counts up to [2^63] an empty proof and an index that is not below
    the count are rejected. *)
Lemma CheckProof_rejects (hashFunc : list byte -> list byte) (fuel : nat)
    (r : Root) (proof : list (list byte)) (index : Z) :
  (64 <= fuel)%nat -> 0 <= Count r <= 2 ^ 63 ->
  proof = [] \/ Count r <= u64 index ->
  CheckProof hashFunc fuel r proof index = Ret false.
Proof.
  intros Hfuel Hc Hcase. unfold CheckProof.
  assert (Hh : exists h, GetHeight fuel (Count r) = Ret h).
  { destruct (Z.eq_dec (Count r) 0) as [->|Hne].
    - exists 0. apply GetHeight_zero.
    - destruct (GetHeight_ret fuel (Count r)) as (h & Eh & _); [lia|lia|].
      exists h. exact Eh. }
  destruct Hh as [h Eh]. rewrite Eh. cbn [mbind outcome_bind].
  destruct fuel as [|fuel]; [lia|]. cbn [checkNode].
  destruct Hcase as [->|Hle].
  - reflexivity.
  - destruct (len proof =? 0); [reflexivity|].
    destruct (Z.leb_spec (Count r) (u64 index)); [reflexivity|lia].
Qed.

(** In particular a root with count 0 rejects every proof of every index. *)
Lemma CheckProof_empty_root (hashFunc : list byte -> list byte)
    (base : list byte) (proof : list (list byte)) (index : Z) :
  CheckProof hashFunc 64 (mkRoot 0 base) proof index = Ret false.
Proof.
  apply CheckProof_rejects; cbn [Count]; [lia|lia|].
  right. unfold u64. apply Z.mod_pos_bound. lia.
Qed.

(** C9 fails above [2^63]: on a root whose count is [2^63 + 1]
    [CheckProof] never reaches its guards, whatever the unrolling, because
    the loop of [GetHeight] does not end; the empty proof is not rejected. *)
Theorem C9_CheckProof_hangs_on_large_count
    (hashFunc : list byte -> list byte) (fuel : nat) (base : list byte)
    (index : Z) :
  CheckProof hashFunc fuel (mkRoot (2 ^ 63 + 1) base) [] index = OutOfFuel.
Proof.
  unfold CheckProof. cbn [Count].
  rewrite GetHeight_diverges by lia. reflexivity.
Qed.

(** ** [splitData] and [BuildBMT] *)

Lemma Build_returns (hashFunc : list byte -> list byte) (fuel : nat)
    (data : list (list byte)) :
  (64 <= fuel)%nat -> len data < 2 ^ 63 ->
  exists t, Build hashFunc fuel data = Ret t.
Proof.
  intros Hfuel Hlen. destruct data as [|d data].
  - eexists. apply Build_empty. lia.
  - destruct (Build_shape hashFunc fuel (d :: data))
      as (k & n & _ & _ & _ & Eb); [lia|discriminate|assumption|].
    eexists. exact Eb.
Qed.

Lemma full_blocks_concat data size (c : nat) :
  0 < size -> Z.of_nat c * size <= len data ->
  concat (full_blocks data size c) = take (Z.to_nat (Z.of_nat c * size)) data.
Proof.
  intros Hsize. unfold full_blocks. induction c as [|c IH]; intros Hc.
  - reflexivity.
  - rewrite seq_S, map_app, concat_app, IH by lia.
    cbn [map concat plus]. rewrite app_nil_r. unfold slice.
    rewrite take_take_drop. f_equal. lia.
Qed.

Lemma full_blocks_length data size (c : nat) :
  0 < size -> Z.of_nat c * size <= len data ->
  forall (i : nat) b, full_blocks data size c !! i = Some b -> len b = size.
Proof.
  intros Hsize Hc i b Hb. unfold full_blocks in Hb.
  apply list_lookup_fmap_Some in Hb. destruct Hb as (j & -> & Hj).
  apply lookup_seq in Hj. destruct Hj as [-> Hi]. cbn [plus].
  unfold slice, len. rewrite length_take, length_drop.
  unfold len in Hc. nia.
Qed.

(** C10: for every byte string [data] (a Go slice, so shorter than [2^63])
    and every positive [segmentsize], [BuildBMT] returns with error code 0;
    the leaves are [floor(len(data) / segmentsize)] blocks of [segmentsize]
    bytes followed, exactly when [len(data)] is not a multiple of
    [segmentsize], by one shorter block holding the remaining bytes as they
    are; the blocks concatenated give back the data, and the leaf count
    returned is the number of blocks and the count of the tree and of the
    root. *)
Theorem C10_BuildBMT_leaves
    (hashFunc : list byte -> list byte) (fuel : nat)
    (data : list byte) (segmentsize : Z) :
  (64 <= fuel)%nat -> 0 < segmentsize -> len data < 2 ^ 63 ->
  let full := Z.to_nat (len data / segmentsize) in
  let blocks :=
    full_blocks data segmentsize full
    ++ (if len data mod segmentsize =? 0 then []
        else [drop (Z.to_nat (len data / segmentsize * segmentsize)) data]) in
  exists tree,
    splitData data segmentsize = Ret blocks /\
    Build hashFunc fuel blocks = Ret tree /\
    BuildBMT hashFunc fuel data segmentsize =
      Ret (Some tree, Some (mkRoot (len blocks) (BTree_Root tree)),
           len blocks, 0) /\
    count tree = len blocks /\
    concat blocks = data /\
    len blocks = len data / segmentsize
                 + (if len data mod segmentsize =? 0 then 0 else 1) /\
    (forall (i : nat) b,
       full_blocks data segmentsize full !! i = Some b -> len b = segmentsize) /\
    (len data mod segmentsize <> 0 ->
     0 < len (drop (Z.to_nat (len data / segmentsize * segmentsize)) data)
       < segmentsize).
Proof.
  intros Hfuel Hsize Hlen full blocks.
  pose proof (len_nonneg data) as Hd0.
  assert (Hq : 0 <= len data / segmentsize) by (apply Z.div_pos; lia).
  pose proof (Z.div_mod (len data) segmentsize ltac:(lia)) as Hdm.
  pose proof (Z.mod_pos_bound (len data) segmentsize Hsize) as Hmod.
  assert (Hfull : Z.of_nat full = len data / segmentsize) by (subst full; lia).
  assert (Hcs : Z.of_nat full * segmentsize <= len data) by nia.
  assert (Esplit : splitData data segmentsize = Ret blocks).
  { unfold splitData. destruct (Z.eqb_spec segmentsize 0); [lia|].
    rewrite Z.quot_div_nonneg, Z.rem_mod_nonneg by lia.
    destruct (Z.ltb_spec (len data / segmentsize) 0); [lia|].
    subst blocks full.
    destruct (Z.eqb_spec (len data mod segmentsize) 0) as [E|E]; cbn [negb].
    - rewrite app_nil_r. reflexivity.
    - f_equal. f_equal. f_equal. f_equal. f_equal.
      unfold full_blocks, len at 1. rewrite length_map, length_seq.
      rewrite Z2Nat.id by lia. reflexivity. }
  assert (Elen : len blocks = len data / segmentsize
                 + (if len data mod segmentsize =? 0 then 0 else 1)).
  { subst blocks. rewrite len_app. unfold full_blocks at 1, len at 1.
    rewrite length_map, length_seq, Hfull.
    destruct (len data mod segmentsize =? 0); reflexivity. }
  assert (Hbl : len blocks < 2 ^ 63).
  { rewrite Elen. destruct (Z.eqb_spec (len data mod segmentsize) 0); nia. }
  destruct (Build_returns hashFunc fuel blocks Hfuel Hbl) as [tree Eb].
  destruct (Validate_Build hashFunc fuel blocks tree Hfuel Hbl Eb) as [Ev Ecount].
  exists tree. split; [exact Esplit|]. split; [exact Eb|].
  split.
  { unfold BuildBMT. rewrite Esplit. cbn [mbind outcome_bind].
    rewrite Eb. cbn [mbind outcome_bind]. rewrite Ev. cbn [mbind outcome_bind].
    unfold BTree_Count. rewrite Ecount.
    rewrite u64_small by (pose proof (len_nonneg blocks); lia).
    rewrite Z.eqb_refl. reflexivity. }
  split; [exact Ecount|].
  split.
  { subst blocks. rewrite concat_app, full_blocks_concat by lia.
    rewrite Hfull.
    destruct (Z.eqb_spec (len data mod segmentsize) 0) as [E|E].
    - cbn [concat]. rewrite app_nil_r. apply take_ge. unfold len in *. nia.
    - cbn [concat]. rewrite app_nil_r. apply take_drop. }
  split; [exact Elen|].
  split; [apply full_blocks_length; lia|].
  intros Hne.
  assert (H : 0 <= len data / segmentsize * segmentsize) by nia.
  remember (len data / segmentsize * segmentsize) as x eqn:Ex.
  assert (Hx : len data = x + len data mod segmentsize) by lia.
  remember (len data mod segmentsize) as r eqn:Er.
  clear - Hx Hmod Hne H. unfold len in *. rewrite length_drop. lia.
Qed.

(** A run of C10: five bytes in segments of two. *)
Lemma C10_witness :
  exists tree,
    BuildBMT sample_hashFunc 64 [x61; x62; x63; x64; x65] 2 =
      Ret (Some tree, Some (mkRoot 3 (BTree_Root tree)), 3, 0) /\
    splitData [x61; x62; x63; x64; x65] 2 = Ret [[x61; x62]; [x63; x64]; [x65]].
Proof.
  destruct (C10_BuildBMT_leaves sample_hashFunc 64 [x61; x62; x63; x64; x65] 2)
    as (tree & Es & _ & Eb & _); [lia|lia|reflexivity|].
  exists tree. split; [exact Eb|exact Es].
Defined.

End MerkleFacts.

(** * More of the Merkle tree: heights, leaves, invariants, proofs and the
    hash wrapper *)

Module MerkleProps.
Import Merkle MerkleFacts.

(** X1: for every count from 0 to [2^63] [GetHeight] returns, within 64
    turns of its loop: 0 for count 0 and otherwise [ceil(log2 count) + 1],
    the number of levels of a binary tree that has room for [count] leaves. *)
Theorem X1_GetHeight_is_log2_up_plus_one (fuel : nat) (count : Z) :
  (64 <= fuel)%nat -> 0 <= count <= 2 ^ 63 ->
  GetHeight fuel count = Ret (if count =? 0 then 0 else Z.log2_up count + 1).
Proof.
  intros Hfuel Hc. destruct (Z.eqb_spec count 0) as [->|Hne].
  - apply GetHeight_zero.
  - destruct (GetHeight_ret fuel count) as (h & E & Hh & Hcap & Hlow); [lia|lia|].
    rewrite E. f_equal.
    destruct Hlow as [->|Hlow].
    + change (2 ^ (1 - 1)) with 1 in Hcap. assert (count = 1) as -> by lia.
      reflexivity.
    + destruct (Z.eq_dec h 1) as [->|Hh1].
      * change (2 ^ (1 - 1)) with 1 in Hcap. assert (count = 1) as -> by lia.
        reflexivity.
      * rewrite (Z.log2_up_unique count (h - 1)); [lia|lia|].
        replace (Z.pred (h - 1)) with (h - 2) by lia. lia.
Qed.

(** X1 on five leaves: height 4. *)
Lemma X1_witness : GetHeight 64 5 = Ret 4.
Proof. apply (X1_GetHeight_is_log2_up_plus_one 64 5); lia. Defined.

(** X2: for every count above [2^63] the loop of [GetHeight] never ends,
    whatever the number of turns allowed, and so [CheckProof] on a root with
    such a count does not return either, for any proof and any index. *)
Theorem X2_count_above_2_63_never_returns
    (hashFunc : list byte -> list byte) (fuel : nat) (count : Z) :
  2 ^ 63 < count ->
  GetHeight fuel count = OutOfFuel /\
  forall base proof index,
    CheckProof hashFunc fuel (mkRoot count base) proof index = OutOfFuel.
Proof.
  intros Hc. split; [apply GetHeight_diverges; exact Hc|].
  intros base proof index. unfold CheckProof. cbn [Count].
  rewrite GetHeight_diverges by exact Hc. reflexivity.
Qed.

(** X2 on the largest [uint64] count. *)
Lemma X2_witness :
  GetHeight 1000 (2 ^ 64 - 1) = OutOfFuel /\
  forall base proof index,
    CheckProof sample_hashFunc 1000 (mkRoot (2 ^ 64 - 1) base) proof index
    = OutOfFuel.
Proof.
  apply (X2_count_above_2_63_never_returns sample_hashFunc 1000 (2 ^ 64 - 1)).
  reflexivity.
Defined.

Section Leaves.

Variable hashFunc : list byte -> list byte.

Lemma shape_leaves k : forall n ls,
  shape hashFunc k n ls -> leaves_of n = ls.
Proof.
  induction k as [|k IH]; intros n ls Hs.
  - destruct Hs as (l & -> & ->). reflexivity.
  - destruct Hs as (n0 & l0 & Hc0 & Hs0 & Hcase).
    destruct n as [lbl c0 c1]. simpl in Hc0. subst c0.
    cbn [leaves_of child0 child1 label]. rewrite (IH _ _ Hs0).
    destruct Hcase as [(Hc1 & -> & _)|(n1 & l1 & Hc1 & Hs1 & -> & _)];
      simpl in Hc1; subst c1.
    + apply app_nil_r.
    + rewrite (IH _ _ Hs1). reflexivity.
Qed.

End Leaves.

(** X3: for every list of blocks (a Go slice, so shorter than [2^63])
    [Build] returns a tree whose leaves, read left to right, are the blocks
    as given; its count is their number, its root is nil exactly when there
    is no block, and its root hash is [rootHash] of the count and the root
    label (of the empty label when there is no block). *)
Theorem X3_Build_keeps_the_leaves
    (hashFunc : list byte -> list byte) (fuel : nat) (data : list (list byte)) :
  (64 <= fuel)%nat -> len data < 2 ^ 63 ->
  exists t,
    Build hashFunc fuel data = Ret t /\
    tree_leaves t = data /\
    count t = len data /\
    (root t = None <-> data = []) /\
    rootHash_ t =
      rootHash hashFunc (len data)
        (match root t with Some n => label n | None => [] end).
Proof.
  intros Hfuel Hlen. destruct data as [|d data].
  - eexists. split; [apply Build_empty; lia|].
    cbn [tree_leaves root count rootHash_]. repeat split; reflexivity.
  - destruct (Build_shape hashFunc fuel (d :: data))
      as (k & n & _ & Hs & _ & Eb); [lia|discriminate|assumption|].
    eexists. split; [exact Eb|].
    cbn [tree_leaves root count rootHash_].
    split; [apply (shape_leaves hashFunc k); exact Hs|].
    repeat split; try reflexivity; discriminate.
Qed.

(** X3 on three one-byte blocks. *)
Lemma X3_witness :
  exists t,
    Build sample_hashFunc 64 [[x61]; [x62]; [x63]] = Ret t /\
    tree_leaves t = [[x61]; [x62]; [x63]] /\
    count t = 3.
Proof.
  destruct (X3_Build_keeps_the_leaves sample_hashFunc 64 [[x61]; [x62]; [x63]])
    as (t & Eb & El & Ec & _); [lia|reflexivity|].
  exists t. repeat split; assumption.
Defined.

(** ** What [Validate] checks *)

(** Induction on a tree. *)
Fixpoint node_induction (Q : node -> Prop)
    (step : forall l c0 c1,
       match c0 with Some m => Q m | None => True end ->
       match c1 with Some m => Q m | None => True end ->
       Q (Node l c0 c1))
    (n : node) : Q n :=
  match n with
  | Node l c0 c1 =>
      step l c0 c1
        (match c0 return match c0 with Some m => Q m | None => True end with
         | Some m => node_induction Q step m
         | None => I
         end)
        (match c1 return match c1 with Some m => Q m | None => True end with
         | Some m => node_induction Q step m
         | None => I
         end)
  end.

Lemma u64_add_u64 a b : u64 (u64 a + u64 b) = u64 (a + b).
Proof. unfold u64. symmetry. apply Zplus_mod. Qed.

Lemma validate_node_sound (hashFunc : list byte -> list byte) (n : node) :
  forall c h,
    validate_node hashFunc n = (c, h, None) ->
    rep_ok hashFunc n /\ c = u64 (len (leaves_of n)).
Proof.
  induction n as [l c0 c1 IH0 IH1] using node_induction. intros c h.
  cbn [validate_node rep_ok leaves_of child0 child1 label].
  destruct c0 as [n0|].
  - destruct (validate_node hashFunc n0) as [[cnt0 h0] [e0|]] eqn:E0;
      [intros [=]|].
    destruct (IH0 _ _ eq_refl) as [Hok0 ->].
    destruct c1 as [n1|].
    + destruct (validate_node hashFunc n1) as [[cnt1 h1] [e1|]] eqn:E1;
        [intros [=]|].
      destruct (IH1 _ _ eq_refl) as [Hok1 ->].
      destruct (negb (h1 =? h0)); [intros [=]|].
      unfold bytes_Equal. case_bool_decide as Hl; cbn [negb]; [|intros [=]].
      intros [= <- <-]. split; [repeat split; auto|].
      rewrite u64_add_u64, len_app. reflexivity.
    + unfold bytes_Equal. case_bool_decide as Hl; cbn [negb]; [|intros [=]].
      intros [= <- <-]. split; [repeat split; auto|].
      rewrite app_nil_r. reflexivity.
  - destruct c1; [intros [=]|]. intros [= <- <-]. split; reflexivity.
Qed.

Lemma GetHeight_loop_bound fuel : forall count height h,
  0 < count -> GetHeight_loop fuel count height = Ret h ->
  0 <= h < 64 /\ count <= 2 ^ h.
Proof.
  induction fuel as [|fuel IH]; intros count height h Hc; cbn [GetHeight_loop];
    destruct (Z.ltb_spec (shl1_u64 height) count) as [Hlt|Hge]; try discriminate.
  - intros [= <-]. unfold shl1_u64 in Hge.
    destruct (Z.leb_spec 0 height), (Z.ltb_spec height 64);
      cbn [andb] in Hge; lia.
  - apply IH. exact Hc.
  - intros [= <-]. unfold shl1_u64 in Hge.
    destruct (Z.leb_spec 0 height), (Z.ltb_spec height 64);
      cbn [andb] in Hge; lia.
Qed.

(** When [GetHeight] returns on a non-zero count, the count is at most
    [2^63] and the height is between 1 and 64. *)
Lemma GetHeight_bound fuel count h :
  0 < count -> GetHeight fuel count = Ret h ->
  1 <= h <= 64 /\ count <= 2 ^ 63.
Proof.
  intros Hc. unfold GetHeight. destruct (Z.eqb_spec count 0); [lia|].
  destruct (GetHeight_loop fuel count 0) as [h'| |] eqn:E; try discriminate.
  cbn [mbind outcome_bind]. intros [= <-].
  destruct (GetHeight_loop_bound _ _ _ _ Hc E) as [Hh Hle].
  rewrite i64_small by lia. split; [lia|].
  pose proof (pow2_le_mono h' 63). lia.
Qed.

(** X4: whenever [Validate] returns nil, every node of the tree keeps the
    representation invariants declared with [node] (no node has a second
    child without a first, every inner label is the hash of its children's
    labels), the count field is the number of leaves (as a [uint64]) and is
    at most [2^63], and the root hash is [rootHash] of the count and the
    root label (of the empty label for count 0). *)
Theorem X4_Validate_checks_the_invariants
    (hashFunc : list byte -> list byte) (fuel : nat) (t : BTree) :
  Validate hashFunc fuel t = Ret None ->
  match root t with Some n => rep_ok hashFunc n | None => True end /\
  count t = u64 (len (tree_leaves t)) /\
  count t <= 2 ^ 63 /\
  rootHash_ t =
    rootHash hashFunc (count t)
      (if count t =? 0 then []
       else match root t with Some n => label n | None => [] end).
Proof.
  unfold Validate, tree_leaves. destruct t as [cnt r rh]. cbn [root count rootHash_].
  destruct (validate hashFunc r) as [[c h] [e|]] eqn:Ev; [intros [=]|].
  destruct (Z.eqb_spec c cnt) as [->|]; cbn [negb]; [|intros [=]].
  destruct (GetHeight fuel cnt) as [gh| |] eqn:Eg; try discriminate.
  cbn [mbind outcome_bind].
  destruct (Z.eqb_spec h gh) as [->|]; cbn [negb]; [|intros [=]].
  assert (Hr : match r with Some n => rep_ok hashFunc n | None => True end /\
               cnt = u64 (len (match r with Some n => leaves_of n | None => [] end))).
  { destruct r as [n|]; cbn [validate] in Ev.
    - apply validate_node_sound in Ev. exact Ev.
    - injection Ev as <- <-. split; [exact I|reflexivity]. }
  destruct Hr as [Hok Hcnt].
  assert (Hc0 : 0 <= cnt).
  { rewrite Hcnt. unfold u64. apply Z.mod_pos_bound. lia. }
  destruct (Z.eqb_spec cnt 0) as [->|Hne].
  - rewrite GetHeight_zero in Eg. injection Eg as <-.
    cbn [Z.ltb Z.compare mbind outcome_bind]. unfold bytes_Equal.
    case_bool_decide as Hh; cbn [negb]; [|intros [=]]. intros _.
    repeat split; try assumption. lia.
  - destruct (GetHeight_bound fuel cnt gh) as [Hgh Hle]; [lia|assumption|].
    destruct (Z.ltb_spec 0 gh); [|lia].
    destruct r as [n|].
    + cbn [mbind outcome_bind]. unfold bytes_Equal.
      case_bool_decide as Hh; cbn [negb]; [|intros [=]]. intros _.
      repeat split; assumption.
    + cbn [validate] in Ev. congruence.
Qed.

(** X4 on a tree of two leaves. *)
Lemma X4_witness :
  rep_ok sample_hashFunc
    (Node (sample_hashFunc [x61; x62])
       (Some (Node [x61] None None)) (Some (Node [x62] None None))) /\
  2 = u64 (len [[x61]; [x62]]).
Proof.
  destruct (X4_Validate_checks_the_invariants sample_hashFunc 64
              (mkBTree 2
                 (Some (Node (sample_hashFunc [x61; x62])
                          (Some (Node [x61] None None))
                          (Some (Node [x62] None None))))
                 (sample_hashFunc (sample_hashFunc [x61; x62] ++ le64 2))))
    as (Hok & Hc & _).
  - vm_compute. reflexivity.
  - split; [exact Hok|exact Hc].
Defined.

(** ** What an inclusion proof holds *)

Section Proofs.

Variable hashFunc : list byte -> list byte.

(** The first entry of the proof taken from a built subtree is the leaf
    itself, and the proof has at most one entry per level. *)
Lemma prove_head k : forall n ls i height,
  height = Z.of_nat k + 1 -> (k <= 63)%nat -> shape hashFunc k n ls ->
  0 <= i < len ls ->
  exists proof,
    proveNode_node height n i = Ret proof /\
    proof !! 0%nat = ls !! Z.to_nat i /\ 1 <= len proof <= height.
Proof.
  induction k as [|k IH]; intros n ls i height Hh Hk Hs Hi;
    pose proof (shape_len _ _ _ _ Hs) as Hlen.
  - destruct Hs as (l & -> & ->).
    assert (i = 0) as -> by (unfold len in Hi; simpl in Hi; lia).
    subst height. exists [l].
    change (Z.of_nat 0 + 1) with 1. cbn [proveNode_node].
    repeat split; try reflexivity; unfold len; simpl; lia.
  - destruct Hs as (n0 & l0 & Hc0 & Hs0 & Hcase).
    pose proof (shape_len _ _ _ _ Hs0) as Hl0.
    assert (Epow : 2 ^ Z.of_nat (S k) = 2 * 2 ^ Z.of_nat k).
    { rewrite Nat2Z.inj_succ, <- Z.add_1_r. apply pow2_succ. lia. }
    rewrite Epow in *.
    remember (Z.of_nat k) as s eqn:Es.
    assert (Hs_range : 0 <= s <= 62) by lia.
    assert (Hh2 : height - 2 = s) by lia.
    assert (Hh1 : height - 1 = s + 1) by lia.
    assert (Hp0 : 0 < 2 ^ s) by lia.
    assert (Hsucc : 2 ^ (s + 1) = 2 * 2 ^ s) by (apply pow2_succ; lia).
    destruct n as [lbl c0 c1]. simpl in Hc0. subst c0.
    cbn [proveNode_node child0 child1 label].
    rewrite Hh2, Hh1.
    destruct (Z.eqb_spec height 1) as [|_]; [lia|].
    unfold shr_int. rewrite shl1_int_pow by lia.
    destruct (Z.leb_spec 0 s); [|lia]. destruct (Z.ltb_spec s 64); [|lia].
    cbn [andb].
    destruct (Z_lt_le_dec i (2 ^ s)) as [Hlt|Hge].
    + rewrite (shiftr_low i s) by lia.
      rewrite (clearbit_low i s) by lia. rewrite (Z.mod_small i) by lia.
      change ((0 <? 0) || (2 <=? 0)) with false.
      change (0 =? 0) with true. change (Z.rem (0 + 1) 2 =? 0) with false.
      cbv iota.
      destruct Hcase as [(Hc1 & -> & _)|(n1 & l1 & Hc1 & Hs1 & -> & Hfull & _)];
        simpl in Hc1; subst c1.
      * destruct (IH n0 l0 i (s + 1)) as (pf & Ep & Hhd & Hpl);
          try assumption; try lia.
        exists pf. rewrite Ep. cbn [mbind outcome_bind].
        repeat split; try assumption; lia.
      * rewrite len_app in *. pose proof (len_nonneg l1).
        destruct (IH n0 l0 i (s + 1)) as (pf & Ep & Hhd & Hpl);
          try assumption; try lia.
        exists (pf ++ [label n1]). rewrite Ep. cbn [mbind outcome_bind].
        split; [reflexivity|]. split.
        -- rewrite !lookup_app_l by (unfold len in *; lia). exact Hhd.
        -- rewrite len_app, len_cons, len_nil. lia.
    + destruct Hcase as [(Hc1 & -> & _)|(n1 & l1 & Hc1 & Hs1 & -> & Hfull & _)];
        [lia|].
      simpl in Hc1; subst c1. rewrite len_app in *.
      rewrite (shiftr_high i s) by lia.
      rewrite (clearbit_low i s) by lia. rewrite (mod_pow2_high i s) by lia.
      change ((1 <? 0) || (2 <=? 1)) with false.
      change (1 =? 0) with false. change (Z.rem (1 + 1) 2 =? 0) with true.
      cbv iota.
      destruct (IH n1 l1 (i - 2 ^ s) (s + 1)) as (pf & Ep & Hhd & Hpl);
        try assumption; try lia.
      exists (pf ++ [label n0]). rewrite Ep. cbn [mbind outcome_bind].
      split; [reflexivity|]. split.
      * rewrite lookup_app_l by (unfold len in *; lia).
        rewrite lookup_app_r by (unfold len in *; lia).
        rewrite Hhd. f_equal. unfold len in *. lia.
      * rewrite len_app, len_cons, len_nil. lia.
Qed.

End Proofs.

(** X5: for every list of leaves [L] shorter than [2^63] and every index
    [0 <= i < len L], the proof that [InclusionProof] returns on the tree
    [Build L] has the leaf [L[i]] itself as its first entry, and has between
    one entry and one entry per level of the tree. *)
Theorem X5_InclusionProof_starts_with_the_leaf
    (hashFunc : list byte -> list byte) (fuel : nat)
    (L : list (list byte)) (i : Z) :
  (64 <= fuel)%nat -> len L < 2 ^ 63 -> 0 <= i < len L ->
  exists t proof h,
    Build hashFunc fuel L = Ret t /\
    InclusionProof fuel t i = Ret proof /\
    proof !! 0%nat = L !! Z.to_nat i /\
    GetHeight fuel (len L) = Ret h /\
    1 <= len proof <= h.
Proof.
  intros Hfuel Hlen Hi.
  assert (Hne : L <> []) by (intros ->; unfold len in Hi; simpl in Hi; lia).
  destruct (Build_shape hashFunc fuel L Hfuel Hne Hlen)
    as (k & n & Hk & Hs & Eh & Eb).
  destruct (prove_head hashFunc k n L i (Z.of_nat k + 1))
    as (pf & Ep & Hhd & Hpl); try assumption; try lia.
  eexists. exists pf, (Z.of_nat k + 1). split; [exact Eb|].
  split; [|repeat split; try assumption; lia].
  unfold InclusionProof. cbn [count root]. rewrite u64_small by lia.
  destruct (Z.leb_spec (len L) i); [lia|].
  destruct (Z.ltb_spec i 0); [lia|].
  rewrite Eh. cbn [mbind outcome_bind proveNode]. exact Ep.
Qed.

(** X5 on the last of three leaves. *)
Lemma X5_witness :
  exists t proof,
    Build sample_hashFunc 64 [[x61]; [x62]; [x63]] = Ret t /\
    InclusionProof 64 t 2 = Ret proof /\
    proof !! 0%nat = Some [x63].
Proof.
  destruct (X5_InclusionProof_starts_with_the_leaf sample_hashFunc 64
              [[x61]; [x62]; [x63]] 2)
    as (t & proof & h & Eb & Ep & Hhd & _); [lia|reflexivity|split; [lia|reflexivity]|].
  exists t, proof. repeat split; assumption.
Defined.

(** X6: [InclusionProof] serves only the indices of the tree: for every
    tree and every [int] index, a negative index and an index from the count
    on panic, so a call that returns a proof had [0 <= index < count]. *)
Theorem X6_InclusionProof_returns_only_in_range
    (fuel : nat) (t : BTree) (index : Z) :
  - 2 ^ 63 <= index < 2 ^ 63 ->
  (index < 0 \/ count t <= index -> InclusionProof fuel t index = Panic) /\
  (forall proof,
     InclusionProof fuel t index = Ret proof -> 0 <= index < count t).
Proof.
  intros Hint. unfold InclusionProof.
  destruct (Z.leb_spec (count t) (u64 index)) as [Hle|Hlt].
  { split; [reflexivity|discriminate]. }
  destruct (Z.ltb_spec index 0) as [Hneg|Hge].
  { split; [reflexivity|discriminate]. }
  rewrite u64_small in Hlt by lia. split; [lia|]. intros proof _. lia.
Qed.

(** X6 on a tree of one leaf, asked for index 1. *)
Lemma X6_witness :
  InclusionProof 64 (mkBTree 1 (Some (Node [x61] None None)) []) 1 = Panic.
Proof.
  apply (X6_InclusionProof_returns_only_in_range 64
           (mkBTree 1 (Some (Node [x61] None None)) []) 1); [lia|].
  right. cbn [count]. lia.
Defined.

(** ** What [CheckProof] accepts *)

Lemma checkNode_accepts (hashFunc : list byte -> list byte) fuel :
  forall height proof index count d,
    checkNode hashFunc fuel height proof index count = Ret (d, true) ->
    1 <= len proof <= height /\ index < count.
Proof.
  induction fuel as [|fuel IH]; intros height proof index count d;
    cbn [checkNode]; [discriminate|].
  destruct (Z.eqb_spec (len proof) 0) as [|Hne]; [discriminate|].
  destruct (Z.leb_spec count index) as [|Hlt]; [discriminate|].
  pose proof (len_nonneg proof) as Hp.
  destruct (Z.eqb_spec height 1) as [->|Hh].
  - destruct (Z.eqb_spec index 0), (Z.eqb_spec (len proof) 1);
      cbn [negb orb]; try discriminate. intros _. lia.
  - assert (Hsl : len (slice proof 0 (len proof - 1)) = len proof - 1).
    { unfold slice, len. rewrite length_take, length_drop. unfold len in *. lia. }
    destruct (shr_u64 index (height - 2) =? 1).
    + destruct (checkNode hashFunc fuel (height - 1) _ _ _)
        as [[d' ok]| |] eqn:E; try discriminate.
      cbn [mbind outcome_bind]. intros [= _ ->].
      apply IH in E. lia.
    + match goal with |- context [if ?c then _ else _] => destruct c end.
      * destruct (checkNode hashFunc fuel (height - 1) _ _ _)
          as [[d' ok]| |] eqn:E; try discriminate.
        cbn [mbind outcome_bind]. intros [= _ ->].
        apply IH in E. lia.
      * destruct (checkNode hashFunc fuel (height - 1) _ _ _)
          as [[d' ok]| |] eqn:E; try discriminate.
        cbn [mbind outcome_bind]. intros [= _ ->].
        apply IH in E. lia.
Qed.

(** X7: whenever [CheckProof] returns true, the proof is not empty, the
    index (as a [uint64]) is below the root's count, the count is at most
    [2^63], and the proof has at most as many entries as the tree of that
    count has levels. *)
Theorem X7_CheckProof_accepts_only_guarded_proofs
    (hashFunc : list byte -> list byte) (fuel : nat) (r : Root)
    (proof : list (list byte)) (index : Z) :
  CheckProof hashFunc fuel r proof index = Ret true ->
  proof <> [] /\ u64 index < Count r /\ Count r <= 2 ^ 63 /\
  exists h, GetHeight fuel (Count r) = Ret h /\ len proof <= h.
Proof.
  unfold CheckProof.
  destruct (GetHeight fuel (Count r)) as [h| |] eqn:Eh; try discriminate.
  cbn [mbind outcome_bind].
  destruct (checkNode hashFunc fuel h proof (u64 index) (Count r))
    as [[d ok]| |] eqn:Ec; try discriminate.
  cbn [mbind outcome_bind]. intros [= Hok].
  apply andb_true_iff in Hok. destruct Hok as [-> _].
  apply checkNode_accepts in Ec. destruct Ec as [Hl Hi].
  assert (0 <= u64 index) by (unfold u64; apply Z.mod_pos_bound; lia).
  destruct (GetHeight_bound fuel (Count r) h) as [_ Hc]; [lia|assumption|].
  split; [intros ->; rewrite len_nil in Hl; lia|].
  split; [assumption|]. split; [assumption|].
  exists h. split; [reflexivity|lia].
Qed.

(** X7 on the proof of the only leaf of a tree. *)
Lemma X7_witness :
  [[x61]] <> [] /\ u64 0 < 1.
Proof.
  destruct (X7_CheckProof_accepts_only_guarded_proofs sample_hashFunc 64
              (mkRoot 1 (sample_hashFunc ([x61] ++ le64 1))) [[x61]] 0)
    as (Hne & Hi & _).
  - vm_compute. reflexivity.
  - split; [exact Hne|exact Hi].
Defined.

(** ** The [hash.Hash] wrapper *)

Lemma splitData_returns (data : list byte) (size : Z) :
  0 < size ->
  exists blocks,
    splitData data size = Ret blocks /\
    len blocks = len data / size + (if len data mod size =? 0 then 0 else 1).
Proof.
  intros Hsize. pose proof (len_nonneg data) as Hd0.
  assert (Hq : 0 <= len data / size) by (apply Z.div_pos; lia).
  unfold splitData. destruct (Z.eqb_spec size 0); [lia|].
  rewrite Z.quot_div_nonneg, Z.rem_mod_nonneg by lia.
  destruct (Z.ltb_spec (len data / size) 0); [lia|].
  assert (El : len (full_blocks data size (Z.to_nat (len data / size)))
               = len data / size).
  { unfold full_blocks, len at 1. rewrite length_map, length_seq. lia. }
  destruct (Z.eqb_spec (len data mod size) 0) as [E|E]; cbn [negb];
    eexists; (split; [reflexivity|]).
  - lia.
  - rewrite len_app, len_cons, len_nil. lia.
Qed.

Lemma BuildBMT_returns (hashFunc : list byte -> list byte) (fuel : nat)
    (data : list byte) (size : Z) :
  (64 <= fuel)%nat -> 0 < size -> len data < 2 ^ 63 ->
  exists blocks tree,
    splitData data size = Ret blocks /\
    Build hashFunc fuel blocks = Ret tree /\
    len blocks = len data / size + (if len data mod size =? 0 then 0 else 1) /\
    BuildBMT hashFunc fuel data size =
      Ret (Some tree, Some (mkRoot (len blocks) (BTree_Root tree)),
           len blocks, 0).
Proof.
  intros Hfuel Hsize Hlen.
  destruct (splitData_returns data size Hsize) as (blocks & Es & El).
  pose proof (len_nonneg data) as Hd0.
  assert (Hbl : len blocks < 2 ^ 63).
  { rewrite El. pose proof (Z.div_mod (len data) size ltac:(lia)).
    pose proof (Z.mod_pos_bound (len data) size Hsize).
    assert (0 <= len data / size) by (apply Z.div_pos; lia).
    destruct (Z.eqb_spec (len data mod size) 0); nia. }
  destruct (Build_returns hashFunc fuel blocks Hfuel Hbl) as [tree Eb].
  destruct (Validate_Build hashFunc fuel blocks tree Hfuel Hbl Eb) as [Ev Ecount].
  exists blocks, tree. repeat split; try assumption.
  unfold BuildBMT. rewrite Es. cbn [mbind outcome_bind].
  rewrite Eb. cbn [mbind outcome_bind]. rewrite Ev. cbn [mbind outcome_bind].
  unfold BTree_Count. rewrite Ecount.
  rewrite u64_small by (pose proof (len_nonneg blocks); lia).
  rewrite Z.eqb_refl. reflexivity.
Qed.

(** X8: for every state and every byte string [p] shorter than [2^63],
    [Write] returns without error, the count it returns is the number of
    32-byte segments [ceil(len p / 32)] (not the number of bytes), and it
    replaces the state by the tree built over the segments of [p] alone:
    [Sum] then returns the root hash of that tree, whatever was written
    before and whatever its argument. *)
Theorem X8_Write_replaces_the_state
    (hashFunc : list byte -> list byte) (fuel : nat) (d : state)
    (p in_ : list byte) :
  (64 <= fuel)%nat -> len p < 2 ^ 63 ->
  exists blocks tree,
    splitData p 32 = Ret blocks /\
    Build hashFunc fuel blocks = Ret tree /\
    state_Write hashFunc fuel d p =
      Ret (mkState tree (mkRoot (len blocks) (rootHash_ tree)),
           (len p + 31) / 32, false) /\
    state_Sum (mkState tree (mkRoot (len blocks) (rootHash_ tree))) in_
      = rootHash_ tree /\
    len blocks = (len p + 31) / 32.
Proof.
  intros Hfuel Hlen.
  destruct (BuildBMT_returns hashFunc fuel p 32 Hfuel ltac:(lia) Hlen)
    as (blocks & tree & Es & Eb & El & Ebmt).
  assert (El' : len blocks = (len p + 31) / 32).
  { rewrite El. pose proof (len_nonneg p).
    destruct (Z.eqb_spec (len p mod 32) 0); Z.div_mod_to_equations; lia. }
  exists blocks, tree. split; [exact Es|]. split; [exact Eb|].
  split; [|split; [reflexivity|exact El']].
  unfold state_Write. rewrite Ebmt. cbn [mbind outcome_bind].
  rewrite <- El'. reflexivity.
Qed.

(** X8 on three bytes written to a new state. *)
Lemma X8_witness :
  exists d',
    state_Write sample_hashFunc 64 NewBMTSHA3 [x61; x62; x63] = Ret (d', 1, false) /\
    state_Sum d' [] = sample_hashFunc ([x61; x62; x63] ++ le64 1).
Proof.
  destruct (X8_Write_replaces_the_state sample_hashFunc 64 NewBMTSHA3
              [x61; x62; x63] [])
    as (blocks & tree & Es & Eb & Ew & Esum & El); [lia|reflexivity|].
  injection Es as <-. injection Eb as <-.
  eexists. split; [exact Ew|]. reflexivity.
Defined.

(** ** Segment sizes that are not positive *)

(** X24: [splitData], and [BuildBMT] with it, panics on segment size 0
    (division by zero) and on a negative size whose magnitude does not
    exceed the length of the data (negative slice capacity); on a negative
    size of larger magnitude [splitData] returns the data as one block, or
    no block for empty data. *)
Theorem X24_splitData_on_a_segment_size_that_is_not_positive
    (hashFunc : list byte -> list byte) (fuel : nat)
    (data : list byte) (size : Z) :
  size <= 0 ->
  (size = 0 \/ - size <= len data ->
     splitData data size = Panic /\
     BuildBMT hashFunc fuel data size = Panic) /\
  (size < 0 -> len data < - size ->
     splitData data size = Ret (if len data =? 0 then [] else [data])).
Proof.
  intros Hsize. pose proof (len_nonneg data) as Hd. split.
  - intros Hcase.
    assert (E : splitData data size = Panic).
    { unfold splitData. destruct (Z.eqb_spec size 0) as [|Hne]; [reflexivity|].
      assert (Hq : Z.quot (len data) size < 0).
      { rewrite <- (Z.opp_involutive size), Z.quot_opp_r by lia.
        assert (0 < Z.quot (len data) (- size)); [|lia].
        apply Z.quot_str_pos. lia. }
      destruct (Z.ltb_spec (Z.quot (len data) size) 0); [reflexivity|lia]. }
    split; [exact E|]. unfold BuildBMT. rewrite E. reflexivity.
  - intros Hneg Hshort. unfold splitData.
    destruct (Z.eqb_spec size 0); [lia|].
    assert (Hq : Z.quot (len data) size = 0) by (apply Z.quot_small_iff; lia).
    assert (Hr : Z.rem (len data) size = len data) by (apply Z.rem_small_iff; lia).
    rewrite Hq, Hr. cbn [Z.ltb Z.compare Z.to_nat full_blocks seq map app].
    destruct (Z.eqb_spec (len data) 0); cbn [negb]; [reflexivity|].
    change (len (@nil (list byte)) * size) with 0. reflexivity.
Qed.

(** X24 on segment size 0. *)
Lemma X24_witness :
  splitData [x61; x62] 0 = Panic /\
  BuildBMT sample_hashFunc 64 [x61; x62] 0 = Panic.
Proof.
  apply (X24_splitData_on_a_segment_size_that_is_not_positive
           sample_hashFunc 64 [x61; x62] 0); [lia|left; reflexivity].
Defined.

End MerkleProps.

(** * Facts about the gas and memory meter *)

Module MeterFacts.
Import VM.

Lemma require_ok (st : list Z) (db : Database) n :
  n <= len st ->
  require n (mkMeterState st db) = (Ok tt, mkMeterState st db).
Proof.
  intros Hn. unfold require. cbn [stack_data].
  destruct (Z.ltb_spec (len st) n); [lia|reflexivity].
Qed.

(** Reading the stack near its top, for a stack whose top items are known. *)
Lemma back_suffix (st suf : list Z) (db : Database) k :
  1 <= k <= len suf ->
  back k (mkMeterState (st ++ suf) db) =
    (match suf !! Z.to_nat (len suf - k) with
     | Some x => Ok x
     | None => Panicked
     end, mkMeterState (st ++ suf) db).
Proof.
  intros Hk. unfold back. cbn [stack_data].
  assert (E : len (st ++ suf) - k = len st + (len suf - k)).
  { unfold len. rewrite length_app. lia. }
  rewrite E.
  destruct (Z.ltb_spec (len st + (len suf - k)) 0); [unfold len in *; lia|].
  destruct (Z.leb_spec (len (st ++ suf)) (len st + (len suf - k))) as [Hle|_].
  { unfold len in *. rewrite length_app in Hle. lia. }
  cbn [orb].
  replace (Z.to_nat (len st + (len suf - k)))
    with (length st + Z.to_nat (len suf - k))%nat by (unfold len in *; lia).
  rewrite lookup_app_r by lia.
  replace (length st + Z.to_nat (len suf - k) - length st)%nat
    with (Z.to_nat (len suf - k)) by lia.
  destruct (suf !! Z.to_nat (len suf - k)) eqn:El; [reflexivity|].
  apply lookup_ge_None in El. unfold len in *. lia.
Qed.

Lemma set_back_suffix (st : list Z) (top v : Z) (db : Database) :
  set_back 1 v (mkMeterState (st ++ [top]) db) =
    (Ok tt, mkMeterState (st ++ [v]) db).
Proof.
  unfold set_back. cbn [stack_data statedb].
  assert (E : len (st ++ [top]) - 1 = len st).
  { unfold len. rewrite length_app. simpl length. lia. }
  rewrite E.
  destruct (Z.ltb_spec (len st) 0); [unfold len in *; lia|].
  destruct (Z.leb_spec (len (st ++ [top])) (len st)); [lia|].
  cbn [orb]. unfold len. rewrite Nat2Z.id.
  rewrite (insert_app_r_alt st [top] (length st)) by lia.
  rewrite Nat.sub_diag. reflexivity.
Qed.

(** Unfold the monad and run the stack reads of a metering call whose
    stack ends in known items. *)
Ltac run_meter :=
  cbv [bindM ret check fail read_statedb AddRefund peek];
  repeat first
    [ rewrite require_ok
        by first [ assumption
                 | rewrite ?len_app; unfold len; simpl length; lia ]
    | rewrite back_suffix by (unfold len; simpl length; lia);
      unfold len; simpl length; simpl Z.to_nat; simpl lookup
    | progress cbv beta iota ];
  cbn [stack_data statedb].

Lemma BigToHash_zero y : 0 <= y < 2 ^ 256 -> EmptyHash (BigToHash y) = (y =? 0).
Proof.
  intros Hy. unfold EmptyHash, BigToHash.
  rewrite Z.abs_eq by lia. rewrite Z.mod_small by lia. reflexivity.
Qed.

Lemma word_size_zero : u64 (toWordSize 0 * 32) = 0.
Proof. reflexivity. Qed.

Section Meter.

Variable P : ProtocolParams.
Variable float64Max : Z -> Z -> Z.

Local Abbreviation meter := (calculateGasAndSize P float64Max).

(** [db] with [g] added to its refund accumulator. *)
Local Abbreviation refunded db g :=
  (mkDatabase (Exist db) (Empty db) (GetBalance db) (GetState db)
              (HasSuicided db) (refund db + g)).

Lemma sstore_eval (gasTable : GasTable) (env : Environment)
    (contract : Contract) (instr : instruction) (mem : Memory)
    (db : Database) (rest : list Z) (x w : Z) :
  i_op instr = SSTORE ->
  i_spop instr <= len (rest ++ [w; x]) ->
  let v := GetState db (contract_Address contract) (BigToHash x) in
  meter gasTable env contract instr mem (mkMeterState (rest ++ [w; x]) db) =
    if EmptyHash v && negb (EmptyHash (BigToHash w)) then
      (Ok (0, SstoreSetGas64 P), mkMeterState (rest ++ [w; x]) db)
    else if negb (EmptyHash v) && EmptyHash (BigToHash w) then
      (Ok (0, SstoreClearGas64 P),
       mkMeterState (rest ++ [w; x]) (refunded db (SstoreRefundGas P)))
    else
      (Ok (0, SstoreResetGas64 P), mkMeterState (rest ++ [w; x]) db).
Proof.
  intros Hop Hpop v.
  unfold calculateGasAndSize, baseCalc, meterOp. rewrite Hop.
  run_meter. fold v.
  destruct (EmptyHash v), (EmptyHash (BigToHash w)); cbn [andb negb];
    rewrite ?word_size_zero; reflexivity.
Qed.

(** C5: for every [SSTORE] instruction with key [x] on top of the stack and
    new value [w] (a 256-bit word) below it, and with [v] the value stored at
    the key: when [v = 0] and [w <> 0] the gas is [SstoreSetGas64] and the
    refund accumulator is unchanged; when [v <> 0] and [w = 0] the gas is
    [SstoreClearGas64] and the accumulator grows by exactly
    [SstoreRefundGas]; in every other case the gas is [SstoreResetGas64] and
    the accumulator is unchanged.  The stack is left as it was. *)
Theorem C5_sstore_gas_and_refund
    (gasTable : GasTable) (env : Environment) (contract : Contract)
    (instr : instruction) (mem : Memory) (db : Database)
    (rest : list Z) (x w : Z) :
  i_op instr = SSTORE ->
  i_spop instr <= len (rest ++ [w; x]) ->
  0 <= w < 2 ^ 256 ->
  let v := GetState db (contract_Address contract) (BigToHash x) in
  let s := mkMeterState (rest ++ [w; x]) db in
  let r := meter gasTable env contract instr mem s in
  stack_data r.2 = rest ++ [w; x] /\
  (v = 0 /\ w <> 0 ->
     r.1 = Ok (0, SstoreSetGas64 P) /\ refund (statedb r.2) = refund db) /\
  (v <> 0 /\ w = 0 ->
     r.1 = Ok (0, SstoreClearGas64 P) /\
     refund (statedb r.2) = refund db + SstoreRefundGas P) /\
  (~ (v = 0 /\ w <> 0) /\ ~ (v <> 0 /\ w = 0) ->
     r.1 = Ok (0, SstoreResetGas64 P) /\ refund (statedb r.2) = refund db).
Proof.
  intros Hop Hpop Hw v s r. subst r s.
  rewrite sstore_eval by assumption. fold v.
  rewrite BigToHash_zero by assumption. unfold EmptyHash.
  destruct (Z.eqb_spec v 0) as [Hv|Hv], (Z.eqb_spec w 0) as [Hw0|Hw0];
    cbn [andb negb fst snd stack_data statedb refund];
    repeat first [split | intro]; try reflexivity; exfalso; tauto.
Qed.

(** ** Sub-call gas *)

(** Computations that only read the state. *)
Definition readonly {A} (m : M A) : Prop := forall s, (m s).2 = s.

Lemma readonly_ret {A} (a : A) : readonly (ret a).
Proof. intros s. reflexivity. Qed.

Lemma readonly_fail {A} (e : error) : readonly (@fail A e).
Proof. intros s. reflexivity. Qed.

Lemma readonly_check b e : readonly (check b e).
Proof. intros s. destruct b; reflexivity. Qed.

Lemma readonly_back k : readonly (back k).
Proof.
  intros s. unfold back.
  destruct ((len (stack_data s) - k <? 0)
            || (len (stack_data s) <=? len (stack_data s) - k));
    [reflexivity|].
  destruct (stack_data s !! Z.to_nat (len (stack_data s) - k)); reflexivity.
Qed.

Lemma readonly_bind {A B} (m : M A) (f : A -> M B) :
  readonly m -> (forall a, readonly (f a)) -> readonly (bindM m f).
Proof.
  intros Hm Hf s. unfold bindM. specialize (Hm s).
  destruct (m s) as [[a|e|] s1]; simpl in Hm; subst s1; [apply Hf| |]; reflexivity.
Qed.

Lemma readonly_addMemGas mem gas n : readonly (addMemGas P mem gas n).
Proof.
  unfold addMemGas. destruct (calcQuadMemGas P mem n).
  apply readonly_bind; [apply readonly_check|]. intros _. apply readonly_ret.
Qed.

Create HintDb readonly.

#[local] Hint Resolve readonly_ret readonly_fail readonly_check readonly_back
  readonly_addMemGas : readonly.

Ltac readonly_tac :=
  repeat first
    [ apply readonly_bind; [|intro]
    | match goal with
      | |- readonly (if ?b then _ else _) => destruct b
      | |- readonly (let '(_, _) := ?p in _) => destruct p
      end
    | solve [auto with readonly] ].

Lemma readonly_callCost gasTable env mem op :
  readonly (callCost P gasTable env mem op).
Proof. unfold callCost. readonly_tac. Qed.

Lemma callGas_in_range gasTable A c requested :
  0 <= requested < 2 ^ 64 -> 0 <= c <= A -> A < 2 ^ 64 ->
  callGas gasTable A c requested = Z.min requested (A - c - (A - c) / 64)
  /\ 0 <= callGas gasTable A c requested <= A - c.
Proof.
  intros Hr Hc HA. unfold callGas. rewrite u64_small by lia.
  split; [reflexivity|].
  assert (0 <= (A - c) / 64 <= A - c).
  { split; [apply Z.div_pos; lia|]. apply Z.div_le_upper_bound; lia. }
  lia.
Qed.

Lemma callForward_eval gasTable contract c st requested db :
  0 <= requested < 2 ^ 64 -> 0 <= c <= gas64 contract ->
  gas64 contract < 2 ^ 64 ->
  let forwarded :=
    Z.min requested (gas64 contract - c - (gas64 contract - c) / 64) in
  callForward gasTable contract c (mkMeterState (st ++ [requested]) db) =
    (Ok (c + forwarded), mkMeterState (st ++ [forwarded]) db).
Proof.
  intros Hr Hc HA forwarded. unfold callForward.
  destruct (callGas_in_range gasTable (gas64 contract) c requested)
    as [Ecg Hcg]; try assumption.
  unfold bindM at 1. rewrite back_suffix by (unfold len; simpl length; lia).
  unfold len. simpl length. simpl Z.to_nat. simpl lookup. cbv beta iota.
  assert (Eu : Uint64 requested = requested).
  { unfold Uint64. rewrite Z.abs_eq by lia. apply u64_small. lia. }
  rewrite Eu. unfold bindM at 1. rewrite set_back_suffix. cbv beta iota.
  unfold bindM, check, IsAddSafe, ret.
  destruct (Z.ltb_spec (c + callGas gasTable (gas64 contract) c requested)
                       (2 ^ 64)); [|lia].
  rewrite u64_small by lia. rewrite Ecg. reflexivity.
Qed.

(** C3, as amended: for every [CALL] or [CALLCODE] instruction whose
    requested gas (the top stack item) fits 64 bits, with available contract
    gas [A] and metering-consumed gas [c <= A] (base, surcharges, memory
    charge), the forwarded sub-call gas is
    [min(requested, A - c - floor((A - c) / 64))]; the top stack item is
    overwritten with it, and it is added to the gas the meter returns. *)
Theorem C3_call_forwards_all_but_one_64th
    (gasTable : GasTable) (env : Environment) (contract : Contract)
    (instr : instruction) (mem : Memory) (db : Database)
    (st : list Z) (requested newMemSize c : Z) :
  i_op instr = CALL \/ i_op instr = CALLCODE ->
  i_spop instr <= len (st ++ [requested]) ->
  0 <= requested < 2 ^ 64 ->
  let s := mkMeterState (st ++ [requested]) db in
  (callCost P gasTable env mem (i_op instr) s).1 = Ok (newMemSize, c) ->
  0 <= c <= gas64 contract -> gas64 contract < 2 ^ 64 ->
  let forwarded :=
    Z.min requested (gas64 contract - c - (gas64 contract - c) / 64) in
  meter gasTable env contract instr mem s =
    (Ok (u64 (toWordSize newMemSize * 32), c + forwarded),
     mkMeterState (st ++ [forwarded]) db).
Proof.
  intros Hop Hpop Hr s Hcost Hc HA forwarded.
  assert (Ecost : callCost P gasTable env mem (i_op instr) s
                  = (Ok (newMemSize, c), s)).
  { pose proof (readonly_callCost gasTable env mem (i_op instr) s) as Hro.
    destruct (callCost P gasTable env mem (i_op instr) s) as [r s1].
    simpl in Hcost, Hro. subst. reflexivity. }
  unfold calculateGasAndSize, baseCalc.
  unfold bindM at 1 2. subst s. rewrite require_ok by assumption.
  unfold ret at 1. cbv beta iota.
  assert (Eop : meterOp P float64Max gasTable env contract instr mem (i_gas instr)
          = (let* (newMemSize, gas) := callCost P gasTable env mem (i_op instr) in
             let* gas := callForward gasTable contract gas in
             ret (newMemSize, false, gas))).
  { unfold meterOp. destruct Hop as [-> | ->]; reflexivity. }
  rewrite Eop. unfold bindM at 1 2 3. rewrite Ecost. cbv beta iota.
  rewrite callForward_eval by assumption. reflexivity.
Qed.

(** ** The memory size the meter returns *)

Lemma toWordSize_words k : toWordSize (k * 32) = k.
Proof.
  unfold toWordSize. symmetry. apply (Z.div_unique _ _ _ 31); lia.
Qed.

Lemma calcMemSize_ok off l n :
  calcMemSize off l = (n, false) ->
  n = toWordSize (off + l) * 32 /\ n < 2 ^ 64.
Proof.
  unfold calcMemSize. intros H.
  destruct ((2 ^ 64 <=? off) || (2 ^ 64 <=? l)
            || (2 ^ 64 <=? toWordSize (off + l) * 32)) eqn:E;
    [discriminate|].
  injection H as <-. split; [reflexivity|].
  apply orb_false_elim in E. destruct E as [_ E].
  destruct (Z.leb_spec (2 ^ 64) (toWordSize (off + l) * 32)); [discriminate|lia].
Qed.

Lemma toWordSize_nonneg n : 0 <= n -> 0 <= toWordSize n.
Proof. intros Hn. unfold toWordSize. apply Z.div_pos; lia. Qed.

(** Destructs the tests and pairs of a metering equation, reading the known
    top of the stack. *)
Ltac crunch H :=
  repeat first
    [ discriminate H
    | progress (cbv beta iota in H)
    | rewrite back_suffix in H by (unfold len; simpl length; lia);
      unfold len in H; simpl length in H; simpl Z.to_nat in H;
      simpl lookup in H
    | match type of H with
      | context [calcMemSize ?a ?b] => destruct (calcMemSize a b) eqn:?
      | context [calcQuadMemGas ?p ?a ?b] =>
          destruct (calcQuadMemGas p a b) eqn:?
      | context [if ?b then _ else _] => destruct b eqn:?
      end ].

Ltac finish_region :=
  repeat match goal with b : bool |- _ => destruct b end;
  cbn [negb] in *; try congruence;
  eexists; split; reflexivity.

Ltac open_meter H :=
  unfold calculateGasAndSize, baseCalc, meterOp in H;
  cbv [bindM ret check fail peek copyWords addMemGas require] in H;
  cbn [stack_data] in H.

(** C8, as amended: for every metered instruction that touches a memory
    region with offset and length taken from the stack, the first component
    of the meter's result is [word_ceil(offset + length) * 32], a multiple of
    32 that does not depend on the current memory high-water mark (the
    maximum with the current size is left to the memory resize). *)
Theorem C8_new_memory_size_is_region_end_rounded
    (gasTable : GasTable) (env : Environment) (contract : Contract)
    (instr : instruction) (mem : Memory) (s s' : MeterState)
    (off l sz gas : Z) :
  touches (i_op instr) (stack_data s) off l ->
  0 <= off -> 0 <= l ->
  meter gasTable env contract instr mem s = (Ok (sz, gas), s') ->
  sz = toWordSize (off + l) * 32 /\ sz mod 32 = 0.
Proof.
  intros Ht Hoff Hl H.
  assert (Hsz : exists n, calcMemSize off l = (n, false)
                          /\ sz = u64 (toWordSize n * 32)).
  { destruct s as [sd db]. cbn [stack_data] in Ht.
    inversion Ht as [st o Eop Est|st o Eop Est|st o Eop Est
                    |st l0 o Eop Est|st l0 o Eop Est
                    |st l0 x o Eop Est|st l0 x o Eop Est
                    |st l0 x o a Eop Est|op st l0 o Hlog Eop Est
                    |st l0 o v Eop Est]; subst;
      open_meter H.
    1-8,10: rewrite <- Eop in H; crunch H;
      injection H as <- <- <-; finish_region.
    destruct (i_op instr); try discriminate Hlog; crunch H;
      injection H as <- <- <-; finish_region. }
  destruct Hsz as (n & Ecm & ->).
  destruct (calcMemSize_ok _ _ _ Ecm) as [-> Hlt].
  rewrite toWordSize_words.
  pose proof (toWordSize_nonneg (off + l)).
  rewrite u64_small by lia. split; [reflexivity|].
  apply Z.mod_mul. lia.
Qed.

(** For [EXTCODECOPY] the gas returned is the base gas plus the copy charge
    alone, whatever [calcQuadMemGas] asks for the region. *)
Lemma extcodecopy_gas
    (gasTable : GasTable) (env : Environment) (contract : Contract)
    (instr : instruction) (mem : Memory) (db : Database) (s' : MeterState)
    (st : list Z) (l x off a sz gas : Z) :
  i_op instr = EXTCODECOPY ->
  meter gasTable env contract instr mem
        (mkMeterState (st ++ [l; x; off; a]) db) = (Ok (sz, gas), s') ->
  gas = u64 (i_gas instr + u64 (toWordSize (Uint64 l) * CopyGas64 P)).
Proof.
  intros Hop H. open_meter H. rewrite Hop in H. crunch H.
  injection H as <- <- <-. reflexivity.
Qed.

(** Its sibling [CODECOPY] adds the charge of [calcQuadMemGas] on top. *)
Lemma codecopy_gas
    (gasTable : GasTable) (env : Environment) (contract : Contract)
    (instr : instruction) (mem : Memory) (db : Database) (s' : MeterState)
    (st : list Z) (l x off sz gas : Z) :
  i_op instr = CODECOPY ->
  meter gasTable env contract instr mem
        (mkMeterState (st ++ [l; x; off]) db) = (Ok (sz, gas), s') ->
  exists n,
    calcMemSize off l = (n, false) /\
    gas = u64 (u64 (i_gas instr + u64 (toWordSize (Uint64 l) * CopyGas64 P))
               + (calcQuadMemGas P mem n).1).
Proof.
  intros Hop H. open_meter H. rewrite Hop in H. crunch H.
  injection H as <- <- <-.
  repeat match goal with b : bool |- _ => destruct b end;
    cbn [negb] in *; try congruence;
    eexists; (split; [reflexivity|]);
    match goal with E : calcQuadMemGas _ _ _ = _ |- _ => rewrite E end;
    reflexivity.
Qed.

End Meter.

(** ** Runs on concrete inputs *)

Local Abbreviation sample_meter :=
  (calculateGasAndSize sample_params sample_float64Max sample_gasTable
                       sample_env).

(** C1 fails on the code: an [EXTCODECOPY] of 32 bytes to offset 0 of an
    empty memory is charged the base gas 20 and the copy charge
    [1 * CopyGas64 = 3], but not the memory-growth charge 3 that
    [calcQuadMemGas] computes for the region; [CODECOPY] on the same region
    is charged all three. *)
Theorem C1_extcodecopy_omits_memory_charge :
  let contract := mkContract 1 1000 in
  let mem := mkMemory [] in
  let db := sample_db 0 0 in
  (calcQuadMemGas sample_params mem 32).1 = 3 /\
  (sample_meter contract (sample_instr EXTCODECOPY (mkReq 4 20 0)) mem
                (mkMeterState [32; 0; 0; 7] db)).1
    = Ok (32, 20 + 1 * CopyGas64 sample_params) /\
  (sample_meter contract (sample_instr CODECOPY (mkReq 3 20 0)) mem
                (mkMeterState [32; 0; 0] db)).1
    = Ok (32, 20 + 1 * CopyGas64 sample_params + 3).
Proof. vm_compute. repeat split; reflexivity. Qed.

(** C3 as stated fails on the code.  With 100 gas available and 700
    consumed, the formula of the claim is negative while the forwarded gas, an
    unsigned integer, is the 50 requested.  With a requested gas of [2^64]
    (6400 available, 700 consumed) the formula gives 5611 while the meter,
    which reads the low 64 bits of the stack item, forwards 0. *)
Lemma C3_counterexample :
  let instr := sample_instr CALL (mkReq 7 40 1) in
  let mem := mkMemory [] in
  let db := sample_db 0 0 in
  (let s := mkMeterState [0; 0; 0; 0; 0; 5; 50] db in
   (callCost sample_params sample_gasTable sample_env mem CALL s).1
     = Ok (0, 700) /\
   sample_meter (mkContract 1 100) instr mem s
     = (Ok (0, 700 + 50), mkMeterState [0; 0; 0; 0; 0; 5; 50] db) /\
   Z.min 50 (100 - 700 - (100 - 700) / 64) = -590) /\
  (let s := mkMeterState [0; 0; 0; 0; 0; 5; 2 ^ 64] db in
   (callCost sample_params sample_gasTable sample_env mem CALL s).1
     = Ok (0, 700) /\
   sample_meter (mkContract 1 6400) instr mem s
     = (Ok (0, 700 + 0), mkMeterState [0; 0; 0; 0; 0; 5; 0] db) /\
   Z.min (2 ^ 64) (6400 - 700 - (6400 - 700) / 64) = 5611).
Proof. vm_compute. repeat split; reflexivity. Qed.

(** The amended C3 on the scenario of the specification: 6400 available,
    700 consumed, 100000 requested; 5611 is forwarded. *)
Lemma C3_witness :
  sample_meter (mkContract 1 6400) (sample_instr CALL (mkReq 7 40 1))
               (mkMemory [])
               (mkMeterState ([0; 0; 0; 0; 0; 5] ++ [100000]) (sample_db 0 0))
  = (Ok (0, 700 + 5611),
     mkMeterState ([0; 0; 0; 0; 0; 5] ++ [5611]) (sample_db 0 0)).
Proof.
  apply (C3_call_forwards_all_but_one_64th sample_params sample_float64Max
           sample_gasTable sample_env (mkContract 1 6400)
           (sample_instr CALL (mkReq 7 40 1)) (mkMemory []) (sample_db 0 0)
           [0; 0; 0; 0; 0; 5] 100000 0 700).
  - left. reflexivity.
  - vm_compute. discriminate.
  - lia.
  - reflexivity.
  - cbn [gas64]. lia.
  - reflexivity.
Defined.

(** C5 on the scenario of the specification: the slot holds 0 and 7 is
    stored, then the slot holds 7 and 0 is stored. *)
Lemma C5_witness :
  (sample_meter (mkContract 1 100000) (sample_instr SSTORE (mkReq 2 0 0))
                (mkMemory []) (mkMeterState ([] ++ [7; 5]) (sample_db 0 0))).1
    = Ok (0, SstoreSetGas64 sample_params) /\
  let r := sample_meter (mkContract 1 100000)
             (sample_instr SSTORE (mkReq 2 0 0)) (mkMemory [])
             (mkMeterState ([] ++ [0; 5]) (sample_db 7 0)) in
  r.1 = Ok (0, SstoreClearGas64 sample_params) /\
  refund (statedb r.2) = 0 + SstoreRefundGas sample_params.
Proof.
  split.
  - apply (C5_sstore_gas_and_refund sample_params sample_float64Max
             sample_gasTable sample_env (mkContract 1 100000)
             (sample_instr SSTORE (mkReq 2 0 0)) (mkMemory [])
             (sample_db 0 0) [] 5 7);
      [reflexivity | vm_compute; discriminate | lia
      | split; [reflexivity | discriminate]].
  - apply (C5_sstore_gas_and_refund sample_params sample_float64Max
             sample_gasTable sample_env (mkContract 1 100000)
             (sample_instr SSTORE (mkReq 2 0 0)) (mkMemory [])
             (sample_db 7 0) [] 5 0);
      [reflexivity | vm_compute; discriminate | lia
      | split; [discriminate | reflexivity]].
Defined.

(** C8 as stated fails on the code: with 1024 bytes of memory in use, an
    [MLOAD] at offset 0 makes the meter return 32, below the current
    high-water mark and not [max(1024, 32)]. *)
Lemma C8_counterexample :
  let mem := mkMemory (repeat x00 1024) in
  let s := mkMeterState ([] ++ [0]) (sample_db 0 0) in
  touches MLOAD (stack_data s) 0 32 /\
  Memory_Len mem = 1024 /\
  (sample_meter (mkContract 1 100) (sample_instr MLOAD (mkReq 1 3 1)) mem s).1
    = Ok (32, 3) /\
  32 < Memory_Len mem /\
  32 <> Z.max (Memory_Len mem) (toWordSize (0 + 32) * 32).
Proof.
  split; [apply touches_MLOAD|]. vm_compute.
  repeat split; try reflexivity; discriminate.
Qed.

(** The amended C8 on the same run. *)
Lemma C8_witness :
  32 = toWordSize (0 + 32) * 32 /\ 32 mod 32 = 0.
Proof.
  apply (C8_new_memory_size_is_region_end_rounded sample_params
           sample_float64Max sample_gasTable sample_env (mkContract 1 100)
           (sample_instr MLOAD (mkReq 1 3 1)) (mkMemory (repeat x00 1024))
           (mkMeterState ([] ++ [0]) (sample_db 0 0))
           (mkMeterState ([] ++ [0]) (sample_db 0 0)) 0 32 32 3).
  - apply touches_MLOAD.
  - lia.
  - lia.
  - vm_compute. reflexivity.
Defined.

End MeterFacts.

(** * More of the meter: what it leaves untouched, and further branches *)

Module MeterProps.
Import VM MeterFacts.

(** ** What a metering call leaves of the state *)

(** [steps R m]: running [m] takes every state to an [R]-related one,
    whether it returns, fails or panics. *)
Definition steps (R : relation MeterState) {A} (m : M A) : Prop :=
  forall s, R s (m s).2.

Lemma steps_readonly (R : relation MeterState) `{!Reflexive R} {A} (m : M A) :
  readonly m -> steps R m.
Proof. intros Hm s. rewrite Hm. reflexivity. Qed.

Lemma steps_bind (R : relation MeterState) `{!Transitive R} {A B}
    (m : M A) (f : A -> M B) :
  steps R m -> (forall a, steps R (f a)) -> steps R (bindM m f).
Proof.
  intros Hm Hf s. unfold bindM. specialize (Hm s).
  destruct (m s) as [[a|e|] s1]; cbn [snd] in *; [|assumption|assumption].
  etransitivity; [exact Hm|apply Hf].
Qed.

Lemma readonly_require n : readonly (require n).
Proof. intros s. unfold require. destruct (len (stack_data s) <? n); reflexivity. Qed.

Lemma readonly_read_statedb {A} (f : Database -> A) : readonly (read_statedb f).
Proof. intros s. reflexivity. Qed.

Lemma readonly_copyWords gas off l wordGas :
  readonly (copyWords gas off l wordGas).
Proof.
  unfold copyWords. destruct (calcMemSize off l).
  repeat (apply readonly_bind; [apply readonly_check|intros _]).
  apply readonly_ret.
Qed.

(** The stack is the same. *)
Definition same_stack (s s' : MeterState) : Prop := stack_data s' = stack_data s.

(** The stack is the same below its top item. *)
Definition same_below_top (s s' : MeterState) : Prop :=
  length (stack_data s') = length (stack_data s) /\
  forall i : nat, (S i < length (stack_data s))%nat ->
    stack_data s' !! i = stack_data s !! i.

(** The state database is the same. *)
Definition same_statedb (s s' : MeterState) : Prop := statedb s' = statedb s.

(** The state database answers every query the same; only the refund
    accumulator may differ. *)
Definition same_world (s s' : MeterState) : Prop :=
  Exist (statedb s') = Exist (statedb s) /\
  Empty (statedb s') = Empty (statedb s) /\
  GetBalance (statedb s') = GetBalance (statedb s) /\
  GetState (statedb s') = GetState (statedb s) /\
  HasSuicided (statedb s') = HasSuicided (statedb s).

#[local] Instance same_stack_preorder : PreOrder same_stack.
Proof. split; unfold same_stack; [intros s|intros s1 s2 s3]; congruence. Qed.

#[local] Instance same_statedb_preorder : PreOrder same_statedb.
Proof. split; unfold same_statedb; [intros s|intros s1 s2 s3]; congruence. Qed.

#[local] Instance same_below_top_preorder : PreOrder same_below_top.
Proof.
  split; unfold same_below_top.
  - intros s. split; reflexivity.
  - intros s1 s2 s3 [L12 H12] [L23 H23]. split; [congruence|].
    intros i Hi. rewrite H23 by lia. apply H12. exact Hi.
Qed.

#[local] Instance same_world_preorder : PreOrder same_world.
Proof.
  split; unfold same_world.
  - intros s. repeat split; reflexivity.
  - intros s1 s2 s3 (A1 & B1 & C1 & D1 & E1) (A2 & B2 & C2 & D2 & E2).
    repeat split; congruence.
Qed.

Lemma AddRefund_same_stack g : steps same_stack (AddRefund g).
Proof. intros s. reflexivity. Qed.

Lemma AddRefund_same_below_top g : steps same_below_top (AddRefund g).
Proof. intros s. split; reflexivity. Qed.

Lemma AddRefund_same_world g : steps same_world (AddRefund g).
Proof. intros s. repeat split; reflexivity. Qed.

Lemma set_back_same_statedb k v : steps same_statedb (set_back k v).
Proof.
  intros s. unfold set_back.
  destruct ((len (stack_data s) - k <? 0)
            || (len (stack_data s) <=? len (stack_data s) - k)); reflexivity.
Qed.

Lemma set_back_same_world k v : steps same_world (set_back k v).
Proof.
  intros s. pose proof (set_back_same_statedb k v s) as H.
  unfold same_statedb in H. unfold same_world. rewrite H. repeat split; reflexivity.
Qed.

Lemma set_back_same_below_top v : steps same_below_top (set_back 1 v).
Proof.
  intros s. unfold set_back.
  destruct ((len (stack_data s) - 1 <? 0)
            || (len (stack_data s) <=? len (stack_data s) - 1)); [reflexivity|].
  cbn [snd stack_data]. split; [apply length_insert|].
  intros i Hi. apply list_lookup_insert_ne. unfold len. lia.
Qed.

(** The refund accumulator has not shrunk. *)
Definition refund_grows (s s' : MeterState) : Prop :=
  refund (statedb s) <= refund (statedb s').

#[local] Instance refund_grows_preorder : PreOrder refund_grows.
Proof. split; unfold refund_grows; [intros s|intros s1 s2 s3]; lia. Qed.

Lemma AddRefund_refund_grows g : 0 <= g -> steps refund_grows (AddRefund g).
Proof. intros Hg s. unfold refund_grows. cbn. lia. Qed.

Lemma set_back_refund_grows k v : steps refund_grows (set_back k v).
Proof.
  intros s. pose proof (set_back_same_statedb k v s) as H.
  unfold same_statedb in H. unfold refund_grows. rewrite H. lia.
Qed.

(** A metering branch that leaves the memory size at 0 and raises no size
    fault. *)
Definition no_memory (m : M (Z * bool * Z)) : Prop :=
  forall s a s', m s = (Ok a, s') -> a.1 = (0, false).

Lemma no_memory_ret g : no_memory (ret (0, false, g)).
Proof. intros s a s' [= <- _]. reflexivity. Qed.

Lemma no_memory_bind {A} (m : M A) (f : A -> M (Z * bool * Z)) :
  (forall a, no_memory (f a)) -> no_memory (bindM m f).
Proof.
  intros Hf s a s'. unfold bindM.
  destruct (m s) as [[x|e|] s1]; try discriminate. apply Hf.
Qed.

Ltac no_memory_tac :=
  repeat first
    [ progress cbv beta zeta
    | apply no_memory_ret
    | apply no_memory_bind; intro
    | match goal with
      | |- no_memory (if ?b then _ else _) => destruct b
      end ].

Create HintDb meter_readonly.
Create HintDb meter_steps.

#[local] Hint Resolve readonly_ret readonly_fail readonly_check readonly_back
  readonly_addMemGas readonly_require readonly_read_statedb
  readonly_copyWords : meter_readonly.
#[local] Hint Resolve AddRefund_same_stack AddRefund_same_below_top
  AddRefund_same_world set_back_same_statedb set_back_same_world
  set_back_same_below_top AddRefund_refund_grows set_back_refund_grows
  : meter_steps.

Ltac steps_tac :=
  repeat first
    [ progress cbv beta zeta
    | apply steps_bind; [exact _| |intro]
    | match goal with
      | |- steps _ (if ?b then _ else _) => destruct b
      | |- steps _ (let '(_, _) := ?p in _) => destruct p
      end
    | solve [apply steps_readonly; [exact _|auto with meter_readonly]]
    | solve [auto with meter_steps] ].

(** Destructs the tests and pairs of a metering equation, reading the known
    top of the stack. *)
Ltac open_call H :=
  unfold calculateGasAndSize, baseCalc, meterOp in H;
  cbv [bindM ret check fail peek addMemGas require callCost callForward
       set_back] in H;
  cbn [stack_data] in H.

Ltac crunch_call H :=
  repeat first
    [ discriminate H
    | progress (cbv beta iota in H)
    | rewrite back_suffix in H by (unfold len; simpl length; lia);
      unfold len in H; simpl length in H; simpl Z.to_nat in H;
      simpl lookup in H
    | match type of H with
      | context [calcMemSize ?a ?b] => destruct (calcMemSize a b) eqn:?
      | context [calcQuadMemGas ?p ?a ?b] =>
          destruct (calcQuadMemGas p a b) eqn:?
      | context [if ?b then _ else _] => destruct b eqn:?
      end ].

Section Meter.

Variable P : ProtocolParams.
Variable float64Max : Z -> Z -> Z.

Local Abbreviation meter := (calculateGasAndSize P float64Max).

Lemma meterOp_same_below_top gasTable env contract instr mem gas :
  steps same_below_top (meterOp P float64Max gasTable env contract instr mem gas).
Proof.
  unfold meterOp. destruct (i_op instr); cbv beta iota zeta; unfold peek; steps_tac.
Qed.

Lemma meterOp_same_stack gasTable env contract instr mem gas :
  i_op instr <> CALL -> i_op instr <> CALLCODE -> i_op instr <> DELEGATECALL ->
  steps same_stack (meterOp P float64Max gasTable env contract instr mem gas).
Proof.
  intros H1 H2 H3. unfold meterOp.
  destruct (i_op instr); try congruence; cbv beta iota zeta; unfold peek;
    steps_tac.
Qed.

Lemma meterOp_same_world gasTable env contract instr mem gas :
  steps same_world (meterOp P float64Max gasTable env contract instr mem gas).
Proof.
  unfold meterOp. destruct (i_op instr); cbv beta iota zeta; unfold peek; steps_tac.
Qed.

Lemma meterOp_same_statedb gasTable env contract instr mem gas :
  i_op instr <> SUICIDE -> i_op instr <> SSTORE ->
  steps same_statedb (meterOp P float64Max gasTable env contract instr mem gas).
Proof.
  intros H1 H2. unfold meterOp.
  destruct (i_op instr); try congruence; cbv beta iota zeta; unfold peek;
    steps_tac.
Qed.

Lemma meterOp_refund_grows gasTable env contract instr mem gas :
  0 <= SuicideRefundGas P -> 0 <= SstoreRefundGas P ->
  steps refund_grows (meterOp P float64Max gasTable env contract instr mem gas).
Proof.
  intros H1 H2. unfold meterOp.
  destruct (i_op instr); cbv beta iota zeta; unfold peek; steps_tac.
Qed.

(** The meter around the switch only reads. *)
Lemma meter_steps (R : relation MeterState) `{!PreOrder R}
    gasTable env contract instr mem :
  (forall gas,
     steps R (meterOp P float64Max gasTable env contract instr mem gas)) ->
  steps R (meter gasTable env contract instr mem).
Proof.
  intros Hop. unfold calculateGasAndSize, baseCalc.
  apply steps_bind; [exact _| |intros gas].
  { apply steps_readonly; [exact _|].
    apply readonly_bind; [apply readonly_require|intros _; apply readonly_ret]. }
  apply steps_bind; [exact _|apply Hop|intros [[n f] g]].
  apply steps_readonly; [exact _|].
  apply readonly_bind; [apply readonly_check|intros _; apply readonly_ret].
Qed.

(** X16: whatever it returns, the meter never changes the height of the
    stack nor any item below the top, and for every instruction other than
    [CALL], [CALLCODE] and [DELEGATECALL] it leaves the whole stack as it
    was. *)
Theorem X16_meter_writes_only_the_top_stack_item_of_calls
    (gasTable : GasTable) (env : Environment) (contract : Contract)
    (instr : instruction) (mem : Memory) (s : MeterState) :
  let s' := (meter gasTable env contract instr mem s).2 in
  length (stack_data s') = length (stack_data s) /\
  (forall i : nat, (S i < length (stack_data s))%nat ->
     stack_data s' !! i = stack_data s !! i) /\
  (i_op instr <> CALL -> i_op instr <> CALLCODE ->
   i_op instr <> DELEGATECALL -> stack_data s' = stack_data s).
Proof.
  intros s'. subst s'.
  pose proof (meter_steps same_below_top gasTable env contract instr mem
                (meterOp_same_below_top gasTable env contract instr mem) s)
    as [Hl Hi].
  split; [exact Hl|]. split; [exact Hi|]. intros H1 H2 H3.
  apply (meter_steps same_stack gasTable env contract instr mem).
  intros gas. apply meterOp_same_stack; assumption.
Qed.

(** X17: whatever it returns, the meter leaves every answer of the state
    database as it was (existence, emptiness, balances, storage, suicided
    accounts); for every instruction other than [SUICIDE] and [SSTORE] the
    refund accumulator is unchanged too, and with non-negative refund
    constants the accumulator never shrinks. *)
Theorem X17_meter_changes_only_the_refund_accumulator
    (gasTable : GasTable) (env : Environment) (contract : Contract)
    (instr : instruction) (mem : Memory) (s : MeterState) :
  let db := statedb s in
  let db' := statedb (meter gasTable env contract instr mem s).2 in
  (Exist db' = Exist db /\ Empty db' = Empty db /\
   GetBalance db' = GetBalance db /\ GetState db' = GetState db /\
   HasSuicided db' = HasSuicided db) /\
  (i_op instr <> SUICIDE -> i_op instr <> SSTORE -> db' = db) /\
  (0 <= SuicideRefundGas P -> 0 <= SstoreRefundGas P ->
   refund db <= refund db').
Proof.
  intros db db'. subst db db'. split; [|split].
  - apply (meter_steps same_world gasTable env contract instr mem
             (meterOp_same_world gasTable env contract instr mem) s).
  - intros H1 H2.
    apply (meter_steps same_statedb gasTable env contract instr mem).
    intros gas. apply meterOp_same_statedb; assumption.
  - intros H1 H2.
    apply (meter_steps refund_grows gasTable env contract instr mem).
    intros gas. apply meterOp_refund_grows; assumption.
Qed.

(** ** The memory size returned *)

Lemma meterOp_no_memory gasTable env contract instr mem gas :
  i_op instr ∉ [LOG0; LOG1; LOG2; LOG3; LOG4; MLOAD; MSTORE8; MSTORE; RETURN;
                SHA3; CALLDATACOPY; CODECOPY; EXTCODECOPY; CREATE; CALL;
                CALLCODE; DELEGATECALL] ->
  no_memory (meterOp P float64Max gasTable env contract instr mem gas).
Proof.
  intros Hop. unfold meterOp.
  destruct (i_op instr); cbv beta iota zeta;
    first [ solve [no_memory_tac]
          | exfalso; apply Hop;
            repeat first [apply list_elem_of_here | apply list_elem_of_further] ].
Qed.

(** X18: whenever the meter returns without error, the memory size it
    returns is a multiple of 32 that fits 64 bits, and it is 0 for every
    instruction outside the [LOG]s, the memory loads and stores, [RETURN],
    [SHA3], the copies, [CREATE] and the calls. *)
Theorem X18_memory_size_is_a_multiple_of_32_and_0_without_region
    (gasTable : GasTable) (env : Environment) (contract : Contract)
    (instr : instruction) (mem : Memory) (s s' : MeterState) (sz gas : Z) :
  meter gasTable env contract instr mem s = (Ok (sz, gas), s') ->
  sz mod 32 = 0 /\ 0 <= sz < 2 ^ 64 /\
  (i_op instr ∉ [LOG0; LOG1; LOG2; LOG3; LOG4; MLOAD; MSTORE8; MSTORE; RETURN;
                 SHA3; CALLDATACOPY; CODECOPY; EXTCODECOPY; CREATE; CALL;
                 CALLCODE; DELEGATECALL] -> sz = 0).
Proof.
  unfold calculateGasAndSize, bindM at 1.
  destruct (baseCalc instr s) as [[g0|e|] s0]; try discriminate.
  unfold bindM at 1.
  destruct (meterOp P float64Max gasTable env contract instr mem g0 s0)
    as [[[[n f] g]|e|] s1] eqn:Eop; try discriminate.
  unfold bindM, check. destruct f; cbn [negb]; try discriminate.
  unfold ret. intros [= <- <- <-].
  split; [|split].
  - unfold u64. generalize (toWordSize n). intros w.
    change (2 ^ 64) with 18446744073709551616.
    Z.div_mod_to_equations. lia.
  - unfold u64. apply Z.mod_pos_bound. lia.
  - intros Hop. apply (meterOp_no_memory _ _ _ _ _ _ Hop) in Eop.
    cbn [fst] in Eop. injection Eop as ->. reflexivity.
Qed.

(** ** The [SUICIDE] branch *)

(** X19: for every [SUICIDE] instruction whose pop count the stack
    satisfies, the meter returns memory size 0 without error and leaves the
    stack as it was; the gas is the base gas when the table's
    [CreateBySuicide] is 0, and otherwise the base gas plus [Suicide], plus
    [CreateBySuicide] when the beneficiary counts as new (under EIP-158:
    empty while the contract has a balance; before: non-existent), all added
    without overflow check; the refund accumulator grows by
    [SuicideRefundGas] unless the contract has already suicided. *)
Theorem X19_suicide_gas_and_single_refund
    (gasTable : GasTable) (env : Environment) (contract : Contract)
    (instr : instruction) (mem : Memory) (db : Database)
    (st : list Z) (top : Z) :
  i_op instr = SUICIDE ->
  i_spop instr <= len (st ++ [top]) ->
  let s := mkMeterState (st ++ [top]) db in
  let r := meter gasTable env contract instr mem s in
  let self := contract_Address contract in
  let creates :=
    if IsEIP158 env
    then Empty (Db env) (BigToAddress top) && (0 <? BitLen (GetBalance db self))
    else negb (Exist (Db env) (BigToAddress top)) in
  r.1 = Ok (0,
            if 0 <? CreateBySuicide gasTable then
              if creates
              then u64 (u64 (i_gas instr + Suicide gasTable)
                        + CreateBySuicide gasTable)
              else u64 (i_gas instr + Suicide gasTable)
            else i_gas instr) /\
  stack_data r.2 = st ++ [top] /\
  refund (statedb r.2) =
    refund db + (if HasSuicided db self then 0 else SuicideRefundGas P).
Proof.
  intros Hop Hpop s r self creates. subst s r self creates.
  unfold calculateGasAndSize, baseCalc, meterOp. rewrite Hop.
  run_meter.
  repeat (match goal with
          | |- context [if negb ?b then _ else _] => destruct b
          | |- context [if ?b then _ else _] => destruct b
          end;
          run_meter; cbn [andb negb fst snd stack_data statedb refund]);
    rewrite ?word_size_zero; repeat split; lia.
Qed.

(** ** The memory size of [CALL] and [CALLCODE] *)

(** X20: for every [CALL] and [CALLCODE] that the meter accepts, with the
    two regions (offset, length) read from stack items 6, 7 and 4, 5 from the
    top, the memory size returned is the larger of the two region ends, each
    rounded up to a multiple of 32. *)
Theorem X20_call_memory_size_is_the_larger_region
    (gasTable : GasTable) (env : Environment) (contract : Contract)
    (instr : instruction) (mem : Memory) (db : Database) (s' : MeterState)
    (st : list Z) (xl xo yl yo value to requested sz gas : Z) :
  i_op instr = CALL \/ i_op instr = CALLCODE ->
  0 <= xo -> 0 <= xl -> 0 <= yo -> 0 <= yl ->
  meter gasTable env contract instr mem
        (mkMeterState (st ++ [xl; xo; yl; yo; value; to; requested]) db)
    = (Ok (sz, gas), s') ->
  sz = Z.max (toWordSize (xo + xl) * 32) (toWordSize (yo + yl) * 32).
Proof.
  intros Hop Hxo Hxl Hyo Hyl H.
  assert (Hsz : exists x y,
            calcMemSize xo xl = (x, false) /\ calcMemSize yo yl = (y, false) /\
            sz = u64 (toWordSize (if x <? y then y else x) * 32)).
  { open_call H.
    destruct Hop as [Hop|Hop]; rewrite Hop in H; crunch_call H;
      injection H as <- <- <-;
      repeat match goal with b : bool |- _ => destruct b end;
      cbn [negb] in *; try congruence;
      eexists _, _; (split; [reflexivity|]); (split; [reflexivity|]);
      first [ match goal with E : (_ <? _) = _ |- _ => rewrite E end; reflexivity
            | reflexivity ]. }
  destruct Hsz as (x & y & Ex & Ey & ->).
  destruct (calcMemSize_ok _ _ _ Ex) as [-> Hx].
  destruct (calcMemSize_ok _ _ _ Ey) as [-> Hy].
  pose proof (toWordSize_nonneg (xo + xl)).
  pose proof (toWordSize_nonneg (yo + yl)).
  destruct (Z.ltb_spec (toWordSize (xo + xl) * 32) (toWordSize (yo + yl) * 32));
    rewrite toWordSize_words; rewrite u64_small by lia; lia.
Qed.

(** ** The sub-call gas of [DELEGATECALL] *)

(** X21: for every [DELEGATECALL] whose two regions raise no size fault
    and whose requested gas (the top stack item) fits 64 bits, with [c] the
    gas consumed before forwarding ([Calls] plus the memory charge) at most
    the contract's gas [A]: the forwarded gas is
    [min(requested, A - c - floor((A - c) / 64))], it replaces the top stack
    item and is added to the gas returned; the rest of the stack and the
    state database are untouched. *)
Theorem X21_delegatecall_forwards_all_but_one_64th
    (gasTable : GasTable) (env : Environment) (contract : Contract)
    (instr : instruction) (mem : Memory) (db : Database)
    (st : list Z) (xl xo yl yo to requested x y : Z) :
  i_op instr = DELEGATECALL ->
  i_spop instr <= len (st ++ [xl; xo; yl; yo; to; requested]) ->
  0 <= requested < 2 ^ 64 ->
  calcMemSize xo xl = (x, false) -> calcMemSize yo yl = (y, false) ->
  let n := float64Max x y in
  let c := Calls gasTable + (calcQuadMemGas P mem n).1 in
  0 <= c <= gas64 contract -> gas64 contract < 2 ^ 64 ->
  let forwarded :=
    Z.min requested (gas64 contract - c - (gas64 contract - c) / 64) in
  meter gasTable env contract instr mem
        (mkMeterState (st ++ [xl; xo; yl; yo; to; requested]) db) =
    (Ok (u64 (toWordSize n * 32), c + forwarded),
     mkMeterState (st ++ [xl; xo; yl; yo; to; forwarded]) db).
Proof.
  intros Hop Hpop Hr Ex Ey n c Hc HA forwarded.
  unfold calculateGasAndSize, baseCalc, meterOp. rewrite Hop.
  repeat first [rewrite Ex | rewrite Ey | progress run_meter
               | progress cbn [negb]].
  unfold addMemGas. fold n.
  subst c. destruct (calcQuadMemGas P mem n) as [memGas flag]. cbn [fst] in *.
  run_meter. unfold IsAddSafe.
  destruct (Z.ltb_spec (Calls gasTable + memGas) (2 ^ 64)); [|lia].
  cbv beta iota. rewrite u64_small by lia.
  change (st ++ [xl; xo; yl; yo; to; requested])
    with (st ++ [xl; xo; yl; yo; to] ++ [requested]).
  rewrite app_assoc.
  rewrite callForward_eval by assumption. cbv beta iota.
  rewrite <- app_assoc. reflexivity.
Qed.

End Meter.

(** ** Stack reads that cannot go out of range *)

(** The deepest stack item, counted from the top, that a branch of the meter
    reads without asking [stack.require] first. *)
Definition reads (op : OpCode) : Z :=
  match op with
  | SUICIDE | MLOAD | MSTORE8 | MSTORE => 1
  | EXP | RETURN | SHA3 => 2
  | CALLDATACOPY | CODECOPY | CREATE => 3
  | EXTCODECOPY => 4
  | DELEGATECALL => 6
  | CALL | CALLCODE => 7
  | _ => 0
  end.

(** [safe k m]: on a stack of at least [k] items [m] does not panic and
    keeps the height of the stack. *)
Definition safe (k : Z) {A} (m : M A) : Prop :=
  forall s, k <= len (stack_data s) ->
    (m s).1 <> Panicked /\ len (stack_data (m s).2) = len (stack_data s).

Lemma safe_ret k {A} (a : A) : safe k (ret a).
Proof. intros s _. split; [discriminate|reflexivity]. Qed.

Lemma safe_fail k {A} (e : error) : safe k (@fail A e).
Proof. intros s _. split; [discriminate|reflexivity]. Qed.

Lemma safe_check k b e : safe k (check b e).
Proof. destruct b; [apply safe_ret|apply safe_fail]. Qed.

Lemma safe_read_statedb k {A} (f : Database -> A) : safe k (read_statedb f).
Proof. intros s _. split; [discriminate|reflexivity]. Qed.

Lemma safe_AddRefund k g : safe k (AddRefund g).
Proof. intros s _. split; [discriminate|reflexivity]. Qed.

Lemma safe_back k j : 1 <= j <= k -> safe k (back j).
Proof.
  intros Hj s Hs. unfold back.
  destruct (Z.ltb_spec (len (stack_data s) - j) 0); [lia|].
  destruct (Z.leb_spec (len (stack_data s)) (len (stack_data s) - j)); [lia|].
  cbn [orb].
  destruct (stack_data s !! Z.to_nat (len (stack_data s) - j)) eqn:E.
  - split; [discriminate|reflexivity].
  - apply lookup_ge_None in E. unfold len in *. lia.
Qed.

Lemma safe_set_back k j v : 1 <= j <= k -> safe k (set_back j v).
Proof.
  intros Hj s Hs. unfold set_back.
  destruct (Z.ltb_spec (len (stack_data s) - j) 0); [lia|].
  destruct (Z.leb_spec (len (stack_data s)) (len (stack_data s) - j)); [lia|].
  cbn [orb fst snd stack_data]. split; [discriminate|].
  unfold len. rewrite length_insert. reflexivity.
Qed.

Lemma safe_bind k {A B} (m : M A) (f : A -> M B) :
  safe k m -> (forall a, safe k (f a)) -> safe k (bindM m f).
Proof.
  intros Hm Hf s Hs. unfold bindM. destruct (Hm s Hs) as [Hnp Hl].
  destruct (m s) as [[a|e|] s1]; cbn [fst snd] in *.
  - destruct (Hf a s1) as [Hnp' Hl']; [lia|]. split; [exact Hnp'|lia].
  - split; [discriminate|exact Hl].
  - congruence.
Qed.

(** After [stack.require(n)] the stack is known to hold [n] items. *)
Lemma safe_require_bind k n v {B} (f : unit -> M B) :
  Z.max k n = v -> (forall u, safe v (f u)) -> safe k (bindM (require n) f).
Proof.
  intros Hv Hf s Hs. unfold bindM, require.
  destruct (Z.ltb_spec (len (stack_data s)) n).
  - split; [discriminate|reflexivity].
  - apply Hf. lia.
Qed.

Lemma safe_addMemGas (P : ProtocolParams) k mem gas n :
  safe k (addMemGas P mem gas n).
Proof.
  unfold addMemGas. destruct (calcQuadMemGas P mem n).
  apply safe_bind; [apply safe_check|]. intros _. apply safe_ret.
Qed.

Lemma safe_copyWords (P : ProtocolParams) k gas off l wordGas :
  safe k (copyWords gas off l wordGas).
Proof.
  unfold copyWords. destruct (calcMemSize off l).
  repeat (apply safe_bind; [apply safe_check|intros _]).
  apply safe_ret.
Qed.

Create HintDb meter_safe.

#[local] Hint Resolve safe_ret safe_fail safe_check safe_read_statedb
  safe_AddRefund safe_addMemGas safe_copyWords : meter_safe.

Ltac safe_tac :=
  repeat first
    [ progress cbv beta zeta
    | match goal with
      | |- safe ?k (bindM (require ?n) _) =>
          let v := eval vm_compute in (Z.max k n) in
          apply (safe_require_bind k n v); [vm_compute; reflexivity|intro]
      | |- safe _ (back _) => apply safe_back; lia
      | |- safe _ (set_back _ _) => apply safe_set_back; lia
      | |- safe _ (if ?b then _ else _) => destruct b
      | |- safe _ (let '(_, _) := ?p in _) => destruct p
      end
    | apply safe_bind; [|intro]
    | solve [auto with meter_safe] ].

Section Meter.

Variable P : ProtocolParams.
Variable float64Max : Z -> Z -> Z.

Local Abbreviation meter := (calculateGasAndSize P float64Max).

Lemma meterOp_safe gasTable env contract instr mem gas :
  safe (reads (i_op instr))
       (meterOp P float64Max gasTable env contract instr mem gas).
Proof.
  unfold meterOp, reads.
  destruct (i_op instr); cbv beta iota zeta; unfold peek; safe_tac.
Qed.

(** X22: the meter indexes the stack without bounds checks of its own, but
    never out of range once the stack holds the items its branch reads (1
    for [SUICIDE] and the memory loads and stores, 2 for [EXP], [RETURN] and
    [SHA3], 3 for [CALLDATACOPY], [CODECOPY] and [CREATE], 4 for
    [EXTCODECOPY], 6 for [DELEGATECALL], 7 for [CALL] and [CALLCODE]): when
    the instruction's pop count or the stack height covers that number, the
    meter returns a result or an error and does not panic. *)
Theorem X22_meter_reads_no_stack_item_out_of_range
    (gasTable : GasTable) (env : Environment) (contract : Contract)
    (instr : instruction) (mem : Memory) (s : MeterState) :
  reads (i_op instr) <= i_spop instr \/
  reads (i_op instr) <= len (stack_data s) ->
  (exists r, (meter gasTable env contract instr mem s).1 = Ok r) \/
  (exists e, (meter gasTable env contract instr mem s).1 = Err e).
Proof.
  intros Hk.
  assert (Hnp : (meter gasTable env contract instr mem s).1 <> Panicked).
  { unfold calculateGasAndSize, baseCalc.
    unfold bindM at 1 2. unfold require.
    destruct (Z.ltb_spec (len (stack_data s)) (i_spop instr)) as [Hlt|Hge];
      [discriminate|].
    unfold ret at 1. cbv beta iota.
    assert (Hlen : reads (i_op instr) <= len (stack_data s)) by lia.
    unfold bindM at 1.
    destruct (meterOp_safe gasTable env contract instr mem (i_gas instr) s Hlen)
      as [Hnp _].
    destruct (meterOp P float64Max gasTable env contract instr mem (i_gas instr) s)
      as [[[[n f] g]|e|] s1]; cbn [fst] in *; try congruence; try discriminate.
    unfold bindM, check, ret, fail. destruct f; discriminate. }
  destruct (meter gasTable env contract instr mem s).1 as [r|e|];
    [left; exists r; reflexivity|right; exists e; reflexivity|congruence].
Qed.

(** ** [DUP] and [SWAP] *)

(** X23: for [DUP_n] the meter asks for [n] stack items and for [SWAP_n]
    for [n + 1], on top of the pop count of the instruction: with fewer
    items it returns a stack underflow error, and otherwise memory size 0 and
    the gas [GasFastestStep64], whatever the base gas; the state is left as
    it was. *)
Theorem X23_dup_and_swap_check_their_own_depth
    (gasTable : GasTable) (env : Environment) (contract : Contract)
    (instr : instruction) (mem : Memory) (s : MeterState) (n : Z) :
  (op_le DUP1 (i_op instr) && op_le (i_op instr) DUP16 = true /\
   n = opnum (i_op instr) - opnum DUP1 + 1) \/
  (op_le SWAP1 (i_op instr) && op_le (i_op instr) SWAP16 = true /\
   n = opnum (i_op instr) - opnum SWAP1 + 2) ->
  meter gasTable env contract instr mem s =
    (if (len (stack_data s) <? i_spop instr) || (len (stack_data s) <? n)
     then Err StackUnderflowError
     else Ok (0, GasFastestStep64 P), s).
Proof.
  intros Hop. unfold calculateGasAndSize, baseCalc, meterOp.
  destruct (i_op instr);
    (destruct Hop as [[Hop ->]|[Hop ->]]; try discriminate Hop); clear Hop;
    cbv [bindM ret check fail require];
    destruct (len (stack_data s) <? i_spop instr); cbv beta iota;
    try reflexivity;
    match goal with
    | |- context [len (stack_data s) <? ?a] =>
        let v := eval vm_compute in a in change a with v
    end;
    match goal with
    | |- context [_ || (len (stack_data s) <? ?a)] =>
        let v := eval vm_compute in a in change a with v
    end;
    destruct (len (stack_data s) <? _); reflexivity.
Qed.

End Meter.

(** ** Runs on concrete inputs *)

Local Abbreviation sample_meter :=
  (calculateGasAndSize sample_params sample_float64Max sample_gasTable
                       sample_env).

(** X18 on an [MLOAD] at offset 33. *)
Lemma X18_witness : 96 mod 32 = 0 /\ 0 <= 96 < 2 ^ 64.
Proof.
  destruct (X18_memory_size_is_a_multiple_of_32_and_0_without_region
              sample_params sample_float64Max sample_gasTable sample_env
              (mkContract 0 0) (sample_instr MLOAD (mkReq 1 3 1)) (mkMemory [])
              (mkMeterState [33] (sample_db 0 0))
              (mkMeterState [33] (sample_db 0 0)) 96 12)
    as (H1 & H2 & _); [reflexivity|].
  split; [exact H1|exact H2].
Defined.

(** X19 on the sample world: 5000 gas. *)
Lemma X19_witness :
  (sample_meter (mkContract 0 100000) (sample_instr SUICIDE (mkReq 1 0 0))
     (mkMemory []) (mkMeterState ([] ++ [7]) (sample_db 0 0))).1
  = Ok (0, 5000).
Proof.
  destruct (X19_suicide_gas_and_single_refund
              sample_params sample_float64Max sample_gasTable sample_env
              (mkContract 0 100000) (sample_instr SUICIDE (mkReq 1 0 0))
              (mkMemory []) (sample_db 0 0) [] 7)
    as (H & _); [reflexivity|vm_compute; discriminate|].
  exact H.
Defined.

(** X20 on regions of 32 and 64 bytes. *)
Lemma X20_witness : 64 = Z.max (toWordSize (0 + 32) * 32) (toWordSize (0 + 64) * 32).
Proof.
  apply (X20_call_memory_size_is_the_larger_region
           sample_params sample_float64Max sample_gasTable sample_env
           (mkContract 0 100000) (sample_instr CALL (mkReq 7 40 1)) (mkMemory [])
           (sample_db 0 0) (mkMeterState [32; 0; 64; 0; 0; 1; 100] (sample_db 0 0))
           [] 32 0 64 0 0 1 100 64 806);
    [left; reflexivity|lia|lia|lia|lia|reflexivity].
Defined.

(** X21 on the sample world: 100 requested, 100 forwarded. *)
Lemma X21_witness :
  sample_meter (mkContract 0 100000) (sample_instr DELEGATECALL (mkReq 6 40 1))
    (mkMemory []) (mkMeterState ([] ++ [32; 0; 64; 0; 1; 100]) (sample_db 0 0))
  = (Ok (64, 806), mkMeterState ([] ++ [32; 0; 64; 0; 1; 100]) (sample_db 0 0)).
Proof.
  apply (X21_delegatecall_forwards_all_but_one_64th
           sample_params sample_float64Max sample_gasTable sample_env
           (mkContract 0 100000) (sample_instr DELEGATECALL (mkReq 6 40 1))
           (mkMemory []) (sample_db 0 0) [] 32 0 64 0 1 100 32 64);
    [reflexivity|vm_compute; discriminate|lia|reflexivity|reflexivity
    |vm_compute; split; discriminate|reflexivity].
Defined.

(** X22 on a [CALL] whose pop count is 7. *)
Lemma X22_witness :
  (exists r,
     (sample_meter (mkContract 0 100000) (sample_instr CALL (mkReq 7 40 1))
        (mkMemory []) (mkMeterState [32; 0; 64; 0; 0; 1; 100] (sample_db 0 0))).1
     = Ok r) \/
  (exists e,
     (sample_meter (mkContract 0 100000) (sample_instr CALL (mkReq 7 40 1))
        (mkMemory []) (mkMeterState [32; 0; 64; 0; 0; 1; 100] (sample_db 0 0))).1
     = Err e).
Proof.
  apply (X22_meter_reads_no_stack_item_out_of_range
           sample_params sample_float64Max sample_gasTable sample_env
           (mkContract 0 100000) (sample_instr CALL (mkReq 7 40 1)) (mkMemory [])
           (mkMeterState [32; 0; 64; 0; 0; 1; 100] (sample_db 0 0))).
  left. cbn [reads sample_instr i_op i_spop stackPop]. lia.
Defined.

(** X23 on a [DUP2] over a stack of one item. *)
Lemma X23_witness :
  sample_meter (mkContract 0 0) (sample_instr DUP2 (mkReq 1 3 2)) (mkMemory [])
    (mkMeterState [5] (sample_db 0 0))
  = (Err StackUnderflowError, mkMeterState [5] (sample_db 0 0)).
Proof.
  apply (X23_dup_and_swap_check_their_own_depth
           sample_params sample_float64Max sample_gasTable sample_env
           (mkContract 0 0) (sample_instr DUP2 (mkReq 1 3 2)) (mkMemory [])
           (mkMeterState [5] (sample_db 0 0)) 2).
  left. split; reflexivity.
Defined.

End MeterProps.

(** * Facts about the decoder and the program cache *)

Module DecoderFacts.
Import VM.

Section Decoder.

Variable _baseCheck : OpCode -> req.
Variable getData : list byte -> Z -> Z -> list byte.

Local Abbreviation compile_op := (compile_op _baseCheck getData).
Local Abbreviation compile_loop := (compile_loop _baseCheck getData).
Local Abbreviation CompileProgram := (CompileProgram _baseCheck getData).
Local Abbreviation emitted := (emitted _baseCheck getData).
Local Abbreviation decodes := (decodes _baseCheck getData).

(** ** One turn of the switch *)

Lemma compile_op_effect (p : Program) (pc : Z) (op : OpCode) :
  compile_op p pc op =
    (mkProgram (Id p) (status p)
       (instructions p ++ emitted (code p) pc op)
       (<[pc := u64 (len (instructions p ++ emitted (code p) pc op) - 1)]>
          (mapping p))
       (if bool_decide (op = JUMPDEST) then {[ pc ]} ∪ destinations p
        else destinations p)
       (code p),
     if is_push op then u64 (pc + pushsize op) else pc).
Proof. destruct op; reflexivity. Qed.

Lemma emitted_spec (code : list byte) (pc : Z) (op : OpCode) :
  exists instr,
    emitted code pc op = [instr] /\ i_op instr = op /\ i_pc instr = pc /\
    (is_push op = true ->
       i_fn instr = Some opPush /\
       i_data instr =
         Some (Bytes2Big (getData code (u64 (pc + 1)) (pushsize op)))).
Proof.
  destruct op; eexists; (split; [reflexivity|]);
    (split; [reflexivity|]); (split; [reflexivity|]);
    intros H; try discriminate H; split; reflexivity.
Qed.

Lemma pushsize_range op : 0 <= pushsize op <= 32.
Proof. destruct op; vm_compute; split; discriminate. Qed.

Lemma pushsize_not_push op : is_push op = false -> pushsize op = 0.
Proof. unfold pushsize. intros ->. reflexivity. Qed.

Lemma emitted_inv code pc op instr :
  emitted code pc op = [instr] ->
  i_op instr = op /\ i_pc instr = pc /\
  (is_push op = true ->
     i_fn instr = Some opPush /\
     i_data instr =
       Some (Bytes2Big (getData code (u64 (pc + 1)) (pushsize op)))).
Proof.
  intros E. destruct (emitted_spec code pc op) as (i0 & E0 & H).
  rewrite E0 in E. injection E as <-. exact H.
Qed.

Lemma len_app_suffix_instr (l : list instruction) (x : instruction) :
  len (l ++ [x]) = len l + 1.
Proof. unfold len. rewrite length_app. simpl length. lia. Qed.

(** ** The instructions of a decoded program *)

Lemma decodes_pc_range code pc l :
  decodes code pc l -> forall x, x ∈ l -> pc <= i_pc x < len code.
Proof.
  induction 1 as [pc Hpc|pc op instr l Hpc Hop Hem Hd IH]; intros x Hx.
  - inversion Hx.
  - destruct (emitted_inv _ _ _ _ Hem) as (_ & Epc & _).
    pose proof (pushsize_range op).
    apply elem_of_cons in Hx. destruct Hx as [->|Hx]; [lia|].
    specialize (IH x Hx). lia.
Qed.

(** Instructions follow one another past the immediate bytes. *)
Lemma decodes_gap code pc l :
  decodes code pc l ->
  forall (i j : nat) a b,
    l !! i = Some a -> l !! j = Some b -> (i < j)%nat ->
    i_pc a + pushsize (i_op a) < i_pc b.
Proof.
  induction 1 as [pc Hpc|pc op instr l Hpc Hop Hem Hd IH]; intros i j a b Ha Hb Hij.
  - rewrite lookup_nil in Ha. discriminate.
  - destruct j as [|j]; [lia|]. cbn in Hb.
    destruct i as [|i].
    + cbn in Ha. injection Ha as <-.
      destruct (emitted_inv _ _ _ _ Hem) as (Eop & Epc & _).
      assert (Hin : b ∈ l) by (eapply list_elem_of_lookup_2; eassumption).
      pose proof (decodes_pc_range _ _ _ Hd b Hin). rewrite Eop, Epc. lia.
    + cbn in Ha. apply (IH i j a b Ha Hb). lia.
Qed.

Lemma decodes_code code pc l :
  decodes code pc l ->
  forall x, x ∈ l -> code !! Z.to_nat (i_pc x) = Some (i_op x).
Proof.
  induction 1 as [pc Hpc|pc op instr l Hpc Hop Hem Hd IH]; intros x Hx.
  - inversion Hx.
  - apply elem_of_cons in Hx. destruct Hx as [->|Hx]; [|apply IH; exact Hx].
    destruct (emitted_inv _ _ _ _ Hem) as (-> & -> & _). exact Hop.
Qed.

Lemma decodes_boundary_sound code pc l :
  decodes code pc l -> boundary code pc ->
  forall x, x ∈ l -> boundary code (i_pc x).
Proof.
  induction 1 as [pc Hpc|pc op instr l Hpc Hop Hem Hd IH]; intros Hb x Hx.
  - inversion Hx.
  - apply elem_of_cons in Hx. destruct Hx as [->|Hx].
    + destruct (emitted_inv _ _ _ _ Hem) as (_ & -> & _). exact Hb.
    + apply IH; [|exact Hx]. apply boundary_next; assumption.
Qed.

Lemma decodes_boundary_suffix code l q :
  boundary code q -> decodes code 0 l ->
  exists l1 l2, l = l1 ++ l2 /\ decodes code q l2.
Proof.
  induction 1 as [|pc op Hb IH Hop]; intros Hd.
  - exists [], l. split; [reflexivity|exact Hd].
  - destruct (IH Hd) as (l1 & l2 & -> & Hd2).
    inversion Hd2 as [pc' Hge E1 E2|pc' op' instr l' Hpc Hop' Hem Hd' E1 E2];
      subst.
    + exfalso. apply lookup_lt_Some in Hop. unfold len in Hge. lia.
    + rewrite Hop in Hop'. injection Hop' as <-.
      exists (l1 ++ [instr]), l'. split; [|exact Hd'].
      rewrite <- app_assoc. reflexivity.
Qed.

Lemma decodes_boundary_complete code l q :
  boundary code q -> decodes code 0 l -> q < len code ->
  exists x, x ∈ l /\ i_pc x = q.
Proof.
  intros Hb Hd Hq.
  destruct (decodes_boundary_suffix _ _ _ Hb Hd) as (l1 & l2 & -> & Hd2).
  inversion Hd2 as [pc' Hge E1 E2|pc' op' instr l' Hpc Hop' Hem Hd' E1 E2];
    subst.
  - lia.
  - exists instr. split; [set_solver|].
    destruct (emitted_inv _ _ _ _ Hem) as (_ & Epc & _). exact Epc.
Qed.

Lemma boundary_nonneg code q : boundary code q -> 0 <= q.
Proof.
  induction 1 as [|pc op Hb IH Hop]; [lia|].
  pose proof (pushsize_range op). lia.
Qed.

(** ** The decoding loop *)

(** What the loop, started at [pc] on [p], leaves in the program [p']:
    the instructions [l] appended, each mapped from its program counter to its
    index, and the [JUMPDEST]s among them registered. *)
Record extends (p p' : Program) (l : list instruction) : Prop := {
  ext_Id : Id p' = Id p;
  ext_status : status p' = status p;
  ext_code : code p' = code p;
  ext_instructions : instructions p' = instructions p ++ l;
  ext_destinations : forall q,
    q ∈ destinations p' <->
    q ∈ destinations p \/
    exists x, x ∈ l /\ i_pc x = q /\ i_op x = JUMPDEST;
  ext_mapping_new : forall (j : nat) x,
    l !! j = Some x ->
    mapping p' !! i_pc x = Some (len (instructions p) + Z.of_nat j);
  ext_mapping_old : forall q,
    (forall x, x ∈ l -> i_pc x <> q) -> mapping p' !! q = mapping p !! q
}.

Lemma extends_refl p : extends p p [].
Proof.
  constructor; try reflexivity.
  - rewrite app_nil_r. reflexivity.
  - intros q. split; [tauto|]. intros [H|(x & Hx & _)]; [exact H|inversion Hx].
  - intros j x Hx. rewrite lookup_nil in Hx. discriminate.
Qed.

Lemma compile_loop_decodes fuel : forall p pc,
  len (code p) < 2 ^ 63 -> 0 <= pc -> len (instructions p) <= pc ->
  len (code p) - pc <= Z.of_nat fuel ->
  exists p' l,
    compile_loop fuel p pc = Ret p' /\ decodes (code p) pc l /\ extends p p' l.
Proof.
  induction fuel as [|fuel IH]; intros p pc Hlen Hpc Hins Hfuel;
    pose proof (len_nonneg (code p)) as Hlen0;
    cbn [VM.compile_loop]; rewrite (u64_small (len (code p))) by lia;
    destruct (Z.ltb_spec pc (len (code p))) as [Hlt|Hge]; try lia.
  1,3: exists p, []; (split; [reflexivity|]); (split; [constructor; lia|]);
    apply extends_refl.
  destruct (code p !! Z.to_nat pc) as [op|] eqn:Hop.
  2:{ apply lookup_ge_None in Hop. unfold len in Hlt. lia. }
  rewrite compile_op_effect.
  destruct (emitted_spec (code p) pc op) as (instr & Hem & Eop & Epc & Hpush).
  rewrite Hem.
  pose proof (pushsize_range op) as Hps.
  assert (Enext : u64 ((if is_push op then u64 (pc + pushsize op) else pc) + 1)
                  = pc + pushsize op + 1).
  { destruct (is_push op) eqn:Eip.
    - rewrite (u64_small (pc + pushsize op)) by lia. apply u64_small. lia.
    - rewrite (pushsize_not_push op Eip). rewrite u64_small by lia. lia. }
  rewrite Enext.
  assert (Eidx : u64 (len (instructions p ++ [instr]) - 1) = len (instructions p)).
  { rewrite len_app_suffix_instr.
    replace (len (instructions p) + 1 - 1) with (len (instructions p)) by lia.
    apply u64_small. pose proof (len_nonneg (instructions p)). lia. }
  rewrite Eidx.
  set (p1 := mkProgram (Id p) (status p) (instructions p ++ [instr])
               (<[pc := len (instructions p)]> (mapping p))
               (if bool_decide (op = JUMPDEST) then {[ pc ]} ∪ destinations p
                else destinations p) (code p)).
  destruct (IH p1 (pc + pushsize op + 1)) as (p' & l & Erun & Hd & Hext);
    cbn [code instructions p1]; try lia.
  { rewrite len_app_suffix_instr. lia. }
  exists p', (instr :: l). split; [exact Erun|].
  split; [econstructor; try eassumption; lia|].
  destruct Hext as [HId Hst Hco Hin Hde Hmn Hmo]. cbn [Id status code instructions
    mapping destinations p1] in *.
  pose proof (decodes_pc_range _ _ _ Hd) as Hrange.
  constructor; cbn [Id status code instructions mapping destinations];
    try assumption.
  + rewrite Hin, <- app_assoc. reflexivity.
  + intros q. rewrite Hde. split.
    * intros [Hq|(x & Hx & Hxq & Hxo)].
      -- destruct (bool_decide (op = JUMPDEST)) eqn:Ej; [|left; exact Hq].
         apply bool_decide_eq_true_1 in Ej.
         apply elem_of_union in Hq. destruct Hq as [Hq|Hq]; [|left; exact Hq].
         apply elem_of_singleton in Hq. right. exists instr.
         split; [set_solver|]. split; congruence.
      -- right. exists x. split; [set_solver|]. split; assumption.
    * intros [Hq|(x & Hx & Hxq & Hxo)]; [left|].
      -- destruct (bool_decide (op = JUMPDEST)); set_solver.
      -- apply elem_of_cons in Hx. destruct Hx as [->|Hx].
         ++ left. rewrite bool_decide_eq_true_2 by congruence.
            rewrite <- Hxq, Epc. set_solver.
         ++ right. exists x. split; [exact Hx|]. split; assumption.
  + intros j x Hx. destruct j as [|j].
    * cbn in Hx. injection Hx as <-. rewrite Hmo.
      -- rewrite Epc. rewrite lookup_insert_eq. f_equal. lia.
      -- intros y Hy. specialize (Hrange y Hy). lia.
    * cbn in Hx. rewrite (Hmn j x Hx). f_equal.
      rewrite len_app_suffix_instr. lia.
  + intros q Hq. rewrite Hmo.
    * apply lookup_insert_ne. intros ->. apply (Hq instr); [set_solver|].
      exact Epc.
    * intros y Hy. apply Hq. set_solver.
Qed.

(** ** [CompileProgram] on a new program *)

Variable Keccak256Hash : list byte -> Z.

Local Abbreviation NewProgram := (NewProgram Keccak256Hash).
Local Abbreviation fresh := (fresh Keccak256Hash).

Lemma NewProgram_heap code s :
  heap (NewProgram code s).2 !! (NewProgram code s).1 = Some (fresh code).
Proof.
  unfold VM.NewProgram. cbn [fst snd heap].
  rewrite list_lookup_middle by reflexivity. reflexivity.
Qed.

(** What [CompileProgram] leaves in a new program. *)
Record compiled (code : list byte) (p : Program) : Prop := {
  cp_status : status p = progReady;
  cp_code : VM.code p = code;
  cp_decodes : decodes code 0 (instructions p);
  cp_destinations : forall q,
    q ∈ destinations p <->
    exists x, x ∈ instructions p /\ i_pc x = q /\ i_op x = JUMPDEST;
  cp_mapping_new : forall (j : nat) x,
    instructions p !! j = Some x -> mapping p !! i_pc x = Some (Z.of_nat j);
  cp_mapping_old : forall q,
    (forall x, x ∈ instructions p -> i_pc x <> q) -> mapping p !! q = None
}.

(** [CompileProgram] returns on every new program, whatever the code. *)
Lemma CompileProgram_fresh code :
  len code < 2 ^ 63 ->
  exists p,
    CompileProgram (fresh code)
      = Ret (p, [(progUnknown, progCompile); (progCompile, progReady)])
    /\ compiled code p.
Proof.
  intros Hlen. unfold VM.CompileProgram, fresh. cbn [status].
  rewrite bool_decide_eq_false_2 by discriminate.
  unfold StoreStatus, set_status. cbn [Id status instructions mapping destinations VM.code].
  destruct (compile_loop_decodes (length code)
              (mkProgram (Keccak256Hash code) progCompile [] ∅ ∅ code) 0)
    as (p' & l & Erun & Hd & Hext); cbn [VM.code instructions]; try lia.
  { unfold len. simpl length. lia. }
  { unfold len. lia. }
  rewrite Erun. cbn [mbind outcome_bind].
  destruct Hext as [HId Hst Hco Hin Hde Hmn Hmo].
  cbn [Id status VM.code instructions mapping destinations] in *.
  rewrite app_nil_l in Hin. rewrite Hst.
  eexists. split; [reflexivity|].
  constructor; cbn [Id status VM.code instructions mapping destinations].
  - reflexivity.
  - exact Hco.
  - rewrite Hin. exact Hd.
  - intros q. rewrite Hde, Hin. split.
    + intros [H|H]; [set_solver|exact H].
    + intros H. right. exact H.
  - intros j x Hx. rewrite Hin in Hx. rewrite (Hmn j x Hx).
    f_equal.
  - intros q Hq. rewrite Hmo; [apply lookup_empty|].
    intros x Hx. apply Hq. rewrite Hin. exact Hx.
Qed.

Lemma compiled_dest_mapping code p q :
  compiled code p ->
  q ∈ destinations p <->
  exists idx instr,
    mapping p !! q = Some idx /\ instructions p !! Z.to_nat idx = Some instr /\
    i_op instr = JUMPDEST.
Proof.
  intros [_ _ Hd Hde Hmn Hmo]. rewrite Hde. split.
  - intros (x & Hx & Hq & Hop).
    apply list_elem_of_lookup in Hx. destruct Hx as [j Hj].
    exists (Z.of_nat j), x. rewrite <- Hq, (Hmn j x Hj), Nat2Z.id. auto.
  - intros (idx & instr & Hm & Hi & Hop).
    destruct (decide (Exists (fun x => i_pc x = q) (instructions p))) as [He|Hne].
    + apply Exists_exists in He. destruct He as (x & Hx & Hq).
      apply list_elem_of_lookup in Hx. destruct Hx as [j Hj].
      pose proof (Hmn j x Hj) as Hm'. rewrite Hq, Hm in Hm'.
      injection Hm' as ->. rewrite Nat2Z.id, Hj in Hi. injection Hi as ->.
      exists instr. split; [eapply list_elem_of_lookup_2; eassumption|]. auto.
    + rewrite Hmo in Hm; [discriminate|].
      intros x Hx Hq. apply Hne, Exists_exists. exists x. auto.
Qed.

Lemma compiled_dest_boundary code p q :
  compiled code p ->
  q ∈ destinations p <->
  boundary code q /\ code !! Z.to_nat q = Some JUMPDEST.
Proof.
  intros [_ _ Hd Hde _ _]. rewrite Hde. split.
  - intros (x & Hx & <- & Hop). split.
    + eapply decodes_boundary_sound; [exact Hd|constructor|exact Hx].
    + rewrite <- Hop. eapply decodes_code; eassumption.
  - intros [Hb Hc].
    pose proof (boundary_nonneg _ _ Hb) as H0.
    assert (Hq : q < len code).
    { apply lookup_lt_Some in Hc. unfold len. lia. }
    destruct (decodes_boundary_complete _ _ _ Hb Hd Hq) as (x & Hx & Hxq).
    exists x. split; [exact Hx|]. split; [exact Hxq|].
    pose proof (decodes_code _ _ _ Hd x Hx) as Hcx. rewrite Hxq, Hc in Hcx.
    congruence.
Qed.

(** No instruction starts inside the immediate bytes of another. *)
Lemma compiled_no_pc_in_immediate code p instr y :
  compiled code p -> instr ∈ instructions p -> y ∈ instructions p ->
  i_pc instr < i_pc y <= i_pc instr + pushsize (i_op instr) -> False.
Proof.
  intros [_ _ Hd _ _ _] Hi Hy Hq.
  apply list_elem_of_lookup in Hi. destruct Hi as [i Hi].
  apply list_elem_of_lookup in Hy. destruct Hy as [j Hj].
  destruct (lt_eq_lt_dec i j) as [[Hlt|Heq]|Hgt].
  - pose proof (decodes_gap _ _ _ Hd i j _ _ Hi Hj Hlt). lia.
  - subst j. rewrite Hi in Hj. injection Hj as <-. lia.
  - pose proof (decodes_gap _ _ _ Hd j i _ _ Hj Hi Hgt).
    pose proof (pushsize_range (i_op y)). lia.
Qed.

(** C7: for every code string (a Go slice, so shorter than [2^63]),
    [CompileProgram] on the program that [NewProgram] makes for it returns,
    and afterwards the program's jump destinations are exactly the program
    counters whose instruction, found through the pc map, is a [JUMPDEST],
    which are exactly the program counters at which a [JUMPDEST] byte is
    decoded as an opcode; a program counter inside the immediate bytes of a
    [PUSH] is not a jump destination, whatever byte lies there, and
    [validDest] is false for it. *)
Theorem C7_jump_destinations_are_decoded_jumpdests
    (s : Store) (code : list byte) :
  len code < 2 ^ 63 ->
  exists p ts,
    heap (NewProgram code s).2 !! (NewProgram code s).1 = Some (fresh code) /\
    CompileProgram (fresh code) = Ret (p, ts) /\
    (forall q,
       q ∈ destinations p <->
       exists idx instr,
         mapping p !! q = Some idx /\
         instructions p !! Z.to_nat idx = Some instr /\
         i_op instr = JUMPDEST) /\
    (forall q,
       q ∈ destinations p <->
       boundary code q /\ code !! Z.to_nat q = Some JUMPDEST) /\
    (forall instr q,
       instr ∈ instructions p -> is_push (i_op instr) = true ->
       i_pc instr < q <= i_pc instr + pushsize (i_op instr) ->
       (q ∉ destinations p) /\ validDest (destinations p) q = false /\
       (q < len code -> ~ boundary code q)).
Proof.
  intros Hlen. destruct (CompileProgram_fresh code Hlen) as (p & Erun & Hc).
  exists p, [(progUnknown, progCompile); (progCompile, progReady)].
  split; [apply NewProgram_heap|]. split; [exact Erun|].
  split; [intros q; apply (compiled_dest_mapping code); exact Hc|].
  split; [intros q; apply compiled_dest_boundary; exact Hc|].
  intros instr q Hin Hpush Hq.
  assert (Hnot : q ∉ destinations p).
  { intros Hd. apply (cp_destinations _ _ Hc) in Hd.
    destruct Hd as (y & Hy & Hyq & _).
    apply (compiled_no_pc_in_immediate code p instr y Hc Hin Hy). lia. }
  split; [exact Hnot|].
  pose proof (decodes_pc_range _ _ _ (cp_decodes _ _ Hc) instr Hin) as Hr.
  pose proof (pushsize_range (i_op instr)).
  split.
  - unfold validDest. destruct (Z.ltb_spec (2 ^ 64 - 1) q); [reflexivity|].
    apply bool_decide_eq_false_2. unfold Uint64.
    rewrite Z.abs_eq by lia. rewrite u64_small by lia. exact Hnot.
  - intros Hq' Hb.
    destruct (decodes_boundary_complete _ _ _ Hb (cp_decodes _ _ Hc) Hq')
      as (y & Hy & Hyq).
    apply (compiled_no_pc_in_immediate code p instr y Hc Hin Hy). lia.
Qed.

(** ** The status field *)

Lemma compile_loop_status fuel : forall p pc p',
  compile_loop fuel p pc = Ret p' -> status p' = status p.
Proof.
  induction fuel as [|fuel IH]; intros p pc p' H; cbn [VM.compile_loop] in H;
    destruct (pc <? u64 (len (code p))); try discriminate H;
    try (injection H as <-; reflexivity).
  destruct (code p !! Z.to_nat pc) as [op|]; [|discriminate H].
  rewrite compile_op_effect in H. apply IH in H. exact H.
Qed.

Lemma CompileProgram_transitions p p' ts :
  CompileProgram p = Ret (p', ts) ->
  (status p = progCompile /\ p' = p /\ ts = []) \/
  (status p <> progCompile /\ status p' = progReady /\
   ts = [(status p, progCompile); (progCompile, progReady)]).
Proof.
  unfold VM.CompileProgram. intros H.
  destruct (decide (status p = progCompile)) as [E|E].
  - rewrite bool_decide_eq_true_2 in H by exact E. injection H as <- <-. auto.
  - rewrite bool_decide_eq_false_2 in H by exact E. right.
    unfold StoreStatus in H. cbn [fst snd] in H.
    destruct (compile_loop _ _ 0) as [p2| |] eqn:Erun; try discriminate H.
    cbn [mbind outcome_bind] in H. injection H as <- <-.
    apply compile_loop_status in Erun. cbn [status set_status] in *.
    rewrite Erun. auto.
Qed.

Lemma GetProgramStatus_heap id s :
  heap (GetProgramStatus id s).2 = heap s.
Proof.
  unfold GetProgramStatus, GetProgram.
  destruct (lru_Get id (programs s)) as [o c]. cbn [heap].
  case_match; reflexivity.
Qed.

(** Between calls every program on the heap is unknown or ready. *)
Definition settled (s : Store) : Prop :=
  forall p, p ∈ heap s -> status p = progUnknown \/ status p = progReady.

Local Abbreviation do_call := (do_call _baseCheck getData Keccak256Hash).
Local Abbreviation do_calls := (do_calls _baseCheck getData Keccak256Hash).

Lemma do_call_settled c s s' ts :
  settled s -> do_call c s = Ret (s', ts) ->
  settled s' /\ forall ptr t, (ptr, t) ∈ ts -> code_transition t.
Proof.
  intros Hs H. destruct c as [code|ptr|id]; cbn [VM.do_call] in H.
  - injection H as <- <-. split; [|intros ptr t Ht; inversion Ht].
    intros p Hp. unfold VM.NewProgram in Hp. cbn [snd heap] in Hp.
    apply elem_of_app in Hp. destruct Hp as [Hp|Hp]; [apply Hs, Hp|].
    apply list_elem_of_singleton in Hp. subst p. left. reflexivity.
  - destruct (heap s !! ptr) as [p|] eqn:Hp; [|discriminate H].
    destruct (CompileProgram p) as [[p' ts']| |] eqn:Ec; try discriminate H.
    cbn [mbind outcome_bind] in H. injection H as <- <-.
    assert (Hst : status p = progUnknown \/ status p = progReady).
    { apply Hs. eapply list_elem_of_lookup_2. exact Hp. }
    apply CompileProgram_transitions in Ec.
    destruct Ec as [(E & _ & _)|(_ & Hready & ->)];
      [destruct Hst as [Hst|Hst]; rewrite Hst in E; discriminate|].
    split.
    + intros q Hq. cbn [heap] in Hq.
      apply list_elem_of_lookup in Hq. destruct Hq as [i Hi].
      destruct (decide (ptr = i)) as [->|Hne].
      * rewrite list_lookup_insert_eq in Hi
          by (eapply lookup_lt_Some; exact Hp).
        injection Hi as <-. right. exact Hready.
      * rewrite list_lookup_insert_ne in Hi by exact Hne.
        apply Hs. eapply list_elem_of_lookup_2. exact Hi.
    + intros ptr' t Ht. cbn [map] in Ht. unfold code_transition.
      apply elem_of_cons in Ht. destruct Ht as [Ht|Ht].
      * injection Ht as _ ->. destruct Hst as [-> | ->]; auto.
      * apply list_elem_of_singleton in Ht. injection Ht as _ ->. auto.
  - injection H as <- <-. split; [|intros ptr t Ht; inversion Ht].
    intros p Hp. apply Hs. rewrite GetProgramStatus_heap in Hp. exact Hp.
Qed.

Lemma do_calls_settled cs : forall s s' ts,
  settled s -> do_calls cs s = Ret (s', ts) ->
  settled s' /\ forall ptr t, (ptr, t) ∈ ts -> code_transition t.
Proof.
  induction cs as [|c cs IH]; intros s s' ts Hs H; cbn [VM.do_calls] in H.
  - injection H as <- <-. split; [exact Hs|]. intros ptr t Ht. inversion Ht.
  - destruct (do_call c s) as [[s1 ts1]| |] eqn:E1; try discriminate H.
    cbn [mbind outcome_bind] in H.
    destruct (do_calls cs s1) as [[s2 ts2]| |] eqn:E2; try discriminate H.
    cbn [mbind outcome_bind] in H. injection H as <- <-.
    destruct (do_call_settled _ _ _ _ Hs E1) as [Hs1 Ht1].
    destruct (IH _ _ _ Hs1 E2) as [Hs2 Ht2].
    split; [exact Hs2|]. intros ptr t Ht.
    apply elem_of_app in Ht. destruct Ht as [Ht|Ht]; eauto.
Qed.

(** C6, as amended: for every sequence of calls to [NewProgram],
    [CompileProgram] and [GetProgramStatus] from the initial cache, a
    program's status field only ever takes the transitions
    Unknown -> Compiling, Compiling -> Ready and Ready -> Compiling (a
    program that is ready is compiled again when [CompileProgram] is called
    on it); no other transition occurs, in particular none to Error. *)
Theorem C6_status_transitions (cs : list call) (s : Store)
    (ts : list (nat * transition)) :
  do_calls cs init = Ret (s, ts) ->
  forall ptr t, (ptr, t) ∈ ts -> code_transition t.
Proof.
  intros H. apply (do_calls_settled cs init s ts); [|exact H].
  intros p Hp. inversion Hp.
Qed.

(** ** Immediates that run past the end of the code *)







Lemma decodes_emitted code pc l :
  decodes code pc l ->
  forall x, x ∈ l -> emitted code (i_pc x) (i_op x) = [x].
Proof.
  induction 1 as [pc Hpc|pc op instr l Hpc Hop Hem Hd IH]; intros x Hx.
  - inversion Hx.
  - apply elem_of_cons in Hx. destruct Hx as [->|Hx]; [|apply IH; exact Hx].
    destruct (emitted_inv _ _ _ _ Hem) as (-> & -> & _). exact Hem.
Qed.


End Decoder.

(** ** Runs on concrete inputs *)

(** C7 on the scenario of the specification, [PUSH1 0x5B, STOP]. *)
Lemma C7_witness :
  exists p ts,
    CompileProgram sample_baseCheck sample_getData
      (fresh sample_Keccak256Hash [x60; x5b; x00])
      = Ret (p, ts) /\
    forall q,
      q ∈ destinations p <->
      boundary [x60; x5b; x00] q /\
      [x60; x5b; x00] !! Z.to_nat q = Some JUMPDEST.
Proof.
  destruct (C7_jump_destinations_are_decoded_jumpdests sample_baseCheck
              sample_getData sample_Keccak256Hash init [x60; x5b; x00])
    as (p & ts & _ & Erun & _ & Hb & _); [reflexivity|].
  exists p, ts. split; [exact Erun|exact Hb].
Defined.



(** C6 as stated fails on the code: a second [CompileProgram] on a program
    takes its status from Ready to Compiling. *)
Lemma C6_counterexample :
  exists s,
    do_calls sample_baseCheck sample_getData sample_Keccak256Hash
      [CallNewProgram [x5b]; CallCompileProgram 0; CallCompileProgram 0] init
    = Ret (s, [(0%nat, (progUnknown, progCompile));
               (0%nat, (progCompile, progReady));
               (0%nat, (progReady, progCompile));
               (0%nat, (progCompile, progReady))]) /\
    ~ spec_transition (progReady, progCompile).
Proof.
  eexists. split; [vm_compute; reflexivity|].
  intros [H|[H|H]]; discriminate H.
Qed.

(** The amended C6 on the same calls. *)
Lemma C6_witness : code_transition (progReady, progCompile).
Proof.
  eapply (C6_status_transitions
            sample_baseCheck sample_getData sample_Keccak256Hash
            [CallNewProgram [x5b]; CallCompileProgram 0; CallCompileProgram 0]
            _ _ _ 0%nat).
  Unshelve.
  4:{ vm_compute. reflexivity. }
  do 2 apply list_elem_of_further. apply list_elem_of_here.
Defined.

End DecoderFacts.

(** * More of the decoder: the pc map, the instruction array, recompiling
    and the cache *)

Module DecoderProps.
Import VM DecoderFacts.

Section Decoder.

Variable _baseCheck : OpCode -> req.
Variable getData : list byte -> Z -> Z -> list byte.
Variable Keccak256Hash : list byte -> Z.

Local Abbreviation compile_loop := (compile_loop _baseCheck getData).
Local Abbreviation CompileProgram := (CompileProgram _baseCheck getData).
Local Abbreviation emitted := (emitted _baseCheck getData).
Local Abbreviation decodes := (decodes _baseCheck getData).
Local Abbreviation compiled := (compiled _baseCheck getData).
Local Abbreviation fresh := (fresh Keccak256Hash).
Local Abbreviation NewProgram := (NewProgram Keccak256Hash).
Local Abbreviation do_call := (do_call _baseCheck getData Keccak256Hash).

(** ** The pc map *)

(** X9: after [CompileProgram] on a new program the pc map is the inverse
    of the instruction array: [mapping[pc] = idx] exactly when [idx] is the
    index of an instruction whose program counter is [pc]. *)
Theorem X9_pc_map_inverts_the_instruction_array (code : list byte) :
  len code < 2 ^ 63 ->
  exists p ts,
    CompileProgram (fresh code) = Ret (p, ts) /\
    forall pc idx,
      mapping p !! pc = Some idx <->
      0 <= idx /\
      exists instr,
        instructions p !! Z.to_nat idx = Some instr /\ i_pc instr = pc.
Proof.
  intros Hlen.
  destruct (CompileProgram_fresh _baseCheck getData Keccak256Hash code Hlen)
    as (p & Erun & [_ _ Hd _ Hmn Hmo]).
  exists p, [(progUnknown, progCompile); (progCompile, progReady)].
  split; [exact Erun|]. intros pc idx. split.
  - intros Hm.
    destruct (decide (Exists (fun x => i_pc x = pc) (instructions p))) as [He|Hne].
    + apply Exists_exists in He. destruct He as (x & Hx & Hq).
      apply list_elem_of_lookup in Hx. destruct Hx as [j Hj].
      pose proof (Hmn j x Hj) as Hm'. rewrite Hq, Hm in Hm'.
      injection Hm' as ->. split; [lia|]. exists x. rewrite Nat2Z.id. auto.
    + rewrite Hmo in Hm; [discriminate|].
      intros x Hx Hq. apply Hne, Exists_exists. exists x. auto.
  - intros (Hidx & instr & Hi & <-). rewrite (Hmn _ _ Hi). f_equal. lia.
Qed.

(** ** The instructions tile the code *)

Lemma decodes_chain code pc l :
  decodes code pc l ->
  (forall a, l !! 0%nat = Some a -> i_pc a = pc) /\
  (forall (j : nat) a b,
     l !! j = Some a -> l !! S j = Some b ->
     i_pc b = i_pc a + pushsize (i_op a) + 1) /\
  (forall a, last l = Some a -> len code <= i_pc a + pushsize (i_op a) + 1) /\
  (l = [] -> len code <= pc) /\
  len l <= Z.max 0 (len code - pc).
Proof.
  induction 1 as [pc Hpc|pc op instr l Hpc Hop Hem Hd IH].
  - repeat split; try (intros; discriminate); try (intros; lia).
    rewrite len_nil. lia.
  - destruct IH as (Hhd & Hnext & Hlast & Hnil & Hlen).
    destruct (emitted_inv _ _ _ _ _ _ Hem) as (Eop & Epc & _).
    pose proof (pushsize_range op) as Hps.
    repeat split.
    + intros a [= <-]. exact Epc.
    + intros j a b Ha Hb. destruct j as [|j].
      * cbn in Ha, Hb. injection Ha as <-. rewrite Eop, Epc. apply Hhd, Hb.
      * cbn in Ha, Hb. eapply Hnext; eassumption.
    + intros a Ha. destruct l as [|y l].
      * cbn in Ha. injection Ha as <-. rewrite Eop, Epc. apply Hnil. reflexivity.
      * apply Hlast. exact Ha.
    + discriminate.
    + rewrite len_cons. lia.
Qed.

(** X10: after [CompileProgram] on a new program the instructions tile the
    code: the first starts at pc 0, each next one starts right after the
    opcode and immediate bytes of the one before, the last one reaches the
    end of the code, the opcode of each is the code byte at its pc, and
    there are no instructions exactly when the code is empty (never more
    than code bytes). *)
Theorem X10_instructions_tile_the_code (code : list byte) :
  len code < 2 ^ 63 ->
  exists p ts,
    CompileProgram (fresh code) = Ret (p, ts) /\
    (forall a, instructions p !! 0%nat = Some a -> i_pc a = 0) /\
    (forall (j : nat) a b,
       instructions p !! j = Some a -> instructions p !! S j = Some b ->
       i_pc b = i_pc a + pushsize (i_op a) + 1) /\
    (forall a, last (instructions p) = Some a ->
               len code <= i_pc a + pushsize (i_op a) + 1) /\
    (forall a, a ∈ instructions p ->
               code !! Z.to_nat (i_pc a) = Some (i_op a)) /\
    (instructions p = [] <-> code = []) /\
    len (instructions p) <= len code.
Proof.
  intros Hlen.
  destruct (CompileProgram_fresh _baseCheck getData Keccak256Hash code Hlen)
    as (p & Erun & [_ _ Hd _ _ _]).
  exists p, [(progUnknown, progCompile); (progCompile, progReady)].
  split; [exact Erun|].
  destruct (decodes_chain _ _ _ Hd) as (Hhd & Hnext & Hlast & Hnil & Hl).
  pose proof (len_nonneg code).
  repeat split; try assumption.
  - apply (decodes_code _ _ _ _ _ Hd).
  - intros E. apply len_zero_nil. specialize (Hnil E). lia.
  - intros ->.
    inversion Hd as [pc' Hge E1 E2|pc' op' instr l' Hpc Hop' Hem Hd' E1 E2].
    + reflexivity.
    + unfold len in Hpc. simpl in Hpc. lia.
  - lia.
Qed.

(** ** [validDest] on a compiled program *)

(** X11: on a new program that has not been compiled [validDest] is
    false for every destination; after [CompileProgram], for every
    non-negative destination, [validDest] is true exactly when the
    destination is a program counter the decoder stops at and the code byte
    there is [JUMPDEST]. *)
Theorem X11_validDest_accepts_exactly_the_decoded_jumpdests (code : list byte) :
  len code < 2 ^ 63 ->
  (forall dest, validDest (destinations (fresh code)) dest = false) /\
  exists p ts,
    CompileProgram (fresh code) = Ret (p, ts) /\
    forall dest,
      0 <= dest ->
      (validDest (destinations p) dest = true <->
       boundary code dest /\ code !! Z.to_nat dest = Some JUMPDEST).
Proof.
  intros Hlen. split.
  { intros dest. unfold validDest. cbn [destinations VM.fresh].
    destruct (2 ^ 64 - 1 <? dest); [reflexivity|].
    apply bool_decide_eq_false_2. set_solver. }
  destruct (CompileProgram_fresh _baseCheck getData Keccak256Hash code Hlen)
    as (p & Erun & Hc).
  exists p, [(progUnknown, progCompile); (progCompile, progReady)].
  split; [exact Erun|]. intros dest Hdest.
  rewrite <- (compiled_dest_boundary _baseCheck getData code p dest Hc).
  unfold validDest, Uint64. rewrite Z.abs_eq by lia.
  destruct (Z.ltb_spec (2 ^ 64 - 1) dest) as [Hbig|Hsmall].
  - split; [discriminate|]. intros Hin.
    apply (compiled_dest_boundary _baseCheck getData code p dest Hc) in Hin.
    destruct Hin as [_ Hin]. apply lookup_lt_Some in Hin. unfold len in Hlen. lia.
  - rewrite u64_small by lia. apply bool_decide_eq_true.
Qed.

(** ** Compiling a program a second time *)

(** The decoding loop on a program that already holds instructions: the
    instructions decoded from [pc] on are appended after them. *)
Lemma compile_loop_appends fuel : forall p pc,
  len (code p) < 2 ^ 63 -> 0 <= pc -> len (instructions p) < 2 ^ 63 + pc ->
  len (code p) - pc <= Z.of_nat fuel ->
  exists p' l,
    compile_loop fuel p pc = Ret p' /\ decodes (code p) pc l /\ extends p p' l.
Proof.
  induction fuel as [|fuel IH]; intros p pc Hlen Hpc Hins Hfuel;
    pose proof (len_nonneg (code p)) as Hlen0;
    cbn [VM.compile_loop]; rewrite (u64_small (len (code p))) by lia;
    destruct (Z.ltb_spec pc (len (code p))) as [Hlt|Hge]; try lia.
  1,3: exists p, []; (split; [reflexivity|]); (split; [constructor; lia|]);
    apply extends_refl.
  destruct (code p !! Z.to_nat pc) as [op|] eqn:Hop.
  2:{ apply lookup_ge_None in Hop. unfold len in Hlt. lia. }
  rewrite compile_op_effect.
  destruct (emitted_spec _baseCheck getData (code p) pc op)
    as (instr & Hem & Eop & Epc & Hpush).
  rewrite Hem.
  pose proof (pushsize_range op) as Hps.
  assert (Enext : u64 ((if is_push op then u64 (pc + pushsize op) else pc) + 1)
                  = pc + pushsize op + 1).
  { destruct (is_push op) eqn:Eip.
    - rewrite (u64_small (pc + pushsize op)) by lia. apply u64_small. lia.
    - rewrite (pushsize_not_push op Eip). rewrite u64_small by lia. lia. }
  rewrite Enext.
  assert (Eidx : u64 (len (instructions p ++ [instr]) - 1) = len (instructions p)).
  { rewrite len_app_suffix_instr.
    replace (len (instructions p) + 1 - 1) with (len (instructions p)) by lia.
    apply u64_small. pose proof (len_nonneg (instructions p)). lia. }
  rewrite Eidx.
  set (p1 := mkProgram (Id p) (status p) (instructions p ++ [instr])
               (<[pc := len (instructions p)]> (mapping p))
               (if bool_decide (op = JUMPDEST) then {[ pc ]} ∪ destinations p
                else destinations p) (code p)).
  destruct (IH p1 (pc + pushsize op + 1)) as (p' & l & Erun & Hd & Hext);
    cbn [code instructions p1]; try lia.
  { rewrite len_app_suffix_instr. lia. }
  exists p', (instr :: l). split; [exact Erun|].
  split; [econstructor; try eassumption; lia|].
  destruct Hext as [HId Hst Hco Hin Hde Hmn Hmo]. cbn [Id status code instructions
    mapping destinations p1] in *.
  pose proof (decodes_pc_range _ _ _ _ _ Hd) as Hrange.
  constructor; cbn [Id status code instructions mapping destinations];
    try assumption.
  + rewrite Hin, <- app_assoc. reflexivity.
  + intros q. rewrite Hde. split.
    * intros [Hq|(x & Hx & Hxq & Hxo)].
      -- destruct (bool_decide (op = JUMPDEST)) eqn:Ej; [|left; exact Hq].
         apply bool_decide_eq_true_1 in Ej.
         apply elem_of_union in Hq. destruct Hq as [Hq|Hq]; [|left; exact Hq].
         apply elem_of_singleton in Hq. right. exists instr.
         split; [set_solver|]. split; congruence.
      -- right. exists x. split; [set_solver|]. split; assumption.
    * intros [Hq|(x & Hx & Hxq & Hxo)]; [left|].
      -- destruct (bool_decide (op = JUMPDEST)); set_solver.
      -- apply elem_of_cons in Hx. destruct Hx as [->|Hx].
         ++ left. rewrite bool_decide_eq_true_2 by congruence.
            rewrite <- Hxq, Epc. set_solver.
         ++ right. exists x. split; [exact Hx|]. split; assumption.
  + intros j x Hx. destruct j as [|j].
    * cbn in Hx. injection Hx as <-. rewrite Hmo.
      -- rewrite Epc. rewrite lookup_insert_eq. f_equal. lia.
      -- intros y Hy. specialize (Hrange y Hy). lia.
    * cbn in Hx. rewrite (Hmn j x Hx). f_equal.
      rewrite len_app_suffix_instr. lia.
  + intros q Hq. rewrite Hmo.
    * apply lookup_insert_ne. intros ->. apply (Hq instr); [set_solver|].
      exact Epc.
    * intros y Hy. apply Hq. set_solver.
Qed.

(** The code fixes the instructions decoded from a program counter. *)
Lemma decodes_fun code pc l1 :
  decodes code pc l1 -> forall l2, decodes code pc l2 -> l1 = l2.
Proof.
  induction 1 as [pc Hpc|pc op instr l Hpc Hop Hem Hd IH]; intros l2 H2;
    inversion H2 as [pc' Hge E1 E2|pc' op' instr' l' Hpc' Hop' Hem' Hd' E1 E2];
    subst; try reflexivity; try lia.
  rewrite Hop in Hop'. injection Hop' as <-.
  rewrite Hem in Hem'. injection Hem' as <-.
  f_equal. apply IH. exact Hd'.
Qed.

(** X12: [CompileProgram] is not idempotent.  Called again on a program
    that is ready, it takes the status through Compiling back to Ready and
    decodes the code once more onto the same program: the instruction array
    becomes the old one followed by a copy of itself, the pc map now points
    every program counter to its instruction in the second copy, and the
    jump destinations stay the same. *)
Theorem X12_second_CompileProgram_appends_the_instructions_again
    (code : list byte) :
  len code < 2 ^ 63 ->
  exists p ts p2,
    CompileProgram (fresh code) = Ret (p, ts) /\
    CompileProgram p
      = Ret (p2, [(progReady, progCompile); (progCompile, progReady)]) /\
    instructions p2 = instructions p ++ instructions p /\
    destinations p2 = destinations p /\
    forall (j : nat) x,
      instructions p !! j = Some x ->
      mapping p2 !! i_pc x = Some (len (instructions p) + Z.of_nat j).
Proof.
  intros Hlen.
  destruct (CompileProgram_fresh _baseCheck getData Keccak256Hash code Hlen)
    as (p & Erun & [Hst Hco Hd Hde Hmn Hmo]).
  destruct (decodes_chain _ _ _ Hd) as (_ & _ & _ & _ & Hl).
  pose proof (len_nonneg (instructions p)) as Hl0.
  destruct (compile_loop_appends (length code) (set_status progCompile p) 0)
    as (p' & l & Erun2 & Hd2 & Hext);
    cbn [VM.code instructions set_status]; rewrite ?Hco; try lia.
  { unfold len. lia. }
  cbn [VM.code set_status] in Hd2. rewrite Hco in Hd2.
  assert (l = instructions p) as -> by (eapply decodes_fun; eassumption).
  destruct Hext as [HId Hst' Hco' Hin Hde' Hmn' Hmo'].
  cbn [Id status VM.code instructions mapping destinations set_status] in *.
  exists p, [(progUnknown, progCompile); (progCompile, progReady)],
    (set_status progReady p').
  split; [exact Erun|]. split.
  { unfold VM.CompileProgram. rewrite Hst.
    rewrite bool_decide_eq_false_2 by discriminate.
    unfold StoreStatus. cbn [VM.code set_status]. rewrite Hco, Erun2.
    cbn [mbind outcome_bind]. rewrite Hst', Hst. reflexivity. }
  cbn [set_status instructions destinations mapping].
  split; [exact Hin|]. split; [|exact Hmn'].
  apply set_eq. intros q. rewrite Hde', Hde. tauto.
Qed.

(** ** The fields of a decoded instruction *)

Lemma emitted_fields (code : list byte) (pc : Z) (op : OpCode) :
  exists instr,
    emitted code pc op = [instr] /\
    (op_le DUP1 op && op_le op DUP16 = true ->
       i_fn instr = Some opDup /\
       i_data instr = Some (opnum op - opnum DUP1 + 1)) /\
    (op_le SWAP1 op && op_le op SWAP16 = true ->
       i_fn instr = Some opSwap /\
       i_data instr = Some (opnum op - opnum SWAP1 + 2)) /\
    (op_le LOG0 op && op_le op LOG4 = true ->
       i_fn instr = Some opLog /\
       i_data instr = Some (opnum op - opnum LOG0)) /\
    (op = PC -> i_fn instr = Some opPc /\ i_data instr = Some (i64 pc)) /\
    (is_push op = false -> op_le DUP1 op && op_le op LOG4 = false ->
       op <> PC -> i_data instr = None).
Proof.
  destruct op; eexists; (split; [reflexivity|]);
    (repeat split); intros; try discriminate; try reflexivity; congruence.
Qed.

Lemma emitted_row (code : list byte) (pc : Z) (op : OpCode) :
  exists instr,
    emitted code pc op = [instr] /\
    (let base :=
       _baseCheck (if is_push op then PUSH1
                   else if op_le DUP1 op && op_le op DUP16 then DUP1 else op) in
     i_gas instr = gas base /\ i_spop instr = stackPop base /\
     i_spush instr = stackPush base) /\
    (i_returns instr = true <-> op = RETURN \/ op = SUICIDE \/ op = STOP).
Proof.
  destruct op; eexists; (split; [reflexivity|]);
    (split; [repeat split|]);
    (split; [intros H; try discriminate H; auto
            |intros [H|[H|H]]; try discriminate H; reflexivity]).
Qed.

(** X13: in a compiled program every [DUP_n] carries the immediate [n],
    every [SWAP_n] the immediate [n + 1], every [LOG_n] the immediate [n]
    and every [PC] its own program counter, each with the execution function
    of its family; an instruction that is none of these and not a [PUSH]
    carries no immediate. *)
Theorem X13_immediates_of_DUP_SWAP_LOG_and_PC (code : list byte) :
  len code < 2 ^ 63 ->
  exists p ts,
    CompileProgram (fresh code) = Ret (p, ts) /\
    forall instr, instr ∈ instructions p ->
      let op := i_op instr in
      (op_le DUP1 op && op_le op DUP16 = true ->
         i_fn instr = Some opDup /\
         i_data instr = Some (opnum op - opnum DUP1 + 1)) /\
      (op_le SWAP1 op && op_le op SWAP16 = true ->
         i_fn instr = Some opSwap /\
         i_data instr = Some (opnum op - opnum SWAP1 + 2)) /\
      (op_le LOG0 op && op_le op LOG4 = true ->
         i_fn instr = Some opLog /\
         i_data instr = Some (opnum op - opnum LOG0)) /\
      (op = PC -> i_fn instr = Some opPc /\ i_data instr = Some (i_pc instr)) /\
      (is_push op = false -> op_le DUP1 op && op_le op LOG4 = false ->
         op <> PC -> i_data instr = None).
Proof.
  intros Hlen.
  destruct (CompileProgram_fresh _baseCheck getData Keccak256Hash code Hlen)
    as (p & Erun & [_ _ Hd _ _ _]).
  exists p, [(progUnknown, progCompile); (progCompile, progReady)].
  split; [exact Erun|]. intros instr Hin op.
  pose proof (decodes_emitted _ _ _ _ _ Hd instr Hin) as Hem.
  pose proof (decodes_pc_range _ _ _ _ _ Hd instr Hin) as Hpc.
  destruct (emitted_fields code (i_pc instr) (i_op instr))
    as (i0 & E0 & Hdup & Hswap & Hlog & Hpcop & Hnone).
  rewrite Hem in E0. injection E0 as <-.
  rewrite i64_small in Hpcop by lia.
  repeat split; try (apply Hdup || apply Hswap || apply Hlog || apply Hpcop);
    assumption || (apply Hnone; assumption).
Qed.

(** X14: in a compiled program every instruction carries the gas and the
    stack pop and push counts of its row of the [_baseCheck] table, where
    all [PUSH_n] share the row of [PUSH1] and all [DUP_n] the row of [DUP1];
    its [returns] flag is set exactly for [RETURN], [SUICIDE] and [STOP]. *)
Theorem X14_cost_row_and_returns_flag (code : list byte) :
  len code < 2 ^ 63 ->
  exists p ts,
    CompileProgram (fresh code) = Ret (p, ts) /\
    forall instr, instr ∈ instructions p ->
      let op := i_op instr in
      let base :=
        _baseCheck (if is_push op then PUSH1
                    else if op_le DUP1 op && op_le op DUP16 then DUP1 else op) in
      i_gas instr = gas base /\ i_spop instr = stackPop base /\
      i_spush instr = stackPush base /\
      (i_returns instr = true <-> op = RETURN \/ op = SUICIDE \/ op = STOP).
Proof.
  intros Hlen.
  destruct (CompileProgram_fresh _baseCheck getData Keccak256Hash code Hlen)
    as (p & Erun & [_ _ Hd _ _ _]).
  exists p, [(progUnknown, progCompile); (progCompile, progReady)].
  split; [exact Erun|]. intros instr Hin op base.
  pose proof (decodes_emitted _ _ _ _ _ Hd instr Hin) as Hem.
  destruct (emitted_row code (i_pc instr) (i_op instr))
    as (i0 & E0 & (Hg & Hpop & Hpush) & Hret).
  rewrite Hem in E0. injection E0 as <-.
  repeat split; try assumption; apply Hret.
Qed.

(** ** The program cache *)

Lemma lru_find_Add (size : nat) (k : Hash) (v : nat) (c : list (Hash * nat)) :
  (1 <= size)%nat -> lru_find k (lru_Add size k v c) = Some v.
Proof.
  intros Hsize. destruct size as [|size]; [lia|].
  unfold lru_Add, lru_find. cbn [take list_find].
  rewrite decide_True by reflexivity. reflexivity.
Qed.

(** X15: with a cache of at least one entry, right after [NewProgram]
    the program is found by [GetProgram] under the hash of its code and
    [GetProgramStatus] reports Unknown; after [CompileProgram] on it,
    [GetProgram] still finds it and [GetProgramStatus] reports Ready. *)
Theorem X15_a_new_program_is_found_in_the_cache
    (code : list byte) (s : Store) :
  (1 <= MaxSize s)%nat -> len code < 2 ^ 63 ->
  let ptr := (NewProgram code s).1 in
  let s1 := (NewProgram code s).2 in
  let id := Keccak256Hash code in
  (GetProgram id s1).1 = Some ptr /\
  (GetProgramStatus id s1).1 = progUnknown /\
  exists s2 ts,
    do_call (CallCompileProgram ptr) s1 = Ret (s2, ts) /\
    (GetProgram id s2).1 = Some ptr /\
    (GetProgramStatus id s2).1 = progReady.
Proof.
  intros Hsize Hlen ptr s1 id.
  assert (Hfind : lru_find id (programs s1) = Some ptr).
  { apply lru_find_Add. exact Hsize. }
  assert (Hheap : heap s1 !! ptr = Some (fresh code)).
  { apply NewProgram_heap. }
  assert (Hget : forall s', programs s' = programs s1 ->
            (GetProgram id s').1 = Some ptr /\
            heap (GetProgram id s').2 = heap s').
  { intros s' Hp. unfold GetProgram, lru_Get. rewrite Hp, Hfind.
    split; reflexivity. }
  assert (Hstat : forall s' q, programs s' = programs s1 ->
            heap s' !! ptr = Some q -> (GetProgramStatus id s').1 = status q).
  { intros s' q Hp Hq. unfold GetProgramStatus.
    destruct (Hget s' Hp) as [H1 H2].
    destruct (GetProgram id s') as [o s'']. cbn [fst snd] in H1, H2. subst o.
    cbn [mbind option_bind]. rewrite H2, Hq. reflexivity. }
  split; [apply (Hget s1 eq_refl)|].
  split; [apply (Hstat s1 (fresh code) eq_refl Hheap)|].
  destruct (CompileProgram_fresh _baseCheck getData Keccak256Hash code Hlen)
    as (p & Erun & Hc).
  eexists _, _. split.
  { cbn [VM.do_call]. rewrite Hheap, Erun. cbn [mbind outcome_bind]. reflexivity. }
  split; [apply Hget; reflexivity|].
  rewrite (Hstat _ p); [apply (cp_status _ _ _ _ Hc)|reflexivity|].
  cbn [heap]. apply list_lookup_insert_eq. eapply lookup_lt_Some. exact Hheap.
Qed.

End Decoder.

(** X9 on [PUSH1 0x5B, STOP]: the instruction at pc 2 has index 1. *)
Lemma X9_witness :
  exists p ts,
    VM.CompileProgram sample_baseCheck sample_getData
      (VM.fresh sample_Keccak256Hash [x60; x5b; x00])
      = Ret (p, ts) /\
    (mapping p !! 2 = Some 1 <->
     0 <= 1 /\
     exists instr,
       instructions p !! Z.to_nat 1 = Some instr /\ i_pc instr = 2).
Proof.
  destruct (X9_pc_map_inverts_the_instruction_array sample_baseCheck
              sample_getData sample_Keccak256Hash [x60; x5b; x00])
    as (p & ts & Erun & Hm); [reflexivity|].
  exists p, ts. split; [exact Erun|apply Hm].
Defined.

(** X10 on [PUSH1 0x5B, STOP]. *)
Lemma X10_witness :
  exists p ts,
    CompileProgram sample_baseCheck sample_getData
      (fresh sample_Keccak256Hash [x60; x5b; x00])
      = Ret (p, ts) /\
    len (instructions p) <= 3.
Proof.
  destruct (X10_instructions_tile_the_code sample_baseCheck
              sample_getData sample_Keccak256Hash [x60; x5b; x00])
    as (p & ts & Erun & _ & _ & _ & _ & _ & Hl); [reflexivity|].
  exists p, ts. split; [exact Erun|exact Hl].
Defined.

(** X11 on [PUSH1 0x5B, JUMPDEST]: pc 2 is a valid destination. *)
Lemma X11_witness :
  exists p ts,
    CompileProgram sample_baseCheck sample_getData
      (fresh sample_Keccak256Hash [x60; x5b; x5b])
      = Ret (p, ts) /\
    validDest (destinations p) 2 = true.
Proof.
  destruct (X11_validDest_accepts_exactly_the_decoded_jumpdests sample_baseCheck
              sample_getData sample_Keccak256Hash [x60; x5b; x5b])
    as (_ & p & ts & Erun & Hv); [reflexivity|].
  exists p, ts. split; [exact Erun|].
  apply Hv; [lia|]. split; [|reflexivity].
  change 2 with (0 + pushsize x60 + 1).
  apply boundary_next; [constructor|reflexivity].
Defined.

(** X12 on [JUMPDEST, STOP]. *)
Lemma X12_witness :
  exists p ts p2,
    CompileProgram sample_baseCheck sample_getData
      (fresh sample_Keccak256Hash [x5b; x00])
      = Ret (p, ts) /\
    CompileProgram sample_baseCheck sample_getData p
      = Ret (p2, [(progReady, progCompile); (progCompile, progReady)]) /\
    instructions p2 = instructions p ++ instructions p.
Proof.
  destruct (X12_second_CompileProgram_appends_the_instructions_again
              sample_baseCheck sample_getData sample_Keccak256Hash [x5b; x00])
    as (p & ts & p2 & E1 & E2 & Hi & _); [reflexivity|].
  exists p, ts, p2. split; [exact E1|]. split; [exact E2|exact Hi].
Defined.

(** X13 on [SWAP2, PC]: the immediate of [SWAP2] is 3. *)
Lemma X13_witness :
  exists p ts,
    CompileProgram sample_baseCheck sample_getData
      (fresh sample_Keccak256Hash [x91; x58])
      = Ret (p, ts) /\
    (forall instr, instr ∈ instructions p -> i_op instr = SWAP2 ->
       i_data instr = Some 3).
Proof.
  destruct (X13_immediates_of_DUP_SWAP_LOG_and_PC sample_baseCheck
              sample_getData sample_Keccak256Hash [x91; x58])
    as (p & ts & Erun & H); [reflexivity|].
  exists p, ts. split; [exact Erun|]. intros instr Hin Hop.
  destruct (H instr Hin) as (_ & Hswap & _). rewrite Hop in Hswap.
  apply Hswap. reflexivity.
Defined.

(** X14 on a [PUSH32]: the row is that of [PUSH1]. *)
Lemma X14_witness :
  exists p ts,
    CompileProgram sample_baseCheck sample_getData
      (fresh sample_Keccak256Hash [x7f; x01])
      = Ret (p, ts) /\
    (forall instr, instr ∈ instructions p ->
       i_gas instr = gas (sample_baseCheck PUSH1)).
Proof.
  destruct (X14_cost_row_and_returns_flag sample_baseCheck
              sample_getData sample_Keccak256Hash [x7f; x01])
    as (p & ts & Erun & H); [reflexivity|].
  exists p, ts. split; [exact Erun|]. intros instr Hin.
  destruct (H instr Hin) as (Hg & _). exact Hg.
Defined.

(** X15 on the initial cache. *)
Lemma X15_witness :
  (GetProgramStatus (sample_Keccak256Hash [x5b])
     (NewProgram sample_Keccak256Hash [x5b] init).2).1 = progUnknown.
Proof.
  destruct (X15_a_new_program_is_found_in_the_cache sample_baseCheck
              sample_getData sample_Keccak256Hash [x5b] init)
    as (_ & H & _).
  - unfold init, SetJITCacheSize, defaultJitMaxCache. cbn [MaxSize]. lia.
  - reflexivity.
  - exact H.
Defined.

End DecoderProps.
